(** * TinyBox: key lifecycle, authenticated encryption and collision-tolerant
      enumeration

    A shallow embedding of the client library ([crypto.ts], [key-manager.ts],
    the [loadFiles] loop of [FileUploader.tsx]) and of the server actions
    ([actions/index.ts]) of TinyBox, followed by the properties the
    specification states about them, and then of the rest of that code (the
    handlers of [FileUploader.tsx] and [ShareLink.tsx], [encryptMetadata],
    the action [store]) with further properties of the code, numbered X1
    onwards.

    Part I holds the embedding, Part II the proofs.

    Conventions of the embedding.  Strings and buffers are lists of any
    length.  An [async] function runs to its end before the next one starts:
    every [await] is taken as returning at once, so two operations of the key
    manager never overlap.  What the code writes to the console is left out.
    The platform functions with a standard, deterministic result (base64,
    UTF-8, SHA-256, URL encoding) are written out and run; AES-GCM,
    [JSON.parse] and the UUID check of the schema library are parameters.
    For the handlers: a toast is kept as its text; the messages the platform
    gives its own exceptions are a parameter; clocks and the random source of
    [uuidv4] are part of the world the handlers run in; the file system and
    the database fail when the host says so; the two requests of a
    [Promise.all] reach the server in the order they are written; and what
    React does between two renders is left out, so a handler reads the stores
    as they are when it is called. *)

From Stdlib Require Import NArith ZArith Lia ZifyNat ZifyBool List Sorted Strings.Byte
  String Ascii.
From stdpp Require Import base option list gmap strings.

Open Scope N_scope.

Set Warnings "-register-all".

(* ===================================================================== *)
(** * Part I.  The embedding                                              *)
(* ===================================================================== *)

(** ** JavaScript values used by the code *)

(** A JavaScript string is a sequence of 16-bit code units.  A code unit is
    kept as its two bytes, so that every inhabitant is a code unit and no
    range side condition is needed. *)
Record u16 : Type := U16 { hi : byte; lo : byte }.

Definition jsstring : Type := list u16.

Definition u16_eqb (a b : u16) : bool :=
  Byte.eqb (hi a) (hi b) && Byte.eqb (lo a) (lo b).

Definition u16_to_N (u : u16) : N := 256 * Byte.to_N (hi u) + Byte.to_N (lo u).

(** [byte_of_N n] is the byte [n mod 256], what storing a number into a
    [Uint8Array] keeps of it. *)
Definition byte_of_N (n : N) : byte :=
  match Byte.of_N (n mod 256) with Some b => b | None => x00 end.

Definition u16_of_N (n : N) : u16 := U16 (byte_of_N (n / 256)) (byte_of_N n).

(** The code unit of a Latin-1 character. *)
Definition ch (b : byte) : u16 := U16 x00 b.

(** A string literal of the source (ASCII). *)
Definition js (s : string) : jsstring := map ch (list_byte_of_string s).

Fixpoint jsstring_eqb (s t : jsstring) : bool :=
  match s, t with
  | [], [] => true
  | a :: s', b :: t' => u16_eqb a b && jsstring_eqb s' t'
  | _, _ => false
  end.

(** [String.fromCharCode(...bytes)]: one code unit per byte. *)
Definition fromCharCode (bs : list byte) : jsstring := map ch bs.

(** [new Uint8Array(s.split("").map((char) => char.charCodeAt(0)))]: every
    code unit is stored modulo 256. *)
Definition charCodes (s : jsstring) : list byte := map lo s.

(** ** Exceptions

    The exceptions the platform and the code raise.  A computation that can
    throw returns [result A]. *)
Inductive exn : Type :=
  | InvalidCharacterError   (* btoa / atob *)
  | DataError               (* importKey: key of a wrong length *)
  | OperationError          (* AES-GCM decrypt: the tag does not verify *)
  | SyntaxError             (* JSON.parse *)
  | TypeError               (* property read on null *)
  | QuotaExceededError      (* sessionStorage.setItem *)
  | InvalidAccessError      (* a key used for what it does not allow *)
  | URIError                (* encodeURIComponent *)
  | Error (message : string).

Definition result (A : Type) : Type := exn + A.

Definition throw {A} (e : exn) : result A := inl e.
Definition ok {A} (a : A) : result A := inr a.

Definition rbind {A B} (m : result A) (k : A -> result B) : result B :=
  match m with
  | inl e => inl e
  | inr a => k a
  end.

Notation "'let*' x ':=' m 'in' k" := (rbind m (fun x => k))
  (at level 10, x pattern, m at level 100, k at level 200).

(** ** Base64: [btoa] and [atob]

    Both follow the HTML standard (forgiving-base64 encode and decode). *)

Definition base64_alphabet : jsstring :=
  js "ABCDEFGHIJKLMNOPQRSTUVWXYZabcdefghijklmnopqrstuvwxyz0123456789+/".

Definition pad_char : u16 := ch "=".

Definition char_of_sextet (n : N) : u16 :=
  nth (N.to_nat n) base64_alphabet pad_char.

Fixpoint index_from (c : u16) (l : jsstring) (i : N) : option N :=
  match l with
  | [] => None
  | d :: l' => if u16_eqb c d then Some i else index_from c l' (i + 1)
  end.

Definition sextet_of_char (c : u16) : option N :=
  index_from c base64_alphabet 0.

(** The 6-bit groups of a byte sequence, three bytes giving four groups; a
    final group of one or two bytes gives two or three groups, the last one
    filled with zero bits. *)
Fixpoint sextets_of_bytes (bs : list byte) : list N :=
  match bs with
  | [] => []
  | [a] =>
      let a := Byte.to_N a in
      [a / 4; (a mod 4) * 16]
  | [a; b] =>
      let a := Byte.to_N a in
      let b := Byte.to_N b in
      [a / 4; (a mod 4) * 16 + b / 16; (b mod 16) * 4]
  | a :: b :: c :: rest =>
      let a := Byte.to_N a in
      let b := Byte.to_N b in
      let c := Byte.to_N c in
      [a / 4; (a mod 4) * 16 + b / 16; (b mod 16) * 4 + c / 64; c mod 64]
        ++ sextets_of_bytes rest
  end.

Definition base64_padding (len : nat) : jsstring :=
  match (len mod 3)%nat with
  | 0%nat => []
  | 1%nat => [pad_char; pad_char]
  | _ => [pad_char]
  end.

Definition base64_encode (bs : list byte) : jsstring :=
  map char_of_sextet (sextets_of_bytes bs) ++ base64_padding (length bs).

(** [btoa(s)]: throws when [s] has a code unit above 255. *)
Definition btoa (s : jsstring) : result jsstring :=
  if forallb (fun u => Byte.eqb (hi u) x00) s
  then ok (base64_encode (charCodes s))
  else throw InvalidCharacterError.

Definition is_ascii_whitespace (c : u16) : bool :=
  existsb (u16_eqb c) [ch x09; ch x0a; ch x0c; ch x0d; ch x20].

(** Removes one or two trailing [=]. *)
Definition strip_padding (data : jsstring) : jsstring :=
  match rev data with
  | p :: q :: r =>
      if u16_eqb p pad_char
      then if u16_eqb q pad_char then rev r else rev (q :: r)
      else data
  | [p] => if u16_eqb p pad_char then [] else data
  | [] => data
  end.

(** The bytes of a sequence of 6-bit groups; the bits left over at the end
    (four after two groups, two after three) are dropped. *)
Fixpoint bytes_of_sextets (sx : list N) : list byte :=
  match sx with
  | a :: b :: c :: d :: rest =>
      [byte_of_N (a * 4 + b / 16); byte_of_N ((b mod 16) * 16 + c / 4);
       byte_of_N ((c mod 4) * 64 + d)] ++ bytes_of_sextets rest
  | [a; b; c] =>
      [byte_of_N (a * 4 + b / 16); byte_of_N ((b mod 16) * 16 + c / 4)]
  | [a; b] => [byte_of_N (a * 4 + b / 16)]
  | _ => []
  end.

Definition base64_decode (s : jsstring) : option (list byte) :=
  let data := List.filter (fun c => negb (is_ascii_whitespace c)) s in
  let data := if (length data mod 4 =? 0)%nat then strip_padding data else data in
  if (length data mod 4 =? 1)%nat then None
  else option_map bytes_of_sextets (mapM sextet_of_char data).

(** [atob(s)]: the decoded bytes as a binary string. *)
Definition atob (s : jsstring) : result jsstring :=
  match base64_decode s with
  | Some bs => ok (fromCharCode bs)
  | None => throw InvalidCharacterError
  end.

(** ** UTF-8: [TextEncoder] and [TextDecoder]

    Both follow the WHATWG Encoding standard.  Code points are numbers. *)

Definition replacement_char : N := 0xFFFD.

Definition is_lead_surrogate (c : N) : bool := (0xD800 <=? c) && (c <=? 0xDBFF).
Definition is_trail_surrogate (c : N) : bool := (0xDC00 <=? c) && (c <=? 0xDFFF).

(** The scalar values of a string: a surrogate pair is one code point, a
    surrogate that is not part of a pair becomes U+FFFD. *)
Fixpoint code_points (s : jsstring) : list N :=
  match s with
  | [] => []
  | u :: rest =>
      let c := u16_to_N u in
      if is_lead_surrogate c then
        match rest with
        | v :: rest' =>
            let d := u16_to_N v in
            if is_trail_surrogate d
            then (0x10000 + (c - 0xD800) * 1024 + (d - 0xDC00)) :: code_points rest'
            else replacement_char :: code_points rest
        | [] => [replacement_char]
        end
      else if is_trail_surrogate c then replacement_char :: code_points rest
      else c :: code_points rest
  end.

Definition utf8_encode_code_point (c : N) : list byte :=
  if c <? 0x80 then [byte_of_N c]
  else if c <? 0x800 then
    [byte_of_N (0xC0 + c / 64); byte_of_N (0x80 + c mod 64)]
  else if c <? 0x10000 then
    [byte_of_N (0xE0 + c / 4096); byte_of_N (0x80 + (c / 64) mod 64);
     byte_of_N (0x80 + c mod 64)]
  else
    [byte_of_N (0xF0 + c / 262144); byte_of_N (0x80 + (c / 4096) mod 64);
     byte_of_N (0x80 + (c / 64) mod 64); byte_of_N (0x80 + c mod 64)].

(** [new TextEncoder().encode(s)] *)
Definition TextEncoder_encode (s : jsstring) : list byte :=
  flat_map utf8_encode_code_point (code_points s).

(** The state of the UTF-8 decoder while inside a multi-byte sequence: the
    code point so far, the continuation bytes still needed, and the range
    allowed for the next byte. *)
Record utf8_state : Type := Utf8State {
  utf8_code_point : N;
  utf8_bytes_needed : N;
  utf8_lower_boundary : N;
  utf8_upper_boundary : N
}.

Inductive utf8_lead : Type :=
  | LeadEmit (c : N)
  | LeadStart (st : utf8_state)
  | LeadError.

(** What the decoder does with a byte when no sequence is open.  The masks
    [b & 0x1F], [b & 0xF], [b & 0x7] of the standard are written [mod]. *)
Definition utf8_lead_byte (b : N) : utf8_lead :=
  if b <=? 0x7F then LeadEmit b
  else if (0xC2 <=? b) && (b <=? 0xDF) then
    LeadStart (Utf8State (b mod 32) 1 0x80 0xBF)
  else if (0xE0 <=? b) && (b <=? 0xEF) then
    LeadStart (Utf8State (b mod 16) 2
                 (if b =? 0xE0 then 0xA0 else 0x80)
                 (if b =? 0xED then 0x9F else 0xBF))
  else if (0xF0 <=? b) && (b <=? 0xF4) then
    LeadStart (Utf8State (b mod 8) 3
                 (if b =? 0xF0 then 0x90 else 0x80)
                 (if b =? 0xF4 then 0x8F else 0xBF))
  else LeadError.

(** The decoder, with replacement as error mode: a byte that cannot continue
    the open sequence closes it with U+FFFD and is then read again as the
    start of a sequence; an open sequence at the end of the input gives
    U+FFFD. *)
Fixpoint utf8_decode_from (st : option utf8_state) (bs : list byte) : list N :=
  match bs with
  | [] => match st with None => [] | Some _ => [replacement_char] end
  | b :: rest =>
      let b := Byte.to_N b in
      let start :=
        match utf8_lead_byte b with
        | LeadEmit c => c :: utf8_decode_from None rest
        | LeadStart st' => utf8_decode_from (Some st') rest
        | LeadError => replacement_char :: utf8_decode_from None rest
        end in
      match st with
      | None => start
      | Some s =>
          if (utf8_lower_boundary s <=? b) && (b <=? utf8_upper_boundary s) then
            let c := utf8_code_point s * 64 + b mod 64 in
            if utf8_bytes_needed s =? 1 then c :: utf8_decode_from None rest
            else utf8_decode_from
                   (Some (Utf8State c (utf8_bytes_needed s - 1) 0x80 0xBF)) rest
          else replacement_char :: start
      end
  end.

Definition utf8_decode (bs : list byte) : list N := utf8_decode_from None bs.

Definition utf16_of_code_point (c : N) : jsstring :=
  if c <? 0x10000 then [u16_of_N c]
  else [u16_of_N (0xD800 + (c - 0x10000) / 1024);
        u16_of_N (0xDC00 + (c - 0x10000) mod 1024)].

Definition utf16_of_code_points (cs : list N) : jsstring :=
  flat_map utf16_of_code_point cs.

(** A leading byte order mark (EF BB BF) is not part of the decoded text. *)
Definition strip_utf8_bom (bs : list byte) : list byte :=
  match bs with
  | b0 :: b1 :: b2 :: rest =>
      if Byte.eqb b0 xef && Byte.eqb b1 xbb && Byte.eqb b2 xbf then rest else bs
  | _ => bs
  end.

(** [new TextDecoder().decode(bytes)]: UTF-8, not fatal, [ignoreBOM] false. *)
Definition TextDecoder_decode (bs : list byte) : jsstring :=
  utf16_of_code_points (utf8_decode (strip_utf8_bom bs)).

(** The code points that are not surrogates. *)
Definition is_scalar (c : N) : Prop :=
  c < 0xD800 \/ (0xE000 <= c /\ c < 0x110000).

(** A string without a surrogate outside of a pair. *)
Fixpoint well_formed (s : jsstring) : bool :=
  match s with
  | [] => true
  | u :: rest =>
      if is_lead_surrogate (u16_to_N u) then
        match rest with
        | v :: rest' => is_trail_surrogate (u16_to_N v) && well_formed rest'
        | [] => false
        end
      else negb (is_trail_surrogate (u16_to_N u)) && well_formed rest
  end.

Definition byte_order_mark : u16 := U16 xfe xff.

Definition starts_with_bom (s : jsstring) : bool :=
  match s with
  | u :: _ => u16_eqb u byte_order_mark
  | [] => false
  end.

(** ** SHA-256: [crypto.subtle.digest("SHA-256", data)]

    FIPS 180-4, on 32-bit words kept as numbers below [2^32]. *)
Module SHA256.

Definition w32 (x : N) : N := x mod 2 ^ 32.
Definition add32 (x y : N) : N := w32 (x + y).
Definition rotr (n x : N) : N :=
  N.lor (N.shiftr x n) (w32 (N.shiftl x (32 - n))).
Definition not32 (x : N) : N := N.lxor x 0xFFFFFFFF.

Definition Ch (x y z : N) : N := N.lxor (N.land x y) (N.land (not32 x) z).
Definition Maj (x y z : N) : N :=
  N.lxor (N.lxor (N.land x y) (N.land x z)) (N.land y z).
Definition Sigma0 (x : N) : N := N.lxor (N.lxor (rotr 2 x) (rotr 13 x)) (rotr 22 x).
Definition Sigma1 (x : N) : N := N.lxor (N.lxor (rotr 6 x) (rotr 11 x)) (rotr 25 x).
Definition sigma0 (x : N) : N := N.lxor (N.lxor (rotr 7 x) (rotr 18 x)) (N.shiftr x 3).
Definition sigma1 (x : N) : N := N.lxor (N.lxor (rotr 17 x) (rotr 19 x)) (N.shiftr x 10).

(** The largest [r] below [2 ^ bits] with [r ^ k <= n], found bit by bit. *)
Fixpoint iroot (k : N) (bits : nat) (n r : N) : N :=
  match bits with
  | O => r
  | S bits' =>
      let r' := r + 2 ^ N.of_nat bits' in
      iroot k bits' n (if r' ^ k <=? n then r' else r)
  end.

Definition is_prime (p : N) : bool :=
  (2 <=? p) && forallb (fun d => negb (p mod N.of_nat d =? 0)) (seq 2 (N.to_nat p - 2)).

Definition primes : list N :=
  List.filter is_prime (map N.of_nat (seq 2 310)).

(** The round constants: the first 32 bits of the fractional parts of the
    cube roots of the first 64 primes. *)
Definition K : list N :=
  map (fun p => w32 (iroot 3 36 (p * 2 ^ 96) 0)) (firstn 64 primes).

(** The initial hash value: the same of the square roots of the first 8
    primes. *)
Definition H0 : list N :=
  map (fun p => w32 (iroot 2 36 (p * 2 ^ 64) 0)) (firstn 8 primes).

(** The message followed by the bit 1, zero bits, and its length in bits
    as a 64-bit big-endian number, a multiple of 64 bytes in all. *)
Definition be_bytes (width : nat) (x : N) : list byte :=
  map (fun i => byte_of_N (x / 2 ^ (8 * N.of_nat i))) (rev (seq 0 width)).

Definition pad (msg : list byte) : list byte :=
  let len := length msg in
  let zeros := ((64 - (len + 9) mod 64) mod 64)%nat in
  msg ++ [x80] ++ repeat x00 zeros ++ be_bytes 8 (8 * N.of_nat len).

Definition word_of_bytes (bs : list byte) : N :=
  fold_left (fun acc b => acc * 256 + Byte.to_N b) bs 0.

Fixpoint words_of_bytes (n : nat) (bs : list byte) : list N :=
  match n with
  | O => []
  | S n' => word_of_bytes (firstn 4 bs) :: words_of_bytes n' (skipn 4 bs)
  end.

(** The message schedule, latest word first. *)
Fixpoint schedule (n : nat) (ws : list N) : list N :=
  match n with
  | O => ws
  | S n' =>
      let w := add32 (add32 (sigma1 (nth 1 ws 0)) (nth 6 ws 0))
                     (add32 (sigma0 (nth 14 ws 0)) (nth 15 ws 0)) in
      schedule n' (w :: ws)
  end.

Definition round (st : list N) (kw : N * N) : list N :=
  match st with
  | [a; b; c; d; e; f; g; h] =>
      let t1 := add32 (add32 (add32 h (Sigma1 e)) (add32 (Ch e f g) (fst kw))) (snd kw) in
      let t2 := add32 (Sigma0 a) (Maj a b c) in
      [add32 t1 t2; a; b; c; add32 d t1; e; f; g]
  | _ => st
  end.

Definition compress (h : list N) (block : list byte) : list N :=
  let w := rev (schedule 48 (rev (words_of_bytes 16 block))) in
  let st := fold_left round (combine K w) h in
  map (fun p => add32 (fst p) (snd p)) (combine h st).

Fixpoint blocks (n : nat) (bs : list byte) (h : list N) : list N :=
  match n with
  | O => h
  | S n' => blocks n' (skipn 64 bs) (compress h (firstn 64 bs))
  end.

Definition digest_words (msg : list byte) : list N :=
  let m := pad msg in
  blocks (length m / 64) m H0.

Definition sha256 (msg : list byte) : list byte :=
  flat_map (be_bytes 4) (digest_words msg).

End SHA256.

(** ** [crypto.getRandomValues]

    The random source is a tape of bytes and a position on it. *)
Record entropy : Type := Entropy { tape : nat -> byte; cursor : nat }.

Definition getRandomValues (n : nat) (r : entropy) : list byte * entropy :=
  (map (tape r) (seq (cursor r) n), Entropy (tape r) (cursor r + n)).

(** ** Web Crypto keys and AES-GCM *)

Record CryptoKey : Type := {
  algorithm_name : string;
  algorithm_length : N;          (* in bits *)
  extractable : bool;
  usages : list string;
  key_data : list byte
}.

(** The AES-GCM primitive of the platform: key material, nonce and payload
    to the ciphertext with its tag; decryption answers [None] when the tag
    does not verify. *)
Class AesGcm : Type := {
  aes_gcm_encrypt : list byte -> list byte -> list byte -> list byte;
  aes_gcm_decrypt : list byte -> list byte -> list byte -> option (list byte)
}.

(** What the platform promises of it: decrypting with the key and nonce of
    the encryption gives the payload back. *)
Class AesGcmCorrect (G : AesGcm) : Prop :=
  aes_gcm_decrypt_encrypt :
    forall key iv data,
      aes_gcm_decrypt key iv (aes_gcm_encrypt key iv data) = Some data.

(** The tag of AES-GCM as the code calls it, without [tagLength], has 128
    bits: the ciphertext is 16 bytes longer than the payload. *)
Class AesGcmTag128 (G : AesGcm) : Prop :=
  aes_gcm_encrypt_length :
    forall key iv data,
      length (aes_gcm_encrypt key iv data) = (length data + 16)%nat.

(** Bytes as a number, least significant byte first, and back. *)
Fixpoint le_value (bs : list byte) : N :=
  match bs with
  | [] => 0
  | b :: rest => Byte.to_N b + 256 * le_value rest
  end.

Fixpoint le_bytes (n : nat) (x : N) : list byte :=
  match n with
  | O => []
  | S n' => byte_of_N x :: le_bytes n' (x / 256)
  end.

(** The AES-GCM key [importKey] makes of 32 bytes. *)
Definition aes256_key (keyData : list byte) : CryptoKey :=
  {| algorithm_name := "AES-GCM"; algorithm_length := 256; extractable := true;
     usages := ["encrypt"; "decrypt"]%string; key_data := keyData |}.

Definition string_mem (x : string) (l : list string) : bool :=
  existsb (String.eqb x) l.

(** The checks [crypto.subtle.encrypt] and [decrypt] make on the key. *)
Definition key_allows (usage : string) (key : CryptoKey) : bool :=
  String.eqb (algorithm_name key) "AES-GCM" && string_mem usage (usages key).

(** [crypto.subtle.encrypt({ name: "AES-GCM", iv }, key, data)] *)
Definition subtle_encrypt `{AesGcm} (iv : list byte) (key : CryptoKey)
    (data : list byte) : result (list byte) :=
  if key_allows "encrypt" key
  then ok (aes_gcm_encrypt (key_data key) iv data)
  else throw InvalidAccessError.

(** [crypto.subtle.decrypt({ name: "AES-GCM", iv }, key, data)] *)
Definition subtle_decrypt `{AesGcm} (iv : list byte) (key : CryptoKey)
    (data : list byte) : result (list byte) :=
  if key_allows "decrypt" key
  then match aes_gcm_decrypt (key_data key) iv data with
       | Some plain => ok plain
       | None => throw OperationError
       end
  else throw InvalidAccessError.

(** [crypto.subtle.importKey("raw", keyData, { name: "AES-GCM" }, true,
    ["encrypt", "decrypt"])]: the key material is 128, 192 or 256 bits. *)
Definition subtle_importKey_raw (keyData : list byte) : result CryptoKey :=
  let bits := 8 * N.of_nat (length keyData) in
  if (bits =? 128) || (bits =? 192) || (bits =? 256)
  then ok {| algorithm_name := "AES-GCM"; algorithm_length := bits;
             extractable := true; usages := ["encrypt"; "decrypt"]%string;
             key_data := keyData |}
  else throw DataError.

(** [crypto.subtle.exportKey("raw", key)] *)
Definition subtle_exportKey_raw (key : CryptoKey) : result (list byte) :=
  if extractable key then ok (key_data key) else throw InvalidAccessError.

(** ** crypto.ts *)

(** [generateEncryptionKey]: a fresh extractable AES-GCM key of 256 bits. *)
Definition generateEncryptionKey (r : entropy) : CryptoKey * entropy :=
  let (bytes, r') := getRandomValues 32 r in
  ({| algorithm_name := "AES-GCM"; algorithm_length := 256;
      extractable := true; usages := ["encrypt"; "decrypt"]%string;
      key_data := bytes |}, r').

(** [exportKey] *)
Definition exportKey (key : CryptoKey) : result jsstring :=
  let* exported := subtle_exportKey_raw key in
  btoa (fromCharCode exported).

(** [importKey] *)
Definition importKey (keyString : jsstring) : result CryptoKey :=
  let* decoded := atob keyString in
  let keyData := charCodes decoded in
  subtle_importKey_raw keyData.

Definition hex_digits : jsstring := js "0123456789abcdef".

Definition hex_digit (n : N) : u16 := nth (N.to_nat n) hex_digits (ch "0").

(** [n.toString(16)]: the hexadecimal digits of [n], without leading zeros;
    [fuel] bounds the number of digits. *)
Fixpoint hex_digits_of (fuel : nat) (n : N) (acc : jsstring) : jsstring :=
  match fuel with
  | O => acc
  | S fuel' =>
      let acc' := hex_digit (n mod 16) :: acc in
      if n / 16 =? 0 then acc' else hex_digits_of fuel' (n / 16) acc'
  end.

Definition Number_toString16 (n : N) : jsstring :=
  hex_digits_of (S (N.to_nat (N.log2 n))) n [].

(** [s.padStart(len, fill)] for a one-character [fill] *)
Definition padStart (len : nat) (fill : u16) (s : jsstring) : jsstring :=
  repeat fill (len - length s) ++ s.

(** [generateKeyHash] *)
Definition generateKeyHash (keyString : jsstring) : jsstring :=
  let data := TextEncoder_encode keyString in
  let hashArray := SHA256.sha256 data in
  concat (map (fun b => padStart 2 (ch "0") (Number_toString16 (Byte.to_N b)))
              (firstn 4 hashArray)).

Arguments SHA256.sha256 _ : simpl never.
Arguments generateKeyHash _ : simpl never.

(** The result of [encryptText]. *)
Record EncryptedText : Type := {
  encryptedData : jsstring;
  iv : jsstring
}.

(** [encryptText] *)
Definition encryptText `{AesGcm} (text : jsstring) (key : CryptoKey)
    (r : entropy) : result EncryptedText * entropy :=
  let (iv, r') := getRandomValues 12 r in
  let data := TextEncoder_encode text in
  (let* encryptedBuffer := subtle_encrypt iv key data in
   let* encryptedData := btoa (fromCharCode encryptedBuffer) in
   let* iv64 := btoa (fromCharCode iv) in
   ok {| encryptedData := encryptedData; iv := iv64 |},
   r').

(** [decryptText] *)
Definition decryptText `{AesGcm} (encryptedData : jsstring) (key : CryptoKey)
    (iv : jsstring) : result jsstring :=
  let* encryptedBinary := atob encryptedData in
  let encryptedBytes := charCodes encryptedBinary in
  let* ivBinary := atob iv in
  let ivBytes := charCodes ivBinary in
  let* decryptedBuffer := subtle_decrypt ivBytes key encryptedBytes in
  ok (TextDecoder_decode decryptedBuffer).

(** The result of [encryptFile]. *)
Record EncryptedFileData : Type := {
  file_encryptedData : list byte;
  file_iv : list byte
}.

(** [encryptFile]; [file] is the content of the file. *)
Definition encryptFile `{AesGcm} (file : list byte) (key : CryptoKey)
    (r : entropy) : result EncryptedFileData * entropy :=
  let (iv, r') := getRandomValues 12 r in
  let fileData := file in
  (let* encryptedData := subtle_encrypt iv key fileData in
   ok {| file_encryptedData := encryptedData; file_iv := iv |},
   r').

(** [decryptData] *)
Definition decryptData `{AesGcm} (encryptedData : list byte) (key : CryptoKey)
    (iv : list byte) : result (list byte) :=
  subtle_decrypt iv key encryptedData.

(** The key hash under which the key manager files a key: the hash of its
    exported string (see [generateNewKey] and [setKey]). *)
Definition publicIndex (key : CryptoKey) : result jsstring :=
  let* keyString := exportKey key in
  ok (generateKeyHash keyString).

(** The specification's wording of the public index: each of the first four
    bytes of the digest as two lower-case hexadecimal digits. *)
Definition hex_of_bytes (bs : list byte) : jsstring :=
  flat_map (fun b => [hex_digit (Byte.to_N b / 16); hex_digit (Byte.to_N b mod 16)]) bs.

Definition truncated_hex_digest (keyString : jsstring) : jsstring :=
  hex_of_bytes (firstn 4 (SHA256.sha256 (TextEncoder_encode keyString))).

Definition is_lower_hex (c : u16) : bool := existsb (u16_eqb c) hex_digits.

(** ** URLs: [encodeURIComponent], the [hash] setter, [URLSearchParams] *)

Definition upper_hex_digit (n : N) : u16 :=
  nth (N.to_nat n) (js "0123456789ABCDEF") (ch "0").

(** [%XX] for a byte. *)
Definition percent_encode_byte (b : byte) : jsstring :=
  [ch "%"; upper_hex_digit (Byte.to_N b / 16); upper_hex_digit (Byte.to_N b mod 16)].

Definition is_ascii_alphanumeric (c : N) : bool :=
  ((0x30 <=? c) && (c <=? 0x39)) || ((0x41 <=? c) && (c <=? 0x5A))
  || ((0x61 <=? c) && (c <=? 0x7A)).

(** The characters [encodeURIComponent] leaves as they are. *)
Definition is_uri_unreserved (c : N) : bool :=
  is_ascii_alphanumeric c
  || existsb (N.eqb c) [0x2D; 0x5F; 0x2E; 0x21; 0x7E; 0x2A; 0x27; 0x28; 0x29].

(** [encodeURIComponent(s)]: throws on a surrogate outside of a pair. *)
Definition encodeURIComponent (s : jsstring) : result jsstring :=
  if well_formed s then
    ok (flat_map
           (fun c => if is_uri_unreserved c then [u16_of_N c]
                     else flat_map percent_encode_byte (utf8_encode_code_point c))
           (code_points s))
  else throw URIError.

(** The fragment percent-encode set of the URL standard. *)
Definition in_fragment_encode_set (c : N) : bool :=
  (c <=? 0x20) || (0x7E <? c) || existsb (N.eqb c) [0x22; 0x3C; 0x3E; 0x60].

(** [url.hash = value], read back as [location.hash]: the empty string when
    the fragment is empty, else [#] and the fragment as the URL parser keeps
    it (tab and newline removed, the characters of the fragment set
    percent-encoded). *)
Definition url_hash_of (value : jsstring) : jsstring :=
  let input := match value with
               | c :: rest => if u16_eqb c (ch "#") then rest else value
               | [] => []
               end in
  let cps := List.filter (fun c => negb (existsb (N.eqb c) [0x09; 0x0A; 0x0D]))
                         (code_points input) in
  match cps with
  | [] => []
  | _ => ch "#" ::
         flat_map (fun c => if in_fragment_encode_set c
                            then flat_map percent_encode_byte (utf8_encode_code_point c)
                            else [u16_of_N c]) cps
  end.

(** Splitting a byte sequence at every [sep]. *)
Fixpoint split_bytes (sep : byte) (bs : list byte) : list (list byte) :=
  match bs with
  | [] => [[]]
  | b :: rest =>
      match split_bytes sep rest with
      | cur :: others =>
          if Byte.eqb b sep then [] :: cur :: others else (b :: cur) :: others
      | [] => [[b]]
      end
  end.

(** A sequence cut at its first [sep], when it has one. *)
Fixpoint cut_at (sep : byte) (bs : list byte) : option (list byte * list byte) :=
  match bs with
  | [] => None
  | b :: rest =>
      if Byte.eqb b sep then Some ([], rest)
      else match cut_at sep rest with
           | Some (l, r) => Some (b :: l, r)
           | None => None
           end
  end.

Definition hex_value (b : byte) : option N :=
  let c := Byte.to_N b in
  if (0x30 <=? c) && (c <=? 0x39) then Some (c - 0x30)
  else if (0x41 <=? c) && (c <=? 0x46) then Some (c - 0x41 + 10)
  else if (0x61 <=? c) && (c <=? 0x66) then Some (c - 0x61 + 10)
  else None.

(** Percent-decoding of the URL standard: [%] and two hexadecimal digits
    give a byte, everything else stays. *)
Fixpoint percent_decode (bs : list byte) : list byte :=
  match bs with
  | [] => []
  | b :: rest =>
      let keep := b :: percent_decode rest in
      if Byte.eqb b "%" then
        match rest with
        | h :: l :: rest' =>
            match hex_value h, hex_value l with
            | Some x, Some y => byte_of_N (16 * x + y) :: percent_decode rest'
            | _, _ => keep
            end
        | _ => keep
        end
      else keep
  end.

Definition plus_to_space (bs : list byte) : list byte :=
  map (fun b => if Byte.eqb b "+" then " "%byte else b) bs.

(** UTF-8 decode without BOM. *)
Definition utf8_decode_without_bom (bs : list byte) : jsstring :=
  utf16_of_code_points (utf8_decode bs).

(** The [application/x-www-form-urlencoded] parser. *)
Definition urlencoded_parse (input : list byte) : list (jsstring * jsstring) :=
  flat_map
    (fun bytes =>
       match bytes with
       | [] => []
       | _ =>
           let (name, value) :=
             match cut_at "=" bytes with
             | Some (n, v) => (n, v)
             | None => (bytes, [])
             end in
           [(utf8_decode_without_bom (percent_decode (plus_to_space name)),
             utf8_decode_without_bom (percent_decode (plus_to_space value)))]
       end)
    (split_bytes "&" input).

(** [new URLSearchParams(init)] for a string [init]. *)
Definition URLSearchParams (init : jsstring) : list (jsstring * jsstring) :=
  let init := match init with
              | c :: rest => if u16_eqb c (ch "?") then rest else init
              | [] => []
              end in
  urlencoded_parse (TextEncoder_encode init).

(** [params.get(name)]: the value of the first pair with this name. *)
Fixpoint URLSearchParams_get (params : list (jsstring * jsstring))
    (name : jsstring) : option jsstring :=
  match params with
  | [] => None
  | (n, v) :: rest =>
      if jsstring_eqb n name then Some v else URLSearchParams_get rest name
  end.

(** [s.startsWith("#")] *)
Definition starts_with_hash (s : jsstring) : bool :=
  match s with
  | c :: _ => u16_eqb c (ch "#")
  | [] => false
  end.

(** [s.substring(1)] *)
Definition substring1 (s : jsstring) : jsstring := tail s.

(** ** key-manager.ts and stores.ts *)

(** The fields of the [KeyManager] instance. *)
Record KeyManager : Type := {
  key : option CryptoKey;
  keyString : option jsstring;
  keyHash : option jsstring
}.

(** The atoms of stores.ts the key manager writes. *)
Record Stores : Type := {
  encryptionKeyStore : option CryptoKey;
  keyHashStore : option jsstring;
  keyLoadedFromExternal : bool
}.

(** [window.sessionStorage]: the items, and how many code units (name and
    value together) an item may take before [setItem] throws. *)
Record Storage : Type := {
  items : gmap string jsstring;
  quota : nat
}.

(** What the key manager reads and writes of [window]: the URL of the page,
    as the part before the fragment and [location.hash]; the session storage,
    [None] when the page has none; the random source. *)
Record Window : Type := {
  location_base : jsstring;
  location_hash : jsstring;
  sessionStorage : option Storage;
  random : entropy
}.

Record State : Type := {
  manager : KeyManager;
  stores : Stores;
  window : Window
}.

Definition set_manager (f : KeyManager -> KeyManager) (st : State) : State :=
  {| manager := f (manager st); stores := stores st; window := window st |}.
Definition set_stores (f : Stores -> Stores) (st : State) : State :=
  {| manager := manager st; stores := f (stores st); window := window st |}.
Definition set_window (f : Window -> Window) (st : State) : State :=
  {| manager := manager st; stores := stores st; window := f (window st) |}.

Definition set_key (v : option CryptoKey) (m : KeyManager) : KeyManager :=
  {| key := v; keyString := keyString m; keyHash := keyHash m |}.
Definition set_keyString (v : option jsstring) (m : KeyManager) : KeyManager :=
  {| key := key m; keyString := v; keyHash := keyHash m |}.
Definition set_keyHash (v : option jsstring) (m : KeyManager) : KeyManager :=
  {| key := key m; keyString := keyString m; keyHash := v |}.

Definition set_encryptionKeyStore (v : option CryptoKey) (s : Stores) : Stores :=
  {| encryptionKeyStore := v; keyHashStore := keyHashStore s;
     keyLoadedFromExternal := keyLoadedFromExternal s |}.
Definition set_keyHashStore (v : option jsstring) (s : Stores) : Stores :=
  {| encryptionKeyStore := encryptionKeyStore s; keyHashStore := v;
     keyLoadedFromExternal := keyLoadedFromExternal s |}.
Definition set_keyLoadedFromExternal (v : bool) (s : Stores) : Stores :=
  {| encryptionKeyStore := encryptionKeyStore s; keyHashStore := keyHashStore s;
     keyLoadedFromExternal := v |}.

Definition set_location_hash (v : jsstring) (w : Window) : Window :=
  {| location_base := location_base w; location_hash := v;
     sessionStorage := sessionStorage w; random := random w |}.
Definition set_sessionStorage (v : option Storage) (w : Window) : Window :=
  {| location_base := location_base w; location_hash := location_hash w;
     sessionStorage := v; random := random w |}.
Definition set_random (v : entropy) (w : Window) : Window :=
  {| location_base := location_base w; location_hash := location_hash w;
     sessionStorage := sessionStorage w; random := v |}.

(** Code that reads and writes this state and can throw. *)
Definition M (A : Type) : Type := State -> result A * State.

Definition ret {A} (a : A) : M A := fun st => (ok a, st).
Definition bind {A B} (m : M A) (k : A -> M B) : M B :=
  fun st =>
    match m st with
    | (inl e, st') => (inl e, st')
    | (inr a, st') => k a st'
    end.
Definition get : M State := fun st => (ok st, st).
Definition modify (f : State -> State) : M unit := fun st => (ok tt, f st).
Definition lift {A} (r : result A) : M A := fun st => (r, st).

(** [try { m } catch (error) { h error }] *)
Definition try_catch {A} (m : M A) (h : exn -> M A) : M A :=
  fun st =>
    match m st with
    | (inl e, st') => h e st'
    | (inr a, st') => (inr a, st')
    end.

Notation "'do' x <- m ; k" := (bind m (fun x => k))
  (at level 10, x pattern, m at level 100, k at level 200).
Notation "m ;; k" := (bind m (fun _ => k))
  (at level 100, k at level 200, right associativity).

(** A string is truthy when it is not empty. *)
Definition truthy (s : jsstring) : bool :=
  match s with [] => false | _ => true end.

Definition SESSION_STORAGE_KEY : string := "tinybox_encryption_key".

(** [sessionStorage.setItem(name, value)] *)
Definition Storage_setItem (name : string) (value : jsstring) : M unit :=
  fun st =>
    match sessionStorage (window st) with
    | Some storage =>
        if (String.length name + length value <=? quota storage)%nat
        then (ok tt,
              set_window
                (set_sessionStorage
                   (Some {| items := <[name := value]> (items storage);
                            quota := quota storage |})) st)
        else (throw QuotaExceededError, st)
    | None => (throw TypeError, st)
    end.

(** [saveToSessionStorage] *)
Definition saveToSessionStorage : M unit :=
  do st <- get;
  match keyString (manager st), sessionStorage (window st) with
  | Some ks, Some _ =>
      if truthy ks
      then try_catch (Storage_setItem SESSION_STORAGE_KEY ks)
                     (fun _ => ret tt)
      else ret tt
  | _, _ => ret tt
  end.

(** [setKey] *)
Definition setKey (keyString : jsstring) : M unit :=
  do imported <- lift (importKey keyString);
  modify (set_manager (set_key (Some imported)));;
  modify (set_manager (set_keyString (Some keyString)));;
  modify (set_manager (set_keyHash (Some (generateKeyHash keyString))));;
  saveToSessionStorage;;
  do st <- get;
  modify (set_stores (set_encryptionKeyStore (key (manager st))));;
  modify (set_stores (set_keyHashStore (keyHash (manager st)))).

(** [generateNewKey] *)
Definition generateNewKey : M unit :=
  do st <- get;
  let (generated, r) := generateEncryptionKey (random (window st)) in
  modify (set_window (set_random r));;
  do keyString <- lift (exportKey generated);
  setKey keyString.

(** [loadFromSessionStorage] *)
Definition loadFromSessionStorage : M bool :=
  do st <- get;
  match sessionStorage (window st) with
  | None => ret false
  | Some storage =>
      try_catch
        (match items storage !! SESSION_STORAGE_KEY with
         | Some storedKey =>
             if truthy storedKey then
               setKey storedKey;;
               modify (set_stores (set_keyLoadedFromExternal true));;
               ret true
             else ret false
         | None => ret false
         end)
        (fun _ => ret false)
  end.

(** [loadFromUrl] *)
Definition loadFromUrl : M bool :=
  do st <- get;
  let hash := location_hash (window st) in
  if negb (starts_with_hash hash) then ret false
  else
    let hashParams := URLSearchParams (substring1 hash) in
    match URLSearchParams_get hashParams (js "key") with
    | Some keyFromUrl =>
        if truthy keyFromUrl then
          try_catch
            (setKey keyFromUrl;;
             modify (set_stores (set_keyLoadedFromExternal true));;
             modify (set_window (set_location_hash (url_hash_of (js ""))));;
             ret true)
            (fun _ => ret false)
        else ret false
    | None => ret false
    end.

Inductive InitResult : Type := generated | from_url | from_session.

(** [initialize] *)
Definition initialize : M InitResult :=
  do fromUrl <- loadFromUrl;
  if fromUrl then ret from_url
  else
    do fromSession <- loadFromSessionStorage;
    if fromSession then ret from_session
    else generateNewKey;; ret generated.

(** [getShareUrl] *)
Definition getShareUrl (st : State) : result jsstring :=
  match keyString (manager st) with
  | Some ks =>
      if truthy ks then
        let* encoded := encodeURIComponent ks in
        ok (location_base (window st) ++ url_hash_of (js "#key=" ++ encoded))
      else throw (Error "No key available for sharing")
  | None => throw (Error "No key available for sharing")
  end.

(** The listener registered for [hashchange]. *)
Definition hashChangeListener (st : State) : State := (loadFromUrl st).2.

(** The state once the module has been loaded: [new KeyManager()] and the
    initial values of the atoms. *)
Definition initial_state (w : Window) : State :=
  {| manager := {| key := None; keyString := None; keyHash := None |};
     stores := {| encryptionKeyStore := None; keyHashStore := None;
                  keyLoadedFromExternal := false |};
     window := w |}.

(** ** JSON values and file metadata *)

(** The values [JSON.parse] returns, and [undefined] for a missing
    property.  A number is kept as its literal: the code only passes it on. *)
Inductive jsvalue : Type :=
  | JUndefined
  | JNull
  | JBoolean (b : bool)
  | JNumber (literal : jsstring)
  | JString (s : jsstring)
  | JArray (elements : list jsvalue)
  | JObject (properties : list (jsstring * jsvalue)).

(** [JSON.parse(text)] of the platform: a value, or [SyntaxError]. *)
Class Json : Type := {
  JSON_parse : jsstring -> result jsvalue
}.

Fixpoint lookup_property (properties : list (jsstring * jsvalue))
    (name : jsstring) : jsvalue :=
  match properties with
  | [] => JUndefined
  | (n, v) :: rest =>
      if jsstring_eqb n name then v else lookup_property rest name
  end.

(** [value.name] for one of the names [fileName], [fileSize], [uploadDate]:
    reading a property of [null] or [undefined] throws, an object gives the
    property or [undefined], any other value gives [undefined]. *)
Definition get_property (value : jsvalue) (name : jsstring) : result jsvalue :=
  match value with
  | JUndefined | JNull => throw TypeError
  | JObject properties => ok (lookup_property properties name)
  | _ => ok JUndefined
  end.

(** [new Date(value)], kept as the value it was made from. *)
Inductive Date : Type := Date_of (value : jsvalue).

(** The result of [decryptMetadata]. *)
Record FileMetadata : Type := {
  fileName : jsvalue;
  fileSize : jsvalue;
  uploadDate : Date
}.

(** [decryptMetadata] *)
Definition decryptMetadata `{AesGcm} `{Json} (encryptedMetadata : jsstring)
    (key : CryptoKey) (iv : jsstring) : result FileMetadata :=
  let* decryptedText := decryptText encryptedMetadata key iv in
  let* metadata := JSON_parse decryptedText in
  let* name := get_property metadata (js "fileName") in
  let* size := get_property metadata (js "fileSize") in
  let* date := get_property metadata (js "uploadDate") in
  ok {| fileName := name; fileSize := size; uploadDate := Date_of date |}.

(** ** The server: database, upload directory and actions *)

(** A row of the table [EncryptedFile]; [createdAt] in milliseconds. *)
Record EncryptedFile : Type := {
  row_id : jsstring;
  row_encryptedMetadata : jsstring;
  row_metadataIv : jsstring;
  row_fileIv : jsstring;
  row_encryptionKeyHash : jsstring;
  row_createdAt : Z
}.

(** The path [path.join(process.cwd(), "uploads", filename)], kept as its
    last segment. *)
Inductive UploadPath : Type := uploads (filename : jsstring).

(** What a handler asks of the database and of the file system. *)
Inductive Access : Type :=
  | PrismaFindMany (keyHash : jsstring)
  | PrismaFindUnique (fileId : jsstring)
  | FsAccess (path : UploadPath)
  | FsReadFile (path : UploadPath).

(** The server: the table ([None] when the database cannot be reached), the
    files of the upload directory by name, the names of the files that are
    there but that [readFile] fails on, and the accesses made so far, latest
    first. *)
Record Server : Type := {
  database : option (list EncryptedFile);
  upload_dir : list (jsstring * list byte);
  unreadable : list jsstring;
  accesses : list Access
}.

Definition record_access (a : Access) (srv : Server) : Server :=
  {| database := database srv; upload_dir := upload_dir srv;
     unreadable := unreadable srv; accesses := a :: accesses srv |}.

Inductive ActionErrorCode : Type := BAD_REQUEST | NOT_FOUND | INTERNAL_SERVER_ERROR.

(** What a call of an action fails with: the rejection of its input by the
    schema (an [ActionInputError], of code [BAD_REQUEST]) or the
    [ActionError] its handler threw. *)
Inductive ActionFailure : Type :=
  | ActionInputError (issue : string)
  | ActionError (code : ActionErrorCode) (message : string).

(** [defineAction({ accept: "json", input, handler })]: the input is parsed
    by the schema, and the handler runs on the parsed input only. *)
Definition defineAction {I O} (input : jsvalue -> string + I)
    (handler : I -> Server -> (ActionFailure + O) * Server)
    (raw : jsvalue) (srv : Server) : (ActionFailure + O) * Server :=
  match input raw with
  | inl issue => (inl (ActionInputError issue), srv)
  | inr parsed => handler parsed srv
  end.

(** [z.object({ name: check })] for a string property: the raw input is an
    object whose property [name] is a string that passes [check]. *)
Definition z_object_string (name : jsstring) (check : jsstring -> bool)
    (message : string) (raw : jsvalue) : string + jsstring :=
  match raw with
  | JObject properties =>
      match lookup_property properties name with
      | JString s => if check s then inr s else inl message
      | JUndefined => inl "Required"%string
      | _ => inl "Expected string"%string
      end
  | _ => inl "Expected object"%string
  end.

(** The check of [z.string().uuid()]. *)
Class Zod : Type := {
  zod_uuid : jsstring -> bool
}.

(** The rows with this key hash, latest first ([orderBy: { createdAt:
    "desc" }]). *)
Fixpoint insert_desc (row : EncryptedFile) (sorted : list EncryptedFile)
    : list EncryptedFile :=
  match sorted with
  | [] => [row]
  | r :: rest =>
      if (row_createdAt r <? row_createdAt row)%Z
      then row :: r :: rest
      else r :: insert_desc row rest
  end.

Definition order_by_createdAt_desc (rows : list EncryptedFile) : list EncryptedFile :=
  fold_right insert_desc [] rows.

Definition findMany (keyHash : jsstring) (rows : list EncryptedFile)
    : list EncryptedFile :=
  order_by_createdAt_desc
    (List.filter (fun r => jsstring_eqb (row_encryptionKeyHash r) keyHash) rows).

Fixpoint findUnique (fileId : jsstring) (rows : list EncryptedFile)
    : option EncryptedFile :=
  match rows with
  | [] => None
  | r :: rest => if jsstring_eqb (row_id r) fileId then Some r else findUnique fileId rest
  end.

(** An entry of the answer of [list]; [uploadedAt] is [createdAt] as an ISO
    string, kept as the instant it names. *)
Record ListedFile : Type := {
  listed_id : jsstring;
  listed_encryptedMetadata : jsstring;
  listed_metadataIv : jsstring;
  listed_fileIv : jsstring;
  listed_uploadedAt : Z
}.

(** The action [list]. *)
Definition list_action : jsvalue -> Server -> (ActionFailure + list ListedFile) * Server :=
  defineAction
    (z_object_string (js "keyHash") truthy "Key hash is required")
    (fun keyHash srv =>
       let srv := record_access (PrismaFindMany keyHash) srv in
       match database srv with
       | Some rows =>
           let encryptedFiles := findMany keyHash rows in
           let files :=
             map (fun file =>
                    {| listed_id := row_id file;
                       listed_encryptedMetadata := row_encryptedMetadata file;
                       listed_metadataIv := row_metadataIv file;
                       listed_fileIv := row_fileIv file;
                       listed_uploadedAt := row_createdAt file |})
                 encryptedFiles in
           (inr files, srv)
       | None =>
           (inl (ActionError INTERNAL_SERVER_ERROR "Failed to fetch file list"), srv)
       end).

(** The answer of [info]. *)
Record FileRecord : Type := {
  record_id : jsstring;
  record_encryptedMetadata : jsstring;
  record_metadataIv : jsstring;
  record_fileIv : jsstring;
  record_encryptionKeyHash : jsstring;
  record_uploadedAt : Z
}.

(** The action [info]. *)
Definition info_action `{Zod} : jsvalue -> Server -> (ActionFailure + FileRecord) * Server :=
  defineAction
    (z_object_string (js "fileId") zod_uuid "Invalid file ID format")
    (fun fileId srv =>
       let srv := record_access (PrismaFindUnique fileId) srv in
       match database srv with
       | Some rows =>
           match findUnique fileId rows with
           | Some fileInfo =>
               (inr {| record_id := row_id fileInfo;
                       record_encryptedMetadata := row_encryptedMetadata fileInfo;
                       record_metadataIv := row_metadataIv fileInfo;
                       record_fileIv := row_fileIv fileInfo;
                       record_encryptionKeyHash := row_encryptionKeyHash fileInfo;
                       record_uploadedAt := row_createdAt fileInfo |}, srv)
           | None => (inl (ActionError NOT_FOUND "File not found"), srv)
           end
       | None =>
           (inl (ActionError INTERNAL_SERVER_ERROR "Failed to fetch file information"),
            srv)
       end).

(** The answer of [fetch]. *)
Record FileBlob : Type := {
  blob_data : jsstring;
  blob_filename : jsstring
}.

Fixpoint read_upload (filename : jsstring) (dir : list (jsstring * list byte))
    : option (list byte) :=
  match dir with
  | [] => None
  | (n, content) :: rest =>
      if jsstring_eqb n filename then Some content else read_upload filename rest
  end.

(** [fs.promises.readFile(path)] fails on the files that cannot be read. *)
Definition readFile_fails (filename : jsstring) (srv : Server) : bool :=
  existsb (jsstring_eqb filename) (unreadable srv).

(** The action [fetch]: a file that is not there gives NOT_FOUND; any other
    error, which is a failure of [readFile], is caught and gives
    INTERNAL_SERVER_ERROR. *)
Definition fetch_action `{Zod} : jsvalue -> Server -> (ActionFailure + FileBlob) * Server :=
  defineAction
    (z_object_string (js "fileId") zod_uuid "Invalid file ID format")
    (fun fileId srv =>
       let filename := fileId ++ js ".bin" in
       let filePath := uploads filename in
       let srv := record_access (FsAccess filePath) srv in
       match read_upload filename (upload_dir srv) with
       | None => (inl (ActionError NOT_FOUND "File not found"), srv)
       | Some encryptedFile =>
           let srv := record_access (FsReadFile filePath) srv in
           if readFile_fails filename srv then
             (inl (ActionError INTERNAL_SERVER_ERROR "File download failed"), srv)
           else
             let base64Data := base64_encode encryptedFile in
             (inr {| blob_data := base64Data; blob_filename := filename |}, srv)
       end).

(** ** FileUploader.tsx: [loadFiles] *)

(** [FileInfo] of stores.ts. *)
Record FileInfo : Type := {
  info_id : jsstring;
  info_fileName : jsvalue;
  info_fileSize : jsvalue;
  info_uploadDate : Date;
  info_uploadedAt : Z
}.

(** What [loadFiles] writes: the file list shown, and the toasts raised. *)
Record Client : Type := {
  filesStore : list FileInfo;
  toasts : list string
}.

Definition setFiles (files : list FileInfo) (ui : Client) : Client :=
  {| filesStore := files; toasts := toasts ui |}.

Definition toast_error (message : string) (ui : Client) : Client :=
  {| filesStore := filesStore ui; toasts := message :: toasts ui |}.

(** The [for] loop of [loadFiles] over the entries the server listed:
    [decryptedFiles] grows by one entry when the metadata decrypts, and stays
    as it is when [decryptMetadata] throws. *)
Definition loadFiles_loop `{AesGcm} `{Json} (key : CryptoKey)
    (files : list ListedFile) : list FileInfo :=
  fold_left
    (fun decryptedFiles encryptedFile =>
       match decryptMetadata (listed_encryptedMetadata encryptedFile) key
               (listed_metadataIv encryptedFile) with
       | inr decryptedMetadata =>
           decryptedFiles ++
           [{| info_id := listed_id encryptedFile;
               info_fileName := fileName decryptedMetadata;
               info_fileSize := fileSize decryptedMetadata;
               info_uploadDate := uploadDate decryptedMetadata;
               info_uploadedAt := listed_uploadedAt encryptedFile |}]
       | inl _ => decryptedFiles
       end)
    files [].

(** [loadFiles]: [keyHash] is read from [keyHashStore], the key from the key
    manager, the list from the action [list]. *)
Definition loadFiles `{AesGcm} `{Json} (st : State) (srv : Server) (ui : Client)
    : Client * Server :=
  match keyHashStore (stores st) with
  | Some keyHash =>
      if truthy keyHash then
        match list_action (JObject [(js "keyHash", JString keyHash)]) srv with
        | (inr files, srv') =>
            match key (manager st) with
            | Some key => (setFiles (loadFiles_loop key files) ui, srv')
            | None => (setFiles [] ui, srv')
            end
        | (inl _, srv') => (toast_error "Failed to load files" ui, srv')
        end
      else (setFiles [] ui, srv)
  | None => (setFiles [] ui, srv)
  end.

(** ** Notions used to state the properties of [loadFiles] *)

(** What one listed entry contributes to the file list under [key]. *)
Definition decrypted_view `{AesGcm} `{Json} (key : CryptoKey)
    (encryptedFile : ListedFile) : option FileInfo :=
  match decryptMetadata (listed_encryptedMetadata encryptedFile) key
          (listed_metadataIv encryptedFile) with
  | inr decryptedMetadata =>
      Some {| info_id := listed_id encryptedFile;
              info_fileName := fileName decryptedMetadata;
              info_fileSize := fileSize decryptedMetadata;
              info_uploadDate := uploadDate decryptedMetadata;
              info_uploadedAt := listed_uploadedAt encryptedFile |}
  | inl _ => None
  end.

(** Latest first. *)
Definition newest_first {A} (instant : A -> Z) (l : list A) : Prop :=
  StronglySorted (fun a b => (instant b <= instant a)%Z) l.

(** ** Notions used to state the properties of the key manager *)

(** The window after [saveToSessionStorage] for the key string [ks]. *)
Definition persist (ks : jsstring) (w : Window) : Window :=
  match sessionStorage w with
  | Some s =>
      if truthy ks && (String.length SESSION_STORAGE_KEY + length ks <=? quota s)%nat
      then set_sessionStorage
             (Some {| items := <[SESSION_STORAGE_KEY := ks]> (items s);
                      quota := quota s |}) w
      else w
  | None => w
  end.

(** The state after [setKey ks] went through, [k] being the imported key. *)
Definition adopted (k : CryptoKey) (ks : jsstring) (st : State) : State :=
  {| manager := {| key := Some k; keyString := Some ks;
                   keyHash := Some (generateKeyHash ks) |};
     stores := {| encryptionKeyStore := Some k;
                  keyHashStore := Some (generateKeyHash ks);
                  keyLoadedFromExternal := keyLoadedFromExternal (stores st) |};
     window := persist ks (window st) |}.

(** The key string the URL fragment offers: the non-empty value of the
    field [key]. *)
Definition url_key (st : State) : option jsstring :=
  let hash := location_hash (window st) in
  if starts_with_hash hash then
    match URLSearchParams_get (URLSearchParams (substring1 hash)) (js "key") with
    | Some ks => if truthy ks then Some ks else None
    | None => None
    end
  else None.

(** The key string session storage offers. *)
Definition session_key (st : State) : option jsstring :=
  match sessionStorage (window st) with
  | Some s =>
      match items s !! SESSION_STORAGE_KEY with
      | Some ks => if truthy ks then Some ks else None
      | None => None
      end
  | None => None
  end.

(** An offered key string is usable when [importKey] accepts it. *)
Definition usable (offer : option jsstring) : option (jsstring * CryptoKey) :=
  match offer with
  | Some ks => match importKey ks with
               | inr k => Some (ks, k)
               | inl _ => None
               end
  | None => None
  end.

(** The state after the URL fragment gave the key. *)
Definition adopted_from_url (k : CryptoKey) (ks : jsstring) (st : State) : State :=
  set_window (set_location_hash [])
    (set_stores (set_keyLoadedFromExternal true) (adopted k ks st)).

(** The state after session storage gave the key. *)
Definition adopted_from_session (k : CryptoKey) (ks : jsstring) (st : State) : State :=
  set_stores (set_keyLoadedFromExternal true) (adopted k ks st).

(** The state after a fresh key was generated. *)
Definition adopted_generated (st : State) : State :=
  let (k, r) := generateEncryptionKey (random (window st)) in
  adopted k (base64_encode (key_data k)) (set_window (set_random r) st).

(** The fields of the key manager agree with one another and with the
    published stores. *)
Definition consistent (st : State) : Prop :=
  forall k, key (manager st) = Some k ->
    exists ks,
      keyString (manager st) = Some ks /\
      importKey ks = ok k /\
      keyHash (manager st) = Some (generateKeyHash ks) /\
      encryptionKeyStore (stores st) = Some k /\
      keyHashStore (stores st) = Some (generateKeyHash ks).

(** The operations that change the key. *)
Inductive operation : Type :=
  | Initialize
  | SetKey (keyString : jsstring)
  | GenerateNewKey
  | HashChange.

Definition run (op : operation) (st : State) : State :=
  match op with
  | Initialize => (initialize st).2
  | SetKey ks => (setKey ks st).2
  | GenerateNewKey => (generateNewKey st).2
  | HashChange => hashChangeListener st
  end.

(** The states a session goes through: the module is loaded, then the
    operations run, and between them the page may change (the user edits
    the fragment, storage is cleared, ...). *)
Inductive reachable : State -> Prop :=
  | reachable_initial (w : Window) : reachable (initial_state w)
  | reachable_run (op : operation) (st : State) :
      reachable st -> reachable (run op st)
  | reachable_page (w : Window) (st : State) :
      reachable st -> reachable (set_window (fun _ => w) st).

(** Either no key is held, or a key is held with the string it was imported
    from. *)
Definition keyed (st : State) : Prop :=
  (key (manager st) = None /\ keyString (manager st) = None) \/
  (exists k ks, key (manager st) = Some k /\ keyString (manager st) = Some ks /\
                importKey ks = ok k).

(** Characters below U+0080. *)
Definition is_ascii (c : u16) : bool :=
  Byte.eqb (hi c) x00 && (Byte.to_N (lo c) <? 128).

(** What [encodeURIComponent] writes for an ASCII character. *)
Definition encode_ascii (c : u16) : jsstring :=
  if is_uri_unreserved (u16_to_N c) then [c] else percent_encode_byte (lo c).

(** The characters of the output of [encodeURIComponent]. *)
Definition is_uri_safe (c : u16) : bool :=
  is_ascii c && (is_uri_unreserved (u16_to_N c) || u16_eqb c (ch "%")).

(** The characters the [hash] setter keeps as they are. *)
Definition is_fragment_stable (c : u16) : bool :=
  is_ascii c && negb (in_fragment_encode_set (u16_to_N c)).

(** ** Concrete inputs for the examples *)

Definition demo_entropy : entropy :=
  Entropy (fun i => byte_of_N (N.of_nat (7 * i + 3))) 0.

(** A page without fragment whose session storage takes nothing (quota 0,
    as in a private window that refuses every write). *)
Definition refusing_window : Window :=
  {| location_base := js "https://tinybox.example/";
     location_hash := [];
     sessionStorage := Some {| items := ∅; quota := 0 |};
     random := demo_entropy |}.

(** A page opened through a link whose key is written without the final
    [=] of base64. *)
Definition unpadded_link_window : Window :=
  {| location_base := js "https://tinybox.example/";
     location_hash := js "#key=AAAAAAAAAAAAAAAAAAAAAAAAAAAAAAAAAAAAAAAAAAA";
     sessionStorage := None;
     random := demo_entropy |}.

(** The key the examples use: generated from [demo_entropy]. *)
Definition demo_key : CryptoKey := (generateEncryptionKey demo_entropy).1.

(** A second key, generated after the first. *)
Definition other_key : CryptoKey :=
  (generateEncryptionKey (generateEncryptionKey demo_entropy).2).1.

(** A page opened through a share link, with a session storage that has
    room. *)
Definition share_link_window : Window :=
  {| location_base := js "https://tinybox.example/";
     location_hash := js "#key=AwoRGB8mLTQ7QklQV15lbHN6gYiPlp2kq7K5wMfO1dw%3D";
     sessionStorage := Some {| items := ∅; quota := 1000 |};
     random := demo_entropy |}.

(** ** A stand-in for AES-GCM

    The properties below hold for every implementation of [AesGcm] with the
    stated laws.  To run the embedding on concrete inputs, this cipher is
    used in place of AES-GCM: the ciphertext is the payload, each byte moved
    by the matching nonce byte, behind the key as its tag. *)
Module StandIn.

Definition byte_add (a b : byte) : byte :=
  byte_of_N (Byte.to_N a + Byte.to_N b).
Definition byte_sub (a b : byte) : byte :=
  byte_of_N (256 + Byte.to_N a - Byte.to_N b).

Fixpoint mask (op : byte -> byte -> byte) (nonce data : list byte) : list byte :=
  match data, nonce with
  | d :: data', n :: nonce' => op d n :: mask op nonce' data'
  | _, _ => data
  end.

Fixpoint bytes_eqb (a b : list byte) : bool :=
  match a, b with
  | [], [] => true
  | x :: a', y :: b' => Byte.eqb x y && bytes_eqb a' b'
  | _, _ => false
  end.

Definition encrypt (key nonce data : list byte) : list byte :=
  key ++ mask byte_add nonce data.

Definition decrypt (key nonce cipher : list byte) : option (list byte) :=
  if bytes_eqb (firstn (length key) cipher) key
  then Some (mask byte_sub nonce (skipn (length key) cipher))
  else None.

Definition cipher : AesGcm :=
  {| aes_gcm_encrypt := encrypt; aes_gcm_decrypt := decrypt |}.

(** In place of [JSON.parse]: objects whose members are strings without
    escapes, written without white space.  Anything else is a
    [SyntaxError]. *)
Definition quote : u16 := ch x22.

Fixpoint read_string (s : jsstring) : option (jsstring * jsstring) :=
  match s with
  | [] => None
  | c :: rest =>
      if u16_eqb c quote then Some ([], rest)
      else if u16_eqb c (ch "\") then None
      else match read_string rest with
           | Some (str, rest') => Some (c :: str, rest')
           | None => None
           end
  end.

Fixpoint read_members (fuel : nat) (s : jsstring)
    : option (list (jsstring * jsvalue)) :=
  match fuel, s with
  | S fuel', q :: s1 =>
      if u16_eqb q quote then
        match read_string s1 with
        | Some (name, colon :: q2 :: s2) =>
            if u16_eqb colon (ch ":") && u16_eqb q2 quote then
              match read_string s2 with
              | Some (value, [close]) =>
                  if u16_eqb close (ch "}") then Some [(name, JString value)]
                  else None
              | Some (value, comma :: s3) =>
                  if u16_eqb comma (ch ",") then
                    match read_members fuel' s3 with
                    | Some members => Some ((name, JString value) :: members)
                    | None => None
                    end
                  else None
              | _ => None
              end
            else None
        | _ => None
        end
      else None
  | _, _ => None
  end.

Definition parse (text : jsstring) : result jsvalue :=
  match text with
  | [open; close] =>
      if u16_eqb open (ch "{") && u16_eqb close (ch "}") then ok (JObject [])
      else throw SyntaxError
  | open :: members =>
      if u16_eqb open (ch "{") then
        match read_members (length members) members with
        | Some properties => ok (JObject properties)
        | None => throw SyntaxError
        end
      else throw SyntaxError
  | [] => throw SyntaxError
  end.

Definition json : Json := {| JSON_parse := parse |}.

(** In place of the check of [z.string().uuid()]: groups of 8, 4, 4, 4 and
    12 hexadecimal digits with [-] between them. *)
Definition is_hex (c : u16) : bool :=
  existsb (u16_eqb c) (js "0123456789abcdefABCDEF").

Fixpoint hex_run (n : nat) (s : jsstring) : option jsstring :=
  match n, s with
  | O, _ => Some s
  | S n', c :: rest => if is_hex c then hex_run n' rest else None
  | S _, [] => None
  end.

Fixpoint hex_groups (groups : list nat) (s : jsstring) : bool :=
  match groups with
  | [] => false
  | [g] => match hex_run g s with Some [] => true | _ => false end
  | g :: groups' =>
      match hex_run g s with
      | Some (c :: rest) => u16_eqb c (ch "-") && hex_groups groups' rest
      | _ => false
      end
  end.

Definition uuid_shape (s : jsstring) : bool :=
  hex_groups [8; 4; 4; 4; 12]%nat s.

Definition zod : Zod := {| zod_uuid := uuid_shape |}.

End StandIn.

(** ** Entries for the examples of [loadFiles] *)

(** The metadata text of the examples: an object with the member
    [fileName]. *)
Definition demo_metadata (name : string) : jsstring :=
  js "{" ++ [StandIn.quote] ++ js "fileName" ++ [StandIn.quote] ++ js ":"
  ++ [StandIn.quote] ++ js name ++ [StandIn.quote] ++ js "}".

(** The entry the server lists for a file uploaded under [key]. *)
Definition demo_entry (id name : string) (uploadedAt : Z) (key : CryptoKey)
    (r : entropy) : ListedFile :=
  match (encryptText (H := StandIn.cipher) (demo_metadata name) key r).1 with
  | inr enc =>
      {| listed_id := js id;
         listed_encryptedMetadata := encryptedData enc;
         listed_metadataIv := iv enc;
         listed_fileIv := js "";
         listed_uploadedAt := uploadedAt |}
  | inl _ =>
      {| listed_id := js id; listed_encryptedMetadata := js "";
         listed_metadataIv := js ""; listed_fileIv := js "";
         listed_uploadedAt := uploadedAt |}
  end.

Definition mine_newer : ListedFile :=
  demo_entry "11111111-1111-4111-8111-111111111111" "a.txt" 30 demo_key demo_entropy.
Definition theirs : ListedFile :=
  demo_entry "22222222-2222-4222-8222-222222222222" "b.txt" 20 other_key demo_entropy.
Definition mine_older : ListedFile :=
  demo_entry "33333333-3333-4333-8333-333333333333" "c.txt" 10 demo_key demo_entropy.

(** ** key-manager.ts, stores.ts and crypto.ts: accessors and further notions *)

(** [getKey] *)
Definition getKey (st : State) : option CryptoKey := key (manager st).

(** [getKeyHash] *)
Definition getKeyHash (st : State) : option jsstring := keyHash (manager st).

(** [keyReadyStore] of stores.ts: [computed(keyHashStore, (keyHash) =>
    !!keyHash)]. *)
Definition keyReadyStore (s : Stores) : bool :=
  match keyHashStore s with
  | Some keyHash => truthy keyHash
  | None => false
  end.

(** The key material [importKey] accepts: 128, 192 or 256 bits. *)
Definition aes_key_length (n : nat) : bool :=
  (n =? 16)%nat || (n =? 24)%nat || (n =? 32)%nat.

(** The key [importKey] makes of key material. *)
Definition raw_aes_key (keyData : list byte) : CryptoKey :=
  {| algorithm_name := "AES-GCM";
     algorithm_length := 8 * N.of_nat (length keyData);
     extractable := true; usages := ["encrypt"; "decrypt"]%string;
     key_data := keyData |}.

(** The published atoms mirror the fields of the key manager. *)
Definition mirrored (st : State) : Prop :=
  encryptionKeyStore (stores st) = key (manager st) /\
  keyHashStore (stores st) = keyHash (manager st) /\
  (key (manager st) = None -> keyHash (manager st) = None).

(** ** The actions [list] and [info]: what they answer for a row *)

(** The entry [list] answers for a row. *)
Definition listed_of_row (file : EncryptedFile) : ListedFile :=
  {| listed_id := row_id file;
     listed_encryptedMetadata := row_encryptedMetadata file;
     listed_metadataIv := row_metadataIv file;
     listed_fileIv := row_fileIv file;
     listed_uploadedAt := row_createdAt file |}.

(** The record [info] answers for a row. *)
Definition record_of_row (fileInfo : EncryptedFile) : FileRecord :=
  {| record_id := row_id fileInfo;
     record_encryptedMetadata := row_encryptedMetadata fileInfo;
     record_metadataIv := row_metadataIv fileInfo;
     record_fileIv := row_fileIv fileInfo;
     record_encryptionKeyHash := row_encryptionKeyHash fileInfo;
     record_uploadedAt := row_createdAt fileInfo |}.

(** ** [JSON.stringify] of the metadata, [Date.prototype.toISOString] *)

Definition quotation_mark : u16 := ch x22.
Definition reverse_solidus : u16 := ch "\".

(** UnicodeEscape of ECMAScript: [\u] and four lower-case hexadecimal
    digits. *)
Definition unicode_escape (c : u16) : jsstring :=
  js "\u" ++ [hex_digit (Byte.to_N (hi c) / 16); hex_digit (Byte.to_N (hi c) mod 16);
              hex_digit (Byte.to_N (lo c) / 16); hex_digit (Byte.to_N (lo c) mod 16)].

(** What QuoteJSONString writes for a code unit that is not a surrogate. *)
Definition quote_code_unit (c : u16) : jsstring :=
  let n := u16_to_N c in
  if n =? 0x08 then js "\b"
  else if n =? 0x09 then js "\t"
  else if n =? 0x0A then js "\n"
  else if n =? 0x0C then js "\f"
  else if n =? 0x0D then js "\r"
  else if n =? 0x22 then [reverse_solidus; quotation_mark]
  else if n =? 0x5C then [reverse_solidus; reverse_solidus]
  else if n <? 0x20 then unicode_escape c
  else [c].

(** The code points of the string one after the other: a surrogate pair is
    kept, a surrogate outside of a pair is escaped. *)
Fixpoint quote_code_points (s : jsstring) : jsstring :=
  match s with
  | [] => []
  | c :: rest =>
      if is_lead_surrogate (u16_to_N c) then
        match rest with
        | d :: rest' =>
            if is_trail_surrogate (u16_to_N d)
            then c :: d :: quote_code_points rest'
            else unicode_escape c ++ quote_code_points rest
        | [] => unicode_escape c
        end
      else if is_trail_surrogate (u16_to_N c)
      then unicode_escape c ++ quote_code_points rest
      else quote_code_unit c ++ quote_code_points rest
  end.

(** QuoteJSONString of ECMAScript: [JSON.stringify] of a string. *)
Definition QuoteJSONString (value : jsstring) : jsstring :=
  quotation_mark :: quote_code_points value ++ [quotation_mark].

(** The decimal digits of [n], without leading zeros; [fuel] bounds the
    number of digits. *)
Fixpoint decimal_digits_of (fuel : nat) (n : N) (acc : jsstring) : jsstring :=
  match fuel with
  | O => acc
  | S fuel' =>
      let acc' := hex_digit (n mod 10) :: acc in
      if n / 10 =? 0 then acc' else decimal_digits_of fuel' (n / 10) acc'
  end.

(** [String(n)] for a non-negative integer below 2^53, where a number is
    exact. *)
Definition Number_toString10 (n : N) : jsstring :=
  decimal_digits_of (S (N.to_nat (N.log2 n))) n [].

(** [JSON.stringify({ fileName, fileSize, uploadDate })] for a string, a
    non-negative integer below 2^53 and a string. *)
Definition JSON_stringify_metadata (fileName : jsstring) (fileSize : N)
    (uploadDate : jsstring) : jsstring :=
  js "{" ++ QuoteJSONString (js "fileName") ++ js ":" ++ QuoteJSONString fileName
  ++ js "," ++ QuoteJSONString (js "fileSize") ++ js ":" ++ Number_toString10 fileSize
  ++ js "," ++ QuoteJSONString (js "uploadDate") ++ js ":" ++ QuoteJSONString uploadDate
  ++ js "}".

(** Dates are time values: milliseconds since 1970-01-01T00:00:00Z.  The
    functions below are the ones of ECMAScript (Day, DayFromYear,
    YearFromTime, MonthFromTime, DateFromTime, ...). *)
Definition msPerDay : Z := 86400000.

Definition Day (t : Z) : Z := (t / msPerDay)%Z.
Definition TimeWithinDay (t : Z) : Z := (t mod msPerDay)%Z.

Definition DayFromYear (y : Z) : Z :=
  (365 * (y - 1970) + (y - 1969) / 4 - (y - 1901) / 100 + (y - 1601) / 400)%Z.

Definition InLeapYear (y : Z) : Z :=
  if negb (y mod 4 =? 0)%Z then 0%Z
  else if negb (y mod 100 =? 0)%Z then 1%Z
  else if negb (y mod 400 =? 0)%Z then 0%Z
  else 1%Z.

(** The largest year that starts on or before the day of [t]: one of the
    three years around the quotient by the mean length of a year. *)
Definition YearFromTime (t : Z) : Z :=
  let d := Day t in
  let y := (1970 + d * 400 / 146097)%Z in
  if (DayFromYear (y + 1) <=? d)%Z then (y + 1)%Z
  else if (DayFromYear y <=? d)%Z then y
  else (y - 1)%Z.

Definition DayWithinYear (t : Z) : Z := (Day t - DayFromYear (YearFromTime t))%Z.

(** The day of the year each month starts on. *)
Definition month_starts (leap : Z) : list Z :=
  [0; 31; 59 + leap; 90 + leap; 120 + leap; 151 + leap; 181 + leap;
   212 + leap; 243 + leap; 273 + leap; 304 + leap; 334 + leap]%Z.

(** Months count from 0. *)
Definition MonthFromTime (t : Z) : Z :=
  let d := DayWithinYear t in
  Z.of_nat
    (length (List.filter (fun start => (start <=? d)%Z)
               (month_starts (InLeapYear (YearFromTime t)))))
  - 1.

Definition DateFromTime (t : Z) : Z :=
  (DayWithinYear t
   - nth (Z.to_nat (MonthFromTime t)) (month_starts (InLeapYear (YearFromTime t))) 0
   + 1)%Z.

Definition HourFromTime (t : Z) : Z := ((t / 3600000) mod 24)%Z.
Definition MinFromTime (t : Z) : Z := ((t / 60000) mod 60)%Z.
Definition SecFromTime (t : Z) : Z := ((t / 1000) mod 60)%Z.
Definition msFromTime (t : Z) : Z := (t mod 1000)%Z.

(** A non-negative number in decimal, with zeros in front up to [width]
    digits. *)
Definition padded (width : nat) (n : Z) : jsstring :=
  padStart width (ch "0") (Number_toString10 (Z.to_N n)).

(** [date.toISOString()] for a valid date: four digits for the years 0 to
    9999, a sign and six digits for the others. *)
Definition Date_toISOString (t : Z) : jsstring :=
  let y := YearFromTime t in
  (if (0 <=? y)%Z && (y <=? 9999)%Z then padded 4 y
   else (if (y <? 0)%Z then js "-" else js "+") ++ padded 6 (Z.abs y))
  ++ js "-" ++ padded 2 (MonthFromTime t + 1) ++ js "-" ++ padded 2 (DateFromTime t)
  ++ js "T" ++ padded 2 (HourFromTime t) ++ js ":" ++ padded 2 (MinFromTime t)
  ++ js ":" ++ padded 2 (SecFromTime t) ++ js "." ++ padded 3 (msFromTime t)
  ++ js "Z".

(** ** FileUploader.tsx: [encryptMetadata] *)

(** The result of [encryptMetadata]. *)
Record EncryptedMetadata : Type := {
  metadata_encryptedMetadata : jsstring;
  metadata_iv : jsstring
}.

(** [encryptMetadata]; [fileSize] is the size of a file, a non-negative
    integer, and [uploadDate] a valid date. *)
Definition encryptMetadata `{AesGcm} (fileName : jsstring) (fileSize : N)
    (uploadDate : Z) (key : CryptoKey) (r : entropy)
    : result EncryptedMetadata * entropy :=
  let metadata :=
    JSON_stringify_metadata fileName fileSize (Date_toISOString uploadDate) in
  let (encrypted, r') := encryptText metadata key r in
  (let* result := encrypted in
   ok {| metadata_encryptedMetadata := encryptedData result;
         metadata_iv := iv result |},
   r').

(** ** The server: [store] *)

(** [v4()] of the uuid package: 16 random bytes, the version and the
    variant written into bytes 6 and 8, as groups of 8, 4, 4, 4 and 12
    lower-case hexadecimal digits. *)
Definition uuid_stringify (arr : list byte) : jsstring :=
  hex_of_bytes (firstn 4 arr) ++ js "-"
  ++ hex_of_bytes (firstn 2 (skipn 4 arr)) ++ js "-"
  ++ hex_of_bytes (firstn 2 (skipn 6 arr)) ++ js "-"
  ++ hex_of_bytes (firstn 2 (skipn 8 arr)) ++ js "-"
  ++ hex_of_bytes (firstn 6 (skipn 10 arr)).

Definition uuidv4 (r : entropy) : jsstring * entropy :=
  let (rnds, r') := getRandomValues 16 r in
  let rnds :=
    alter (fun b => byte_of_N (N.lor (N.land (Byte.to_N b) 0x0f) 0x40)) 6%nat rnds in
  let rnds :=
    alter (fun b => byte_of_N (N.lor (N.land (Byte.to_N b) 0x3f) 0x80)) 8%nat rnds in
  (uuid_stringify rnds, r').

(** A clock: the instants it shows, one reading after the other. *)
Record Clock : Type := { instants : nat -> Z; readings : nat }.

Definition read_clock (c : Clock) : Z * Clock :=
  (instants c (readings c), {| instants := instants c; readings := S (readings c) |}).

(** The server with what [store] needs beside the table and the upload
    directory: the random source of [uuidv4], the clock of the database,
    the error of the file system when the upload directory cannot be
    written, and the message of the error the database client throws when an
    insert fails. *)
Record Host : Type := {
  server : Server;
  uuid_random : entropy;
  database_clock : Clock;
  fs_error : option string;
  prisma_error : string
}.

Definition set_server (f : Server -> Server) (h : Host) : Host :=
  {| server := f (server h); uuid_random := uuid_random h;
     database_clock := database_clock h; fs_error := fs_error h;
     prisma_error := prisma_error h |}.
Definition set_uuid_random (r : entropy) (h : Host) : Host :=
  {| server := server h; uuid_random := r;
     database_clock := database_clock h; fs_error := fs_error h;
     prisma_error := prisma_error h |}.
Definition set_database_clock (c : Clock) (h : Host) : Host :=
  {| server := server h; uuid_random := uuid_random h;
     database_clock := c; fs_error := fs_error h;
     prisma_error := prisma_error h |}.

Definition set_database (rows : option (list EncryptedFile)) (srv : Server) : Server :=
  {| database := rows; upload_dir := upload_dir srv;
     unreadable := unreadable srv; accesses := accesses srv |}.
Definition set_upload_dir (dir : list (jsstring * list byte)) (srv : Server) : Server :=
  {| database := database srv; upload_dir := dir;
     unreadable := unreadable srv; accesses := accesses srv |}.
Definition set_unreadable (names : list jsstring) (srv : Server) : Server :=
  {| database := database srv; upload_dir := upload_dir srv;
     unreadable := names; accesses := accesses srv |}.

(** The upload directory after a file was written: the file is created, or
    replaced when there is one of this name. *)
Definition write_upload (filename : jsstring) (content : list byte)
    (dir : list (jsstring * list byte)) : list (jsstring * list byte) :=
  (filename, content)
  :: List.filter (fun entry => negb (jsstring_eqb entry.1 filename)) dir.

(** [fs.promises.writeFile(path, buffer)].  The file system is taken to hand
    back what it has stored: [readFile] succeeds on the file just written,
    also when it replaces one that could not be read. *)
Definition writeFile (filename : jsstring) (buffer : list byte) (srv : Server)
    : Server :=
  set_unreadable
    (List.filter (fun name => negb (jsstring_eqb name filename)) (unreadable srv))
    (set_upload_dir (write_upload filename buffer (upload_dir srv)) srv).

(** [prisma.encryptedFile.create({ data })]: the row is added, with the
    instant of the database as [createdAt]; it fails when the database
    cannot be reached or has a row of this id. *)
Definition prisma_create (id encryptedMetadata metadataIv fileIv encryptionKeyHash : jsstring)
    (h : Host) : (string + EncryptedFile) * Host :=
  match database (server h) with
  | None => (inl (prisma_error h), h)
  | Some rows =>
      match findUnique id rows with
      | Some _ => (inl (prisma_error h), h)
      | None =>
          let (now, clock) := read_clock (database_clock h) in
          let created :=
            {| row_id := id;
               row_encryptedMetadata := encryptedMetadata;
               row_metadataIv := metadataIv;
               row_fileIv := fileIv;
               row_encryptionKeyHash := encryptionKeyHash;
               row_createdAt := now |} in
          (inr created,
           set_database_clock clock
             (set_server (set_database (Some (rows ++ [created]))) h))
      end
  end.

(** A value of a [FormData]: a string or a file. *)
Inductive FormValue : Type :=
  | FormString (value : jsstring)
  | FormFile (content : list byte).

Definition FormData : Type := list (jsstring * FormValue).

(** [formData.get(name)] *)
Fixpoint FormData_get (formData : FormData) (name : jsstring) : option FormValue :=
  match formData with
  | [] => None
  | (n, v) :: rest =>
      if jsstring_eqb n name then Some v else FormData_get rest name
  end.

(** What an action that accepts a form hands to the schema for a field:
    [formData.get(name)], with [null] in place of a value that is missing or
    falsy, which for a form value is the empty string. *)
Inductive FormField : Type :=
  | FieldNull
  | FieldString (value : jsstring)
  | FieldFile (content : list byte).

Definition handleFormDataGet (formData : FormData) (name : jsstring) : FormField :=
  match FormData_get formData name with
  | Some (FormString value) => if truthy value then FieldString value else FieldNull
  | Some (FormFile content) => FieldFile content
  | None => FieldNull
  end.

(** [z.instanceof(File)] *)
Definition z_instanceof_File (field : FormField) : string + list byte :=
  match field with
  | FieldFile content => inr content
  | _ => inl "Input not instance of File"%string
  end.

(** [z.string().min(1, message)] *)
Definition z_string_min1 (message : string) (field : FormField) : string + jsstring :=
  match field with
  | FieldString value => if truthy value then inr value else inl message
  | FieldNull => inl "Expected string, received null"%string
  | FieldFile _ => inl "Expected string, received object"%string
  end.

(** The two checks on a field of the form. *)
Definition z_form_file (formData : FormData) (name : jsstring) : string + list byte :=
  z_instanceof_File (handleFormDataGet formData name).
Definition z_form_string (formData : FormData) (name : jsstring) (message : string)
    : string + jsstring :=
  z_string_min1 message (handleFormDataGet formData name).

(** The parsed input of [store]. *)
Record StoreInput : Type := {
  input_encryptedFile : list byte;
  input_encryptedMetadata : jsstring;
  input_metadataIv : jsstring;
  input_fileIv : jsstring;
  input_keyHash : jsstring
}.

(** The schema of [store]; the first issue is reported. *)
Definition store_schema (formData : FormData) : string + StoreInput :=
  match z_form_file formData (js "encryptedFile") with
  | inl issue => inl issue
  | inr encryptedFile =>
  match z_form_string formData (js "encryptedMetadata")
          "Encrypted metadata is required" with
  | inl issue => inl issue
  | inr encryptedMetadata =>
  match z_form_string formData (js "metadataIv") "Metadata IV is required" with
  | inl issue => inl issue
  | inr metadataIv =>
  match z_form_string formData (js "fileIv") "File IV is required" with
  | inl issue => inl issue
  | inr fileIv =>
  match z_form_string formData (js "keyHash") "Key hash is required" with
  | inl issue => inl issue
  | inr keyHash =>
      inr {| input_encryptedFile := encryptedFile;
             input_encryptedMetadata := encryptedMetadata;
             input_metadataIv := metadataIv;
             input_fileIv := fileIv;
             input_keyHash := keyHash |}
  end end end end end.

(** The answer of [store]. *)
Record StoreOutput : Type := {
  store_success : bool;
  store_message : string;
  store_fileId : jsstring
}.

(** [defineAction({ accept: "form", input, handler })] *)
Definition defineFormAction {I O} (input : FormData -> string + I)
    (handler : I -> Host -> (ActionFailure + O) * Host)
    (formData : FormData) (h : Host) : (ActionFailure + O) * Host :=
  match input formData with
  | inl issue => (inl (ActionInputError issue), h)
  | inr parsed => handler parsed h
  end.

(** The handler of [store]. *)
Definition store_handler (input : StoreInput) (h : Host)
    : (ActionFailure + StoreOutput) * Host :=
  if (length (input_encryptedFile input) =? 0)%nat then
    (inl (ActionError BAD_REQUEST "Invalid file provided"), h)
  else
    let (fileId, r) := uuidv4 (uuid_random h) in
    let h := set_uuid_random r h in
    let filename := fileId ++ js ".bin" in
    match fs_error h with
    | Some message => (inl (ActionError INTERNAL_SERVER_ERROR message), h)
    | None =>
        let buffer := input_encryptedFile input in
        let h := set_server (writeFile filename buffer) h in
        match prisma_create fileId (input_encryptedMetadata input)
                (input_metadataIv input) (input_fileIv input)
                (input_keyHash input) h with
        | (inr encryptedFileRecord, h) =>
            (inr {| store_success := true;
                    store_message := "File uploaded successfully";
                    store_fileId := row_id encryptedFileRecord |}, h)
        | (inl message, h) =>
            (inl (ActionError INTERNAL_SERVER_ERROR message), h)
        end
    end.

(** The action [store]. *)
Definition store_action : FormData -> Host -> (ActionFailure + StoreOutput) * Host :=
  defineFormAction store_schema store_handler.

(** An action that reads, run on the host. *)
Definition on_server {A} (action : Server -> A * Server) (h : Host) : A * Host :=
  let (answer, srv) := action (server h) in
  (answer, set_server (fun _ => srv) h).

(** ** FileUploader.tsx and ShareLink.tsx: the handlers *)

(** A file the user selected: its name and its content; its size is the
    length of the content. *)
Record File : Type := {
  file_name : jsstring;
  file_content : list byte
}.

Definition file_size (file : File) : N := N.of_nat (length (file_content file)).

(** The state of the component [ShareLink]. *)
Record ShareLink : Type := {
  linkSaved : bool;
  showQR : bool
}.

(** What a download hands to the browser: the name and the content. *)
Record Download : Type := {
  download_name : jsvalue;
  download_content : list byte
}.

(** What the components read and write beside the key manager: the file
    list and the error toasts (as in [loadFiles]), the success toasts, the
    other atoms of stores.ts, the state of [ShareLink], the clipboard
    ([None] in [clipboard_text] when nothing was written; writing is refused
    when [clipboard_granted] is false), the downloads started, the timers
    set by [handleDownload], and the clock [new Date()] reads. *)
Record Page : Type := {
  ui : Client;
  successes : list string;
  uploadingStore : bool;
  selectedFilesStore : list File;
  uploadProgressStore : list (jsstring * N);
  hasUploadedFilesStore : bool;
  shareLink : ShareLink;
  clipboard_text : option jsstring;
  clipboard_granted : bool;
  downloads : list Download;
  timers : list jsstring;
  page_clock : Clock
}.

Definition set_ui (f : Client -> Client) (p : Page) : Page :=
  {| ui := f (ui p); successes := successes p; uploadingStore := uploadingStore p;
     selectedFilesStore := selectedFilesStore p;
     uploadProgressStore := uploadProgressStore p;
     hasUploadedFilesStore := hasUploadedFilesStore p; shareLink := shareLink p;
     clipboard_text := clipboard_text p; clipboard_granted := clipboard_granted p;
     downloads := downloads p; timers := timers p; page_clock := page_clock p |}.
Definition set_successes (f : list string -> list string) (p : Page) : Page :=
  {| ui := ui p; successes := f (successes p); uploadingStore := uploadingStore p;
     selectedFilesStore := selectedFilesStore p;
     uploadProgressStore := uploadProgressStore p;
     hasUploadedFilesStore := hasUploadedFilesStore p; shareLink := shareLink p;
     clipboard_text := clipboard_text p; clipboard_granted := clipboard_granted p;
     downloads := downloads p; timers := timers p; page_clock := page_clock p |}.
Definition set_uploadingStore (v : bool) (p : Page) : Page :=
  {| ui := ui p; successes := successes p; uploadingStore := v;
     selectedFilesStore := selectedFilesStore p;
     uploadProgressStore := uploadProgressStore p;
     hasUploadedFilesStore := hasUploadedFilesStore p; shareLink := shareLink p;
     clipboard_text := clipboard_text p; clipboard_granted := clipboard_granted p;
     downloads := downloads p; timers := timers p; page_clock := page_clock p |}.
Definition set_selectedFilesStore (v : list File) (p : Page) : Page :=
  {| ui := ui p; successes := successes p; uploadingStore := uploadingStore p;
     selectedFilesStore := v;
     uploadProgressStore := uploadProgressStore p;
     hasUploadedFilesStore := hasUploadedFilesStore p; shareLink := shareLink p;
     clipboard_text := clipboard_text p; clipboard_granted := clipboard_granted p;
     downloads := downloads p; timers := timers p; page_clock := page_clock p |}.
Definition set_uploadProgressStore (f : list (jsstring * N) -> list (jsstring * N))
    (p : Page) : Page :=
  {| ui := ui p; successes := successes p; uploadingStore := uploadingStore p;
     selectedFilesStore := selectedFilesStore p;
     uploadProgressStore := f (uploadProgressStore p);
     hasUploadedFilesStore := hasUploadedFilesStore p; shareLink := shareLink p;
     clipboard_text := clipboard_text p; clipboard_granted := clipboard_granted p;
     downloads := downloads p; timers := timers p; page_clock := page_clock p |}.
Definition set_hasUploadedFilesStore (v : bool) (p : Page) : Page :=
  {| ui := ui p; successes := successes p; uploadingStore := uploadingStore p;
     selectedFilesStore := selectedFilesStore p;
     uploadProgressStore := uploadProgressStore p;
     hasUploadedFilesStore := v; shareLink := shareLink p;
     clipboard_text := clipboard_text p; clipboard_granted := clipboard_granted p;
     downloads := downloads p; timers := timers p; page_clock := page_clock p |}.
Definition set_shareLink (f : ShareLink -> ShareLink) (p : Page) : Page :=
  {| ui := ui p; successes := successes p; uploadingStore := uploadingStore p;
     selectedFilesStore := selectedFilesStore p;
     uploadProgressStore := uploadProgressStore p;
     hasUploadedFilesStore := hasUploadedFilesStore p; shareLink := f (shareLink p);
     clipboard_text := clipboard_text p; clipboard_granted := clipboard_granted p;
     downloads := downloads p; timers := timers p; page_clock := page_clock p |}.
Definition set_clipboard_text (v : option jsstring) (p : Page) : Page :=
  {| ui := ui p; successes := successes p; uploadingStore := uploadingStore p;
     selectedFilesStore := selectedFilesStore p;
     uploadProgressStore := uploadProgressStore p;
     hasUploadedFilesStore := hasUploadedFilesStore p; shareLink := shareLink p;
     clipboard_text := v; clipboard_granted := clipboard_granted p;
     downloads := downloads p; timers := timers p; page_clock := page_clock p |}.
Definition set_downloads (f : list Download -> list Download) (p : Page) : Page :=
  {| ui := ui p; successes := successes p; uploadingStore := uploadingStore p;
     selectedFilesStore := selectedFilesStore p;
     uploadProgressStore := uploadProgressStore p;
     hasUploadedFilesStore := hasUploadedFilesStore p; shareLink := shareLink p;
     clipboard_text := clipboard_text p; clipboard_granted := clipboard_granted p;
     downloads := f (downloads p); timers := timers p; page_clock := page_clock p |}.
Definition set_timers (f : list jsstring -> list jsstring) (p : Page) : Page :=
  {| ui := ui p; successes := successes p; uploadingStore := uploadingStore p;
     selectedFilesStore := selectedFilesStore p;
     uploadProgressStore := uploadProgressStore p;
     hasUploadedFilesStore := hasUploadedFilesStore p; shareLink := shareLink p;
     clipboard_text := clipboard_text p; clipboard_granted := clipboard_granted p;
     downloads := downloads p; timers := f (timers p); page_clock := page_clock p |}.
Definition set_page_clock (v : Clock) (p : Page) : Page :=
  {| ui := ui p; successes := successes p; uploadingStore := uploadingStore p;
     selectedFilesStore := selectedFilesStore p;
     uploadProgressStore := uploadProgressStore p;
     hasUploadedFilesStore := hasUploadedFilesStore p; shareLink := shareLink p;
     clipboard_text := clipboard_text p; clipboard_granted := clipboard_granted p;
     downloads := downloads p; timers := timers p; page_clock := v |}.

(** The page, its session and the server it talks to. *)
Record World : Type := {
  session : State;
  host : Host;
  page : Page
}.

Definition set_session (f : State -> State) (w : World) : World :=
  {| session := f (session w); host := host w; page := page w |}.
Definition set_host (f : Host -> Host) (w : World) : World :=
  {| session := session w; host := f (host w); page := page w |}.
Definition set_page (f : Page -> Page) (w : World) : World :=
  {| session := session w; host := host w; page := f (page w) |}.

(** A handler: code that reads and writes the world and can throw. *)
Definition Handler (A : Type) : Type := World -> result A * World.

#[export] Instance Handler_ret : MRet Handler := fun A a w => (ok a, w).
#[export] Instance Handler_bind : MBind Handler := fun A B k m w =>
  match m w with
  | (inl e, w') => (inl e, w')
  | (inr a, w') => k a w'
  end.

Definition world : Handler World := fun w => (ok w, w).
Definition update (f : World -> World) : Handler unit := fun w => (ok tt, f w).
Definition raise {A} (e : exn) : Handler A := fun w => (throw e, w).
Definition attempt {A} (r : result A) : Handler A := fun w => (r, w).

(** [try { m } catch (error) { h error }] *)
Definition try_handler {A} (m : Handler A) (h : exn -> Handler A) : Handler A :=
  fun w =>
    match m w with
    | (inl e, w') => h e w'
    | (inr a, w') => (inr a, w')
    end.

(** [try { m } finally { f }] *)
Definition finally {A} (m : Handler A) (f : Handler unit) : Handler A :=
  fun w =>
    match m w with
    | (outcome, w') =>
        match f w' with
        | (inl e, w'') => (inl e, w'')
        | (inr _, w'') => (outcome, w'')
        end
    end.

(** The messages the platform gives the exceptions it throws and the input
    errors of an action; [new Error(message)] has the message it was made
    with. *)
Class Messages : Type := {
  exception_message : exn -> string;
  input_error_message : string -> string
}.

(** [error.message] *)
Definition error_message `{Messages} (error : exn) : string :=
  match error with
  | Error message => message
  | _ => exception_message error
  end.

(** [result.error.message] of a failed call of an action. *)
Definition failure_message `{Messages} (failure : ActionFailure) : string :=
  match failure with
  | ActionInputError issue => input_error_message issue
  | ActionError _ message => message
  end.

(** A toast text that holds a string of the page keeps it as UTF-8. *)
Definition utf8_string (s : jsstring) : string :=
  string_of_list_byte (TextEncoder_encode s).

(** [toast.error(message)] and [toast.success(message)] *)
Definition toast_error_message (message : string) : Handler unit :=
  update (set_page (set_ui (toast_error message))).
Definition toast_success (message : string) : Handler unit :=
  update (set_page (set_successes (cons message))).

(** The updates of [uploadProgressStore]: [{ ...prev, [id]: value }], the
    rest of [prev] without [id], and [{}]. *)
Definition progress_set (id : jsstring) (value : N) (prev : list (jsstring * N))
    : list (jsstring * N) :=
  (id, value) :: List.filter (fun entry => negb (jsstring_eqb entry.1 id)) prev.
Definition progress_without (id : jsstring) (prev : list (jsstring * N))
    : list (jsstring * N) :=
  List.filter (fun entry => negb (jsstring_eqb entry.1 id)) prev.

(** [progress[id]] *)
Fixpoint progress_of (id : jsstring) (progress : list (jsstring * N)) : option N :=
  match progress with
  | [] => None
  | (n, v) :: rest => if jsstring_eqb n id then Some v else progress_of id rest
  end.

Definition setProgress (id : jsstring) (value : N) : Handler unit :=
  update (set_page (set_uploadProgressStore (progress_set id value))).
Definition removeProgress (id : jsstring) : Handler unit :=
  update (set_page (set_uploadProgressStore (progress_without id))).
Definition clearProgress : Handler unit :=
  update (set_page (set_uploadProgressStore (fun _ => []))).

(** [new Date()] *)
Definition new_Date : Handler Z :=
  w ← world;
  let (now, clock) := read_clock (page_clock (page w)) in
  _ ← update (set_page (set_page_clock clock));
  mret now.

(** Code of crypto.ts that draws from [crypto.getRandomValues]. *)
Definition with_random {A} (f : entropy -> result A * entropy) : Handler A :=
  fun w =>
    let (outcome, r) := f (random (window (session w))) in
    (outcome, set_session (set_window (set_random r)) w).

(** A call of an action of the server: [actions.name(input)] answers with
    the data or with the error. *)
Definition call_action {A} (action : Host -> (ActionFailure + A) * Host)
    : Handler (ActionFailure + A) :=
  fun w =>
    let (answer, h) := action (host w) in
    (ok answer, set_host (fun _ => h) w).

(** [loadFiles()] *)
Definition call_loadFiles `{AesGcm} `{Json} : Handler unit :=
  fun w =>
    let (shown, srv) := loadFiles (session w) (server (host w)) (ui (page w)) in
    (ok tt, set_page (set_ui (fun _ => shown)) (set_host (set_server (fun _ => srv)) w)).

(** [handleFileSelect], with the files of the input element. *)
Definition handleFileSelect (files : list File) : Handler unit :=
  update (set_page (set_selectedFilesStore files)).

(** [array.filter((element, i) => keep(element, i))] *)
Fixpoint filter_indexed {A} (keep : A -> nat -> bool) (i : nat) (array : list A)
    : list A :=
  match array with
  | [] => []
  | element :: rest =>
      if keep element i then element :: filter_indexed keep (S i) rest
      else filter_indexed keep (S i) rest
  end.

(** [handleRemoveFile] *)
Definition handleRemoveFile (index : nat) : Handler unit :=
  w ← world;
  let selectedFiles := selectedFilesStore (page w) in
  let newFiles := filter_indexed (fun _ i => negb (i =? index)%nat) 0 selectedFiles in
  update (set_page (set_selectedFilesStore newFiles)).

(** [handleDrop], with the files of the drop; the drag state of the
    component is left out. *)
Definition handleDrop (droppedFiles : list File) : Handler unit :=
  update (set_page (fun p =>
    set_selectedFilesStore (selectedFilesStore p ++ droppedFiles) p)).

(** The double quote, for the texts that hold one. *)
Definition double_quote : string := string_of_list_byte [x22].

(** The body of the loop of [handleUpload] for the file at [index]. *)
Definition upload_file `{AesGcm} `{Messages} (key : CryptoKey) (keyHash : jsstring)
    (index : nat) (file : File) : Handler unit :=
  let fileId := js "file-" ++ Number_toString10 (N.of_nat index) in
  _ ← setProgress fileId 25;
  encryptedFileData ← with_random (encryptFile (file_content file) key);
  uploadDate ← new_Date;
  encrypted ← with_random
                (encryptMetadata (file_name file) (file_size file) uploadDate key);
  let encryptedMetadata := metadata_encryptedMetadata encrypted in
  let metadataIv := metadata_iv encrypted in
  _ ← setProgress fileId 50;
  let encryptedBlob := file_encryptedData encryptedFileData in
  fileIvBase64 ← attempt (btoa (fromCharCode (file_iv encryptedFileData)));
  _ ← setProgress fileId 75;
  let formData :=
    [(js "encryptedFile", FormFile encryptedBlob);
     (js "encryptedMetadata", FormString encryptedMetadata);
     (js "metadataIv", FormString metadataIv);
     (js "keyHash", FormString keyHash);
     (js "fileIv", FormString fileIvBase64)] in
  answer ← call_action (store_action formData);
  let fallback :=
    ("Upload failed for " ++ double_quote ++ utf8_string (file_name file)
     ++ double_quote)%string in
  match answer with
  | inr data =>
      if store_success data then setProgress fileId 100
      else raise (Error fallback)
  | inl failure =>
      raise (Error (if (String.length (failure_message failure) =? 0)%nat
                    then fallback
                    else failure_message failure))
  end.

(** [for (const [index, file] of selectedFiles.entries())] *)
Fixpoint upload_files `{AesGcm} `{Messages} (key : CryptoKey) (keyHash : jsstring)
    (index : nat) (files : list File) : Handler unit :=
  match files with
  | [] => mret tt
  | file :: rest =>
      _ ← upload_file key keyHash index file;
      upload_files key keyHash (S index) rest
  end.

(** [handleUpload] *)
Definition handleUpload `{AesGcm} `{Json} `{Messages} : Handler unit :=
  w ← world;
  let selectedFiles := selectedFilesStore (page w) in
  if (length selectedFiles =? 0)%nat then
    toast_error_message "Please select at least one file"
  else
    match getKey (session w), getKeyHash (session w) with
    | Some key, Some keyHash =>
        if truthy keyHash then
          _ ← update (set_page (set_uploadingStore true));
          finally
            (try_handler
               (_ ← upload_files key keyHash 0 selectedFiles;
                _ ← update (set_page (set_selectedFilesStore []));
                _ ← clearProgress;
                _ ← update (set_page (set_hasUploadedFilesStore true));
                call_loadFiles)
               (fun error => toast_error_message (error_message error)))
            (_ ← update (set_page (set_uploadingStore false));
             clearProgress)
        else toast_error_message "Encryption key not ready"
    | _, _ => toast_error_message "Encryption key not ready"
    end.

(** [handleDownload]; the removal of the progress entry a second later is
    kept as a timer, see [progress_timer]. *)
Definition handleDownload `{AesGcm} `{Zod} `{Messages} (fileInfo : FileInfo)
    : Handler unit :=
  w ← world;
  match getKey (session w) with
  | None => toast_error_message "Encryption key not ready"
  | Some key =>
      let downloadId := js "download-" ++ info_id fileInfo in
      try_handler
        (_ ← setProgress downloadId 25;
         let input := JObject [(js "fileId", JString (info_id fileInfo))] in
         fileInfoResult ← call_action (on_server (info_action input));
         downloadResult ← call_action (on_server (fetch_action input));
         match fileInfoResult, downloadResult with
         | inr fileInfoData, inr downloadData =>
             _ ← setProgress downloadId 50;
             ivBinary ← attempt (atob (record_fileIv fileInfoData));
             let fileIv := charCodes ivBinary in
             dataBinary ← attempt (atob (blob_data downloadData));
             let encryptedData := charCodes dataBinary in
             decryptedData ← attempt (decryptData encryptedData key fileIv);
             _ ← setProgress downloadId 100;
             _ ← update (set_page (set_downloads
                   (cons {| download_name := info_fileName fileInfo;
                            download_content := decryptedData |})));
             update (set_page (set_timers (cons downloadId)))
         | _, _ => raise (Error "Failed to fetch file")
         end)
        (fun error =>
           _ ← toast_error_message (error_message error);
           removeProgress downloadId)
  end.

(** The timer [handleDownload] set for [downloadId] fires. *)
Definition progress_timer (downloadId : jsstring) : Handler unit :=
  removeProgress downloadId.

(** [copyShareLink] of ShareLink.tsx *)
Definition copyShareLink : Handler unit :=
  try_handler
    (w ← world;
     shareUrl ← attempt (getShareUrl (session w));
     _ ← (if clipboard_granted (page w)
          then update (set_page (set_clipboard_text (Some shareUrl)))
          else raise (Error "NotAllowedError"));
     _ ← update (set_page (set_shareLink
           (fun c => {| linkSaved := true; showQR := showQR c |})));
     toast_success "Share link copied")
    (fun _ => toast_error_message "Failed to copy share link").

(** [generateNewKey] of ShareLink.tsx; [confirmed] is the answer to the
    [confirm] dialog and [onKeyChange] the callback the component was given. *)
Definition ShareLink_generateNewKey (confirmed : bool)
    (onKeyChange : option (Handler unit)) : Handler unit :=
  if negb confirmed then mret tt
  else
    try_handler
      (_ ← (fun w =>
              let (outcome, st) := generateNewKey (session w) in
              (outcome, set_session (fun _ => st) w));
       _ ← update (set_page (set_shareLink
             (fun c => {| linkSaved := false; showQR := showQR c |})));
       _ ← update (set_page (set_shareLink
             (fun c => {| linkSaved := linkSaved c; showQR := false |})));
       _ ← toast_success "New key generated";
       match onKeyChange with
       | Some callback => callback
       | None => mret tt
       end)
      (fun _ => toast_error_message "Failed to generate new key").

(** [toggleQRCode] *)
Definition toggleQRCode : Handler unit :=
  update (set_page (set_shareLink
    (fun c => {| linkSaved := linkSaved c; showQR := negb (showQR c) |}))).

(** Whether the effect of [ShareLink] has the [beforeunload] handler
    registered: not when the link is saved, the key was loaded from outside
    or no file has been uploaded. *)
Definition warns_before_unload (w : World) : bool :=
  negb (linkSaved (shareLink (page w))
        || keyLoadedFromExternal (stores (session w))
        || negb (hasUploadedFilesStore (page w))).

(** ** Reading the metadata back *)

(** [JSON.parse] reads the metadata [JSON.stringify] wrote. *)
Definition reads_metadata `{Json} (name : jsstring) (size : N) (date : jsstring)
    : Prop :=
  JSON_parse (JSON_stringify_metadata name size date) =
  ok (JObject [(js "fileName", JString name);
               (js "fileSize", JNumber (Number_toString10 size));
               (js "uploadDate", JString date)]).

(** ** A reader of metadata objects

    To run [decryptMetadata] on what [encryptMetadata] wrote, this reader
    is used in place of [JSON.parse]: objects whose members are strings, with
    the escapes of JSON, or runs of digits, written without white space.
    Anything else is a [SyntaxError]. *)
Module Reader.

Definition hex_of (c : u16) : option N :=
  if Byte.eqb (hi c) x00 then hex_value (lo c) else None.

Definition read_hex4 (a b c d : u16) : option u16 :=
  match hex_of a, hex_of b, hex_of c, hex_of d with
  | Some x, Some y, Some z, Some w =>
      Some (U16 (byte_of_N (16 * x + y)) (byte_of_N (16 * z + w)))
  | _, _, _, _ => None
  end.

Definition unescape (e : u16) : option u16 :=
  if u16_eqb e (ch "b") then Some (ch x08)
  else if u16_eqb e (ch "t") then Some (ch x09)
  else if u16_eqb e (ch "n") then Some (ch x0a)
  else if u16_eqb e (ch "f") then Some (ch x0c)
  else if u16_eqb e (ch "r") then Some (ch x0d)
  else if u16_eqb e quotation_mark then Some quotation_mark
  else if u16_eqb e reverse_solidus then Some reverse_solidus
  else if u16_eqb e (ch "/") then Some (ch "/")
  else None.

(** The string that starts after an opening quote, and what follows its
    closing quote. *)
Fixpoint read_quoted (s : jsstring) : option (jsstring * jsstring) :=
  match s with
  | [] => None
  | c :: rest =>
      if u16_eqb c quotation_mark then Some ([], rest)
      else if u16_eqb c reverse_solidus then
        match rest with
        | e :: rest1 =>
            if u16_eqb e (ch "u") then
              match rest1 with
              | h1 :: h2 :: h3 :: h4 :: rest2 =>
                  match read_hex4 h1 h2 h3 h4, read_quoted rest2 with
                  | Some u, Some (str, rest') => Some (u :: str, rest')
                  | _, _ => None
                  end
              | _ => None
              end
            else
              match unescape e, read_quoted rest1 with
              | Some u, Some (str, rest') => Some (u :: str, rest')
              | _, _ => None
              end
        | [] => None
        end
      else if u16_to_N c <? 0x20 then None
      else match read_quoted rest with
           | Some (str, rest') => Some (c :: str, rest')
           | None => None
           end
  end.

Definition is_digit (c : u16) : bool :=
  Byte.eqb (hi c) x00 && (0x30 <=? Byte.to_N (lo c)) && (Byte.to_N (lo c) <=? 0x39).

Fixpoint read_digits (s : jsstring) : jsstring * jsstring :=
  match s with
  | c :: rest =>
      if is_digit c then let (digits, rest') := read_digits rest in (c :: digits, rest')
      else ([], s)
  | [] => ([], [])
  end.

Definition read_value (s : jsstring) : option (jsvalue * jsstring) :=
  match s with
  | c :: rest =>
      if u16_eqb c quotation_mark then
        match read_quoted rest with
        | Some (str, rest') => Some (JString str, rest')
        | None => None
        end
      else
        match read_digits s with
        | ([], _) => None
        | (digits, rest') => Some (JNumber digits, rest')
        end
  | [] => None
  end.

Fixpoint read_members (fuel : nat) (s : jsstring)
    : option (list (jsstring * jsvalue)) :=
  match fuel, s with
  | S fuel', q :: s1 =>
      if u16_eqb q quotation_mark then
        match read_quoted s1 with
        | Some (name, colon :: s2) =>
            if u16_eqb colon (ch ":") then
              match read_value s2 with
              | Some (value, [close]) =>
                  if u16_eqb close (ch "}") then Some [(name, value)] else None
              | Some (value, comma :: s3) =>
                  if u16_eqb comma (ch ",") then
                    match read_members fuel' s3 with
                    | Some members => Some ((name, value) :: members)
                    | None => None
                    end
                  else None
              | _ => None
              end
            else None
        | _ => None
        end
      else None
  | _, _ => None
  end.

Definition parse (text : jsstring) : result jsvalue :=
  match text with
  | open :: members =>
      if u16_eqb open (ch "{") then
        match read_members (length members) members with
        | Some properties => ok (JObject properties)
        | None => throw SyntaxError
        end
      else throw SyntaxError
  | [] => throw SyntaxError
  end.

Definition json : Json := {| JSON_parse := parse |}.

End Reader.

(** ** Notions used to state the properties of the handlers *)

(** The form [handleUpload] sends for a file, with the random source and the
    date it meets. *)
Definition upload_form `{AesGcm} (key : CryptoKey) (keyHash : jsstring) (file : File)
    (r : entropy) (uploadDate : Z) : FormData :=
  let nonce := (getRandomValues 12 r).1 in
  let r1 := (getRandomValues 12 r).2 in
  [(js "encryptedFile",
    FormFile (aes_gcm_encrypt (key_data key) nonce (file_content file)));
   (js "encryptedMetadata",
    FormString
      (base64_encode
         (aes_gcm_encrypt (key_data key) (getRandomValues 12 r1).1
            (TextEncoder_encode
               (JSON_stringify_metadata (file_name file) (file_size file)
                  (Date_toISOString uploadDate))))));
   (js "metadataIv", FormString (base64_encode (getRandomValues 12 r1).1));
   (js "keyHash", FormString keyHash);
   (js "fileIv", FormString (base64_encode nonce))].

(** The progress entry of the file at [index]. *)
Definition upload_progress_id (index : nat) : jsstring :=
  js "file-" ++ Number_toString10 (N.of_nat index).

(** The world after the loop body of [handleUpload] has sent the form of a
    file: two nonces and one date have been drawn, the progress entry of the
    file shows [shown], and the host is [h]. *)
Definition after_upload (index : nat) (shown : N) (h : Host) (w : World) : World :=
  {| session :=
       set_window
         (set_random
            (getRandomValues 12 (getRandomValues 12 (random (window (session w)))).2).2)
         (session w);
     host := h;
     page :=
       set_uploadProgressStore (progress_set (upload_progress_id index) shown)
         (set_page_clock (read_clock (page_clock (page w))).2 (page w)) |}.

(** The message of the error [handleUpload] throws for a failed [store]. *)
Definition upload_failure_message `{Messages} (failure : ActionFailure) (file : File)
    : string :=
  if (String.length (failure_message failure) =? 0)%nat
  then ("Upload failed for " ++ double_quote ++ utf8_string (file_name file)
        ++ double_quote)%string
  else failure_message failure.

(** The progress entry of the download of a file. *)
Definition download_progress_id (fileInfo : FileInfo) : jsstring :=
  js "download-" ++ info_id fileInfo.

(** What [handleDownload] asks of [info] and [fetch]. *)
Definition download_input (fileInfo : FileInfo) : jsvalue :=
  JObject [(js "fileId", JString (info_id fileInfo))].

(** What [handleDownload] makes of the answers of [info] and [fetch]: the
    nonce and the data are decoded and the data decrypted. *)
Definition download_decrypt `{AesGcm} (key : CryptoKey) (fileInfoData : FileRecord)
    (downloadData : FileBlob) : result (list byte) :=
  let* ivBinary := atob (record_fileIv fileInfoData) in
  let* dataBinary := atob (blob_data downloadData) in
  decryptData (charCodes dataBinary) key (charCodes ivBinary).

(** The host after [info] and [fetch] were asked for the file. *)
Definition after_download_requests `{Zod} (fileInfo : FileInfo) (h : Host) : Host :=
  set_server
    (fun srv =>
       (fetch_action (download_input fileInfo)
          (info_action (download_input fileInfo) srv).2).2) h.

(** What the loop of [handleUpload] leaves as it is. *)
Definition same_but_upload (w w' : World) : Prop :=
  manager (session w') = manager (session w) /\
  stores (session w') = stores (session w) /\
  location_base (window (session w')) = location_base (window (session w)) /\
  location_hash (window (session w')) = location_hash (window (session w)) /\
  sessionStorage (window (session w')) = sessionStorage (window (session w)) /\
  ui (page w') = ui (page w) /\
  successes (page w') = successes (page w) /\
  uploadingStore (page w') = uploadingStore (page w) /\
  selectedFilesStore (page w') = selectedFilesStore (page w) /\
  hasUploadedFilesStore (page w') = hasUploadedFilesStore (page w) /\
  shareLink (page w') = shareLink (page w) /\
  clipboard_text (page w') = clipboard_text (page w) /\
  downloads (page w') = downloads (page w) /\
  timers (page w') = timers (page w) /\
  accesses (server (host w')) = accesses (server (host w)) /\
  fs_error (host w') = fs_error (host w) /\
  prisma_error (host w') = prisma_error (host w).

(** The file is stored as the row: the row is filed under [keyHash]; the
    file [<id>.bin] of the upload directory holds the content of the file,
    encrypted under [key] with the nonce the row names; and the metadata of
    the row is the name and the size of the file and a date, encrypted under
    [key] with the other nonce the row names. *)
Definition stored_as `{AesGcm} (key : CryptoKey) (keyHash : jsstring)
    (dir : list (jsstring * list byte)) (file : File) (row : EncryptedFile) : Prop :=
  row_encryptionKeyHash row = keyHash /\
  exists nonce metadataNonce uploadDate,
    row_fileIv row = base64_encode nonce /\
    read_upload (row_id row ++ js ".bin") dir =
      Some (aes_gcm_encrypt (key_data key) nonce (file_content file)) /\
    row_metadataIv row = base64_encode metadataNonce /\
    row_encryptedMetadata row =
      base64_encode
        (aes_gcm_encrypt (key_data key) metadataNonce
           (TextEncoder_encode
              (JSON_stringify_metadata (file_name file) (file_size file)
                 (Date_toISOString uploadDate)))).

(** The ciphertext of AES-GCM ends with the tag: it is never empty. *)
Class AesGcmTagged (G : AesGcm) : Prop :=
  aes_gcm_encrypt_tagged :
    forall key iv data, key <> [] -> aes_gcm_encrypt key iv data <> [].

(** ** Concrete inputs for the examples of the handlers *)

Definition demo_messages : Messages :=
  {| exception_message := fun _ => "The operation failed"%string;
     input_error_message := fun issue => ("Failed to validate: " ++ issue)%string |}.

Definition demo_clock (start : Z) : Clock :=
  {| instants := fun n => (start + 1000 * Z.of_nat n)%Z; readings := 0 |}.

Definition demo_host : Host :=
  {| server := {| database := Some []; upload_dir := []; unreadable := [];
                  accesses := [] |};
     uuid_random := Entropy (fun i => byte_of_N (N.of_nat (11 * i + 5))) 0;
     database_clock := demo_clock 1700000000000;
     fs_error := None;
     prisma_error := "Can't reach database server" |}.

(** The id [uuidv4] makes on [demo_host]. *)
Definition demo_id : jsstring := js "05101b26-313c-4752-9d68-737e89949faa".

Definition demo_file : File :=
  {| file_name := js "notes.txt";
     file_content := list_byte_of_string "hello, tinybox" |}.

Definition demo_page : Page :=
  {| ui := {| filesStore := []; toasts := [] |};
     successes := [];
     uploadingStore := false;
     selectedFilesStore := [demo_file];
     uploadProgressStore := [];
     hasUploadedFilesStore := false;
     shareLink := {| linkSaved := false; showQR := false |};
     clipboard_text := None;
     clipboard_granted := true;
     downloads := [];
     timers := [];
     page_clock := demo_clock 1699999999000 |}.

(** A page opened through a share link, with a file selected. *)
Definition demo_world : World :=
  {| session := run Initialize (initial_state share_link_window);
     host := demo_host;
     page := demo_page |}.

(** A form as [handleUpload] sends it. *)
Definition demo_form : FormData :=
  [(js "encryptedFile", FormFile [x01; x02; x03]);
   (js "encryptedMetadata", FormString (js "bWV0YQ=="));
   (js "metadataIv", FormString (js "aXYx"));
   (js "keyHash", FormString (js "a9ac0169"));
   (js "fileIv", FormString (js "aXYy"))].

Definition demo_input : StoreInput :=
  {| input_encryptedFile := [x01; x02; x03];
     input_encryptedMetadata := js "bWV0YQ==";
     input_metadataIv := js "aXYx";
     input_fileIv := js "aXYy";
     input_keyHash := js "a9ac0169" |}.



(* ===================================================================== *)
(** * Part II.  Proofs                                                    *)
(* ===================================================================== *)

(** ** Bytes and code units *)

Lemma byte_of_to_N (b : byte) : byte_of_N (Byte.to_N b) = b.
Proof.
  unfold byte_of_N.
  pose proof (Byte.to_N_bounded b) as Hb.
  rewrite N.mod_small by lia.
  by rewrite Byte.of_to_N.
Qed.

Lemma byte_to_of_N (n : N) : Byte.to_N (byte_of_N n) = n mod 256.
Proof.
  unfold byte_of_N.
  destruct (Byte.of_N (n mod 256)) as [b|] eqn:E.
  - by apply Byte.to_of_N.
  - apply Byte.of_N_None_iff in E.
    pose proof (N.mod_upper_bound n 256). lia.
Qed.

Lemma byte_to_N_lt (b : byte) : Byte.to_N b < 256.
Proof. pose proof (Byte.to_N_bounded b). lia. Qed.

Lemma byte_eqb_eq (a b : byte) : Byte.eqb a b = true <-> a = b.
Proof. split; [apply Byte.byte_dec_bl | apply Byte.byte_dec_lb]. Qed.

Lemma u16_eqb_eq (a b : u16) : u16_eqb a b = true <-> a = b.
Proof.
  destruct a as [h1 l1], b as [h2 l2]. unfold u16_eqb; simpl.
  rewrite andb_true_iff, !byte_eqb_eq. split.
  - by intros [-> ->].
  - by intros [= -> ->].
Qed.

Lemma u16_eqb_refl (a : u16) : u16_eqb a a = true.
Proof. by apply u16_eqb_eq. Qed.

Lemma u16_eqb_neq (a b : u16) : u16_eqb a b = false <-> a <> b.
Proof.
  rewrite <- u16_eqb_eq. destruct (u16_eqb a b); split; congruence.
Qed.

Lemma charCodes_fromCharCode (bs : list byte) : charCodes (fromCharCode bs) = bs.
Proof.
  unfold charCodes, fromCharCode. rewrite map_map. simpl. apply map_id.
Qed.

(** ** Base64 *)

Local Ltac Zify.zify_post_hook ::= Z.to_euclidean_division_equations.

Lemma list_ind3 {A} (P : list A -> Prop) :
  P [] -> (forall a, P [a]) -> (forall a b, P [a; b]) ->
  (forall a b c rest, P rest -> P (a :: b :: c :: rest)) ->
  forall l, P l.
Proof.
  intros H0 H1 H2 H3.
  fix IH 1.
  intros [|a [|b [|c rest]]]; [apply H0 | apply H1 | apply H2 | apply H3, IH].
Qed.

Lemma sextet_cases (P : N -> Prop) (n : N) :
  n < 64 ->
  (forall m, In m (map N.of_nat (seq 0 64)) -> P m) -> P n.
Proof.
  intros Hn HP. apply HP. apply in_map_iff.
  exists (N.to_nat n). split; [lia | apply in_seq; lia].
Qed.

Lemma sextet_of_char_of_sextet (n : N) :
  n < 64 -> sextet_of_char (char_of_sextet n) = Some n.
Proof.
  intros Hn.
  apply (sextet_cases (fun n => sextet_of_char (char_of_sextet n) = Some n) n Hn).
  intros m Hm. simpl in Hm.
  repeat (destruct Hm as [<- | Hm]; [reflexivity |]). destruct Hm.
Qed.

Lemma char_of_sextet_not_special (n : N) :
  n < 64 ->
  is_ascii_whitespace (char_of_sextet n) = false /\
  u16_eqb (char_of_sextet n) pad_char = false.
Proof.
  intros Hn.
  apply (sextet_cases
           (fun n => is_ascii_whitespace (char_of_sextet n) = false /\
                     u16_eqb (char_of_sextet n) pad_char = false) n Hn).
  intros m Hm. simpl in Hm.
  repeat (destruct Hm as [<- | Hm]; [split; reflexivity |]). destruct Hm.
Qed.

Lemma sextets_of_bytes_lt (bs : list byte) :
  Forall (fun n => n < 64) (sextets_of_bytes bs).
Proof.
  induction bs as [|a|a b|a b c rest IH] using list_ind3; simpl.
  - constructor.
  - pose proof (byte_to_N_lt a). repeat constructor; lia.
  - pose proof (byte_to_N_lt a). pose proof (byte_to_N_lt b).
    repeat constructor; lia.
  - pose proof (byte_to_N_lt a). pose proof (byte_to_N_lt b).
    pose proof (byte_to_N_lt c).
    repeat (constructor; [lia |]). exact IH.
Qed.

Lemma byte_of_N_intro (n : N) (b : byte) :
  n mod 256 = Byte.to_N b -> byte_of_N n = b.
Proof.
  intros Hn. rewrite <- (byte_of_to_N b), <- Hn.
  unfold byte_of_N. by rewrite N.Div0.mod_mod.
Qed.

Lemma bytes_of_sextets_of_bytes (bs : list byte) :
  bytes_of_sextets (sextets_of_bytes bs) = bs.
Proof.
  induction bs as [|a|a b|a b c rest IH] using list_ind3.
  - reflexivity.
  - pose proof (byte_to_N_lt a).
    simpl. f_equal. apply byte_of_N_intro. lia.
  - pose proof (byte_to_N_lt a). pose proof (byte_to_N_lt b).
    simpl. repeat (apply (f_equal2 cons); [apply byte_of_N_intro; lia |]).
    reflexivity.
  - pose proof (byte_to_N_lt a). pose proof (byte_to_N_lt b).
    pose proof (byte_to_N_lt c).
    cbn [sextets_of_bytes app bytes_of_sextets].
    repeat (apply (f_equal2 cons); [apply byte_of_N_intro; lia |]).
    exact IH.
Qed.

Lemma base64_padding_add3 (n : nat) :
  base64_padding (3 + n) = base64_padding n.
Proof.
  unfold base64_padding.
  replace ((3 + n) mod 3)%nat with (n mod 3)%nat; [reflexivity |].
  rewrite <- (Nat.Div0.mod_add n 1 3). f_equal. lia.
Qed.

Lemma sextets_length_mod4 (bs : list byte) :
  ((length (sextets_of_bytes bs) +
    length (base64_padding (length bs))) mod 4 = 0)%nat /\
  (length (sextets_of_bytes bs) mod 4 <> 1)%nat.
Proof.
  induction bs as [|a|a b|a b c rest [IH1 IH2]] using list_ind3;
    try (split; [reflexivity | discriminate]).
  change (length (a :: b :: c :: rest)) with (3 + length rest)%nat.
  rewrite base64_padding_add3.
  cbn [sextets_of_bytes app length].
  set (n := length (sextets_of_bytes rest)) in *.
  set (m := length (base64_padding (length rest))) in *.
  clearbody n m. split; lia.
Qed.

Lemma filter_all_true {A} (f : A -> bool) (l : list A) :
  Forall (fun x => f x = true) l -> List.filter f l = l.
Proof.
  induction 1 as [|x l Hx _ IH]; simpl; [reflexivity |].
  by rewrite Hx, IH.
Qed.

Lemma strip_padding_encoded (sx : list N) (pad : jsstring) :
  Forall (fun n => n < 64) sx ->
  pad = [] \/ pad = [pad_char] \/ pad = [pad_char; pad_char] ->
  (length (map char_of_sextet sx ++ pad) mod 4 = 0)%nat ->
  strip_padding (map char_of_sextet sx ++ pad) = map char_of_sextet sx.
Proof.
  intros Hsx Hpad Hlen.
  assert (Hlast : forall r c, rev (map char_of_sextet sx) = c :: r ->
                              u16_eqb c pad_char = false).
  { intros r c Hr.
    assert (Hin : In c (map char_of_sextet sx)).
    { apply in_rev. rewrite Hr. by left. }
    apply in_map_iff in Hin as (n & <- & Hn).
    rewrite List.Forall_forall in Hsx.
    by apply char_of_sextet_not_special, Hsx. }
  unfold strip_padding.
  destruct Hpad as [-> | [-> | ->]].
  - rewrite app_nil_r in *.
    destruct (rev (map char_of_sextet sx)) as [|p [|q r]] eqn:Hr;
      [reflexivity | |]; by rewrite (Hlast _ _ eq_refl).
  - rewrite rev_app_distr. simpl.
    destruct (rev (map char_of_sextet sx)) as [|q r] eqn:Hr.
    + apply (f_equal (@rev _)) in Hr. rewrite rev_involutive in Hr.
      by rewrite Hr.
    + rewrite (Hlast _ _ eq_refl).
      apply (f_equal (@rev _)) in Hr. rewrite rev_involutive in Hr.
      by rewrite Hr.
  - rewrite rev_app_distr. simpl.
    apply rev_involutive.
Qed.

Lemma base64_decode_encode (bs : list byte) :
  base64_decode (base64_encode bs) = Some bs.
Proof.
  pose proof (sextets_of_bytes_lt bs) as Hlt.
  pose proof (sextets_length_mod4 bs) as [Hlen Hne].
  assert (Hpad : base64_padding (length bs) = [] \/
                 base64_padding (length bs) = [pad_char] \/
                 base64_padding (length bs) = [pad_char; pad_char]).
  { unfold base64_padding. destruct (length bs mod 3)%nat as [|[|?]]; auto. }
  unfold base64_decode, base64_encode.
  rewrite filter_all_true.
  2:{ apply Forall_app. split.
      - apply Forall_map. eapply Forall_impl; [exact Hlt |].
        intros n Hn. simpl.
        by rewrite (proj1 (char_of_sextet_not_special n Hn)).
      - destruct Hpad as [-> | [-> | ->]]; repeat constructor. }
  rewrite length_app, length_map, Hlen, Nat.eqb_refl.
  rewrite strip_padding_encoded; [| done | done |].
  2:{ by rewrite length_app, length_map. }
  rewrite length_map.
  destruct (Nat.eqb_spec (length (sextets_of_bytes bs) mod 4) 1) as [E|_];
    [by destruct Hne |].
  rewrite mapM_fmap_Forall_Some.
  - simpl. by rewrite bytes_of_sextets_of_bytes.
  - eapply Forall_impl; [exact Hlt |].
    intros n Hn. by apply sextet_of_char_of_sextet.
Qed.

Lemma btoa_fromCharCode (bs : list byte) :
  btoa (fromCharCode bs) = ok (base64_encode bs).
Proof.
  unfold btoa. rewrite charCodes_fromCharCode.
  replace (forallb _ _) with true; [reflexivity |].
  symmetry. apply forallb_forall. intros u Hu.
  unfold fromCharCode in Hu. apply in_map_iff in Hu as (b & <- & _).
  reflexivity.
Qed.

Lemma atob_base64_encode (bs : list byte) :
  atob (base64_encode bs) = ok (fromCharCode bs).
Proof. unfold atob. by rewrite base64_decode_encode. Qed.

(** ** UTF-8 *)

Ltac ntest :=
  repeat match goal with
    | |- context [N.leb ?a ?b] => destruct (N.leb_spec a b); try lia
    | |- context [N.ltb ?a ?b] => destruct (N.ltb_spec a b); try lia
    | |- context [N.eqb ?a ?b] => destruct (N.eqb_spec a b); try lia
    end.

Lemma u16_to_N_lt (u : u16) : u16_to_N u < 65536.
Proof.
  unfold u16_to_N.
  pose proof (byte_to_N_lt (hi u)). pose proof (byte_to_N_lt (lo u)). lia.
Qed.

Lemma u16_of_to_N (u : u16) : u16_of_N (u16_to_N u) = u.
Proof.
  destruct u as [h l]. unfold u16_of_N, u16_to_N. cbn [hi lo].
  pose proof (byte_to_N_lt h). pose proof (byte_to_N_lt l).
  f_equal; apply byte_of_N_intro; lia.
Qed.

Lemma u16_of_N_intro (n : N) (u : u16) : n = u16_to_N u -> u16_of_N n = u.
Proof. intros ->. apply u16_of_to_N. Qed.

Lemma utf8_lead_ascii (b : N) : b < 0x80 -> utf8_lead_byte b = LeadEmit b.
Proof. intros Hb. unfold utf8_lead_byte. by ntest. Qed.

Lemma utf8_lead_two (h : N) :
  2 <= h -> h < 32 ->
  utf8_lead_byte (0xC0 + h) = LeadStart (Utf8State h 1 0x80 0xBF).
Proof.
  intros H1 H2. unfold utf8_lead_byte. ntest. simpl.
  do 2 f_equal. lia.
Qed.

Lemma utf8_lead_three (h : N) :
  h < 16 ->
  utf8_lead_byte (0xE0 + h) =
  LeadStart (Utf8State h 2 (if h =? 0 then 0xA0 else 0x80)
                           (if h =? 13 then 0x9F else 0xBF)).
Proof.
  intros H1. unfold utf8_lead_byte. ntest; simpl; do 2 f_equal; lia.
Qed.

Lemma utf8_lead_four (h : N) :
  h <= 4 ->
  utf8_lead_byte (0xF0 + h) =
  LeadStart (Utf8State h 3 (if h =? 0 then 0x90 else 0x80)
                           (if h =? 4 then 0x8F else 0xBF)).
Proof.
  intros H1. unfold utf8_lead_byte. ntest; simpl; do 2 f_equal; lia.
Qed.

Lemma utf8_decode_start (n : N) (r : list byte) :
  n < 256 ->
  utf8_decode_from None (byte_of_N n :: r) =
  match utf8_lead_byte n with
  | LeadEmit c => c :: utf8_decode_from None r
  | LeadStart st' => utf8_decode_from (Some st') r
  | LeadError => replacement_char :: utf8_decode_from None r
  end.
Proof.
  intros Hn. cbn [utf8_decode_from].
  by rewrite byte_to_of_N, N.mod_small.
Qed.

Lemma utf8_decode_continue (s : utf8_state) (t : N) (r : list byte) :
  t < 64 ->
  utf8_lower_boundary s <= 0x80 + t -> 0x80 + t <= utf8_upper_boundary s ->
  utf8_decode_from (Some s) (byte_of_N (0x80 + t) :: r) =
  if utf8_bytes_needed s =? 1
  then (utf8_code_point s * 64 + t) :: utf8_decode_from None r
  else utf8_decode_from
         (Some (Utf8State (utf8_code_point s * 64 + t)
                  (utf8_bytes_needed s - 1) 0x80 0xBF)) r.
Proof.
  intros Ht Hlo Hup. cbn [utf8_decode_from].
  rewrite byte_to_of_N, (N.mod_small (0x80 + t)) by lia.
  replace ((0x80 + t) mod 64) with t by lia.
  destruct (N.leb_spec (utf8_lower_boundary s) (0x80 + t)); [| lia].
  destruct (N.leb_spec (0x80 + t) (utf8_upper_boundary s)); [| lia].
  reflexivity.
Qed.

Lemma utf8_decode_encode_code_point (c : N) (r : list byte) :
  is_scalar c ->
  utf8_decode (utf8_encode_code_point c ++ r) = c :: utf8_decode r.
Proof.
  intros Hc. unfold utf8_decode, utf8_encode_code_point, is_scalar in *.
  destruct (N.ltb_spec c 0x80) as [H1|H1];
    [| destruct (N.ltb_spec c 0x800) as [H2|H2];
       [| destruct (N.ltb_spec c 0x10000) as [H3|H3]]];
    cbn [app].
  - rewrite utf8_decode_start, utf8_lead_ascii by lia. reflexivity.
  - rewrite utf8_decode_start, utf8_lead_two by lia.
    rewrite utf8_decode_continue by (cbn; lia).
    cbn. f_equal. lia.
  - rewrite utf8_decode_start, utf8_lead_three by lia.
    rewrite utf8_decode_continue by (cbn; ntest; lia).
    cbn [utf8_bytes_needed utf8_code_point].
    change (2 =? 1) with false. change (2 - 1) with 1. cbv iota.
    rewrite utf8_decode_continue by (cbn; lia).
    cbn. f_equal. lia.
  - rewrite utf8_decode_start, utf8_lead_four by lia.
    rewrite utf8_decode_continue by (cbn; ntest; lia).
    cbn [utf8_bytes_needed utf8_code_point].
    change (3 =? 1) with false. change (3 - 1) with 2. cbv iota.
    rewrite utf8_decode_continue by (cbn; lia).
    cbn [utf8_bytes_needed utf8_code_point].
    change (2 =? 1) with false. change (2 - 1) with 1. cbv iota.
    rewrite utf8_decode_continue by (cbn; lia).
    cbn. f_equal. lia.
Qed.

Lemma utf8_decode_encode (cs : list N) :
  Forall is_scalar cs ->
  utf8_decode (flat_map utf8_encode_code_point cs) = cs.
Proof.
  induction 1 as [|c cs Hc _ IH]; [reflexivity |].
  cbn [flat_map]. rewrite utf8_decode_encode_code_point by done.
  by rewrite IH.
Qed.

(** Induction following the recursion of [code_points]: one or two code
    units at a time. *)
Lemma jsstring_pair_ind (P : jsstring -> Prop) :
  P [] ->
  (forall u, P [u]) ->
  (forall u v rest, P (v :: rest) -> P rest -> P (u :: v :: rest)) ->
  forall s, P s.
Proof.
  intros H0 H1 H2 s.
  assert (H : P s /\ P (tail s)); [| tauto].
  induction s as [|u [|v rest] [IHa IHb]]; simpl in *; auto.
Qed.

Lemma code_points_scalar (s : jsstring) : Forall is_scalar (code_points s).
Proof.
  assert (Hrep : is_scalar replacement_char).
  { right. unfold replacement_char. lia. }
  induction s as [|u|u v rest IH1 IH2] using jsstring_pair_ind.
  - constructor.
  - pose proof (u16_to_N_lt u). cbn [code_points].
    destruct (is_lead_surrogate (u16_to_N u)) eqn:Hl;
      [by apply Forall_cons |].
    destruct (is_trail_surrogate (u16_to_N u)) eqn:Ht;
      [by apply Forall_cons |].
    apply Forall_cons; split; [| constructor].
    unfold is_lead_surrogate, is_trail_surrogate, is_scalar in *. lia.
  - pose proof (u16_to_N_lt u). pose proof (u16_to_N_lt v).
    cbn [code_points] in *.
    destruct (is_lead_surrogate (u16_to_N u)) eqn:Hl.
    + destruct (is_trail_surrogate (u16_to_N v)) eqn:Ht.
      * constructor; [| exact IH2].
        unfold is_lead_surrogate, is_trail_surrogate in *.
        right. lia.
      * constructor; [exact Hrep | exact IH1].
    + destruct (is_trail_surrogate (u16_to_N u)) eqn:Ht.
      * constructor; [exact Hrep | exact IH1].
      * constructor; [| exact IH1].
        unfold is_lead_surrogate, is_trail_surrogate, is_scalar in *. lia.
Qed.

Lemma utf16_of_code_points_well_formed (s : jsstring) :
  well_formed s = true -> utf16_of_code_points (code_points s) = s.
Proof.
  unfold utf16_of_code_points.
  induction s as [|u|u v rest IH1 IH2] using jsstring_pair_ind.
  - reflexivity.
  - pose proof (u16_to_N_lt u). cbn [code_points well_formed].
    destruct (is_lead_surrogate (u16_to_N u)); [discriminate |].
    destruct (is_trail_surrogate (u16_to_N u)); [discriminate |].
    intros _. cbn [flat_map]. unfold utf16_of_code_point.
    destruct (N.ltb_spec (u16_to_N u) 0x10000); [| lia].
    by rewrite u16_of_to_N.
  - pose proof (u16_to_N_lt u). pose proof (u16_to_N_lt v).
    cbn [code_points well_formed] in *.
    destruct (is_lead_surrogate (u16_to_N u)) eqn:Hl.
    + destruct (is_trail_surrogate (u16_to_N v)) eqn:Ht; [| discriminate].
      intros Hwf. cbn [flat_map]. rewrite (IH2 Hwf).
      unfold utf16_of_code_point, is_lead_surrogate, is_trail_surrogate in *.
      destruct (N.ltb_spec
                  (0x10000 + (u16_to_N u - 0xD800) * 1024 + (u16_to_N v - 0xDC00))
                  0x10000); [lia |].
      cbn [app]. do 2 (apply (f_equal2 cons); [apply u16_of_N_intro; lia |]).
      reflexivity.
    + destruct (is_trail_surrogate (u16_to_N u)) eqn:Ht; [discriminate |].
      intros Hwf. cbn [flat_map]. rewrite (IH1 Hwf).
      unfold utf16_of_code_point.
      destruct (N.ltb_spec (u16_to_N u) 0x10000); [| lia].
      by rewrite u16_of_to_N.
Qed.

Lemma byte_of_N_eqb (n : N) (b : byte) :
  Byte.eqb (byte_of_N n) b = (n mod 256 =? Byte.to_N b).
Proof.
  destruct (N.eqb_spec (n mod 256) (Byte.to_N b)) as [E|E].
  - apply byte_eqb_eq. by apply byte_of_N_intro.
  - destruct (Byte.eqb (byte_of_N n) b) eqn:Hb; [| reflexivity].
    apply byte_eqb_eq in Hb. subst b. by rewrite byte_to_of_N in E.
Qed.

Lemma strip_utf8_bom_code_point (c : N) (r : list byte) :
  c <> 0xFEFF -> c < 0x110000 ->
  strip_utf8_bom (utf8_encode_code_point c ++ r) = utf8_encode_code_point c ++ r.
Proof.
  intros Hne Hc. unfold utf8_encode_code_point.
  destruct (N.ltb_spec c 0x80) as [H1|H1];
    [| destruct (N.ltb_spec c 0x800) as [H2|H2];
       [| destruct (N.ltb_spec c 0x10000) as [H3|H3]]];
    cbn [app]; unfold strip_utf8_bom.
  - destruct r as [|? [|? ?]]; try reflexivity.
    rewrite byte_of_N_eqb. change (Byte.to_N xef) with 239.
    destruct (N.eqb_spec (c mod 256) 239); [lia | reflexivity].
  - destruct r as [|? ?]; try reflexivity.
    rewrite byte_of_N_eqb. change (Byte.to_N xef) with 239.
    destruct (N.eqb_spec ((192 + c / 64) mod 256) 239); [lia | reflexivity].
  - rewrite !byte_of_N_eqb.
    change (Byte.to_N xef) with 239. change (Byte.to_N xbb) with 187.
    change (Byte.to_N xbf) with 191.
    destruct (N.eqb_spec ((224 + c / 4096) mod 256) 239); [| reflexivity].
    destruct (N.eqb_spec ((128 + (c / 64) mod 64) mod 256) 187); [| reflexivity].
    destruct (N.eqb_spec ((128 + c mod 64) mod 256) 191); [| reflexivity].
    lia.
  - rewrite byte_of_N_eqb. change (Byte.to_N xef) with 239.
    destruct (N.eqb_spec ((240 + c / 262144) mod 256) 239); [lia | reflexivity].
Qed.

Lemma first_code_point (u : u16) (rest : jsstring) :
  exists c cs, code_points (u :: rest) = c :: cs /\
               c < 0x110000 /\ (c = 0xFEFF -> u = byte_order_mark).
Proof.
  pose proof (code_points_scalar (u :: rest)) as Hs.
  pose proof (u16_to_N_lt u) as Hu.
  assert (Hbom : u16_to_N u = 0xFEFF -> u = byte_order_mark).
  { intros E. rewrite <- (u16_of_to_N u), E. reflexivity. }
  cbn [code_points] in *.
  destruct (is_lead_surrogate (u16_to_N u)) eqn:Hl.
  - destruct rest as [|v rest'].
    + exists replacement_char, []. unfold replacement_char.
      split; [done | split; [lia | discriminate]].
    + pose proof (u16_to_N_lt v) as Hv.
      destruct (is_trail_surrogate (u16_to_N v)) eqn:Ht.
      * eexists _, _. split; [reflexivity |].
        unfold is_lead_surrogate, is_trail_surrogate in *. split; lia.
      * eexists _, _. split; [reflexivity |]. unfold replacement_char.
        split; [lia | discriminate].
  - destruct (is_trail_surrogate (u16_to_N u)) eqn:Ht.
    + eexists _, _. split; [reflexivity |]. unfold replacement_char.
      split; [lia | discriminate].
    + eexists _, _. split; [reflexivity |]. split; [lia | exact Hbom].
Qed.

Lemma strip_utf8_bom_encode (s : jsstring) :
  starts_with_bom s = false ->
  strip_utf8_bom (TextEncoder_encode s) = TextEncoder_encode s.
Proof.
  destruct s as [|u rest]; [reflexivity |].
  cbn [starts_with_bom]. intros Hu. apply u16_eqb_neq in Hu.
  destruct (first_code_point u rest) as (c & cs & E & Hc & Hbom).
  unfold TextEncoder_encode. rewrite E. cbn [flat_map].
  apply strip_utf8_bom_code_point; [| exact Hc].
  intros Hfe. by apply Hu, Hbom.
Qed.

(** Encoding then decoding gives the text back when the text has no unpaired
    surrogate and does not begin with U+FEFF. *)
Lemma TextDecoder_decode_encode (s : jsstring) :
  well_formed s = true -> starts_with_bom s = false ->
  TextDecoder_decode (TextEncoder_encode s) = s.
Proof.
  intros Hwf Hbom. unfold TextDecoder_decode.
  rewrite strip_utf8_bom_encode by done.
  unfold TextEncoder_encode.
  rewrite utf8_decode_encode by apply code_points_scalar.
  by apply utf16_of_code_points_well_formed.
Qed.

(** A leading U+FEFF is lost. *)
Lemma TextDecoder_decode_encode_bom (s : jsstring) :
  well_formed s = true ->
  TextDecoder_decode (TextEncoder_encode (byte_order_mark :: s)) = s.
Proof.
  intros Hwf. unfold TextDecoder_decode, TextEncoder_encode.
  change (code_points (byte_order_mark :: s)) with (0xFEFF :: code_points s).
  cbn [flat_map].
  change (utf8_encode_code_point 0xFEFF) with [xef; xbb; xbf].
  change (strip_utf8_bom ([xef; xbb; xbf] ++ ?r)) with r.
  rewrite utf8_decode_encode by apply code_points_scalar.
  by apply utf16_of_code_points_well_formed.
Qed.



(** ** SHA-256 and the key hash *)

Lemma sha256_round_length (st : list N) (kw : N * N) :
  length st = 8%nat -> length (SHA256.round st kw) = 8%nat.
Proof.
  intros Hst.
  do 9 (destruct st as [|? st]; try discriminate).
  reflexivity.
Qed.

Lemma sha256_compress_length (h : list N) (block : list byte) :
  length h = 8%nat -> length (SHA256.compress h block) = 8%nat.
Proof.
  intros Hh. unfold SHA256.compress.
  rewrite length_map, length_combine.
  assert (Hfold : forall kws st, length st = 8%nat ->
                    length (fold_left SHA256.round kws st) = 8%nat).
  { induction kws as [|kw kws IH]; intros st Hst; simpl; [done |].
    by apply IH, sha256_round_length. }
  rewrite Hfold by done. rewrite Hh. reflexivity.
Qed.

Lemma sha256_blocks_length (n : nat) (bs : list byte) (h : list N) :
  length h = 8%nat -> length (SHA256.blocks n bs h) = 8%nat.
Proof.
  revert bs h. induction n as [|n IH]; intros bs h Hh; simpl; [done |].
  by apply IH, sha256_compress_length.
Qed.

Lemma sha256_length (msg : list byte) : length (SHA256.sha256 msg) = 32%nat.
Proof.
  unfold SHA256.sha256.
  pose proof (sha256_blocks_length
                (length (SHA256.pad msg) / 64) (SHA256.pad msg) SHA256.H0 eq_refl)
    as Hw.
  fold (SHA256.digest_words msg) in Hw.
  generalize dependent (SHA256.digest_words msg). intros ws Hw.
  do 9 (destruct ws as [|? ws]; try discriminate).
  reflexivity.
Qed.

Lemma byte_to_hex (b : byte) :
  padStart 2 (ch "0") (Number_toString16 (Byte.to_N b)) =
  [hex_digit (Byte.to_N b / 16); hex_digit (Byte.to_N b mod 16)].
Proof. destruct b; reflexivity. Qed.

Lemma byte_hex_digits_lower (b : byte) :
  is_lower_hex (hex_digit (Byte.to_N b / 16)) = true /\
  is_lower_hex (hex_digit (Byte.to_N b mod 16)) = true.
Proof. destruct b; split; reflexivity. Qed.

Lemma generateKeyHash_hex (keyString : jsstring) :
  generateKeyHash keyString = truncated_hex_digest keyString.
Proof.
  unfold generateKeyHash, truncated_hex_digest, hex_of_bytes.
  induction (firstn 4 (SHA256.sha256 (TextEncoder_encode keyString)))
    as [|b bs IH]; [reflexivity |].
  cbn [map concat flat_map]. by rewrite byte_to_hex, IH.
Qed.

Lemma hex_of_bytes_length (bs : list byte) :
  length (hex_of_bytes bs) = (2 * length bs)%nat.
Proof.
  induction bs as [|b bs IH]; [reflexivity |].
  unfold hex_of_bytes in *. cbn [flat_map app length]. rewrite IH. lia.
Qed.

Lemma hex_of_bytes_lower (bs : list byte) :
  forallb is_lower_hex (hex_of_bytes bs) = true.
Proof.
  induction bs as [|b bs IH]; [reflexivity |].
  destruct (byte_hex_digits_lower b) as [H1 H2].
  unfold hex_of_bytes in *. cbn [flat_map app forallb].
  by rewrite H1, H2, IH.
Qed.

(** ** Keys: export and import *)

Lemma getRandomValues_length (n : nat) (r : entropy) :
  length (getRandomValues n r).1 = n.
Proof. unfold getRandomValues. simpl. by rewrite length_map, length_seq. Qed.

Lemma importKey_base64_encode (keyData : list byte) :
  importKey (base64_encode keyData) = subtle_importKey_raw keyData.
Proof.
  unfold importKey. rewrite atob_base64_encode. cbn [rbind ok].
  by rewrite charCodes_fromCharCode.
Qed.

(** C4.  A generated key holds 32 bytes; exporting it succeeds, importing
    the exported string gives the same key, and the public index of the
    imported key is the public index of the original. *)
Theorem importKey_exportKey_generated (r : entropy) :
  let key := (generateEncryptionKey r).1 in
  length (key_data key) = 32%nat /\
  exists keyString,
    exportKey key = ok keyString /\
    importKey keyString = ok key /\
    exists index,
      publicIndex key = ok index /\
      (let* key' := importKey keyString in publicIndex key') = ok index.
Proof.
  unfold generateEncryptionKey.
  pose proof (getRandomValues_length 32 r) as Hlen.
  destruct (getRandomValues 32 r) as [bytes r'] eqn:Hr. cbn [fst] in *.
  split; [exact Hlen |].
  exists (base64_encode bytes).
  assert (Hexp : exportKey
            {| algorithm_name := "AES-GCM"; algorithm_length := 256;
               extractable := true; usages := ["encrypt"; "decrypt"]%string;
               key_data := bytes |} = ok (base64_encode bytes)).
  { unfold exportKey, subtle_exportKey_raw. cbn [extractable key_data rbind ok].
    apply btoa_fromCharCode. }
  assert (Himp : importKey (base64_encode bytes) =
            ok {| algorithm_name := "AES-GCM"; algorithm_length := 256;
                  extractable := true; usages := ["encrypt"; "decrypt"]%string;
                  key_data := bytes |}).
  { rewrite importKey_base64_encode. unfold subtle_importKey_raw.
    rewrite Hlen. reflexivity. }
  split; [exact Hexp |]. split; [exact Himp |].
  exists (generateKeyHash (base64_encode bytes)).
  unfold publicIndex. rewrite Himp. cbn [rbind ok]. rewrite Hexp.
  split; reflexivity.
Qed.

(** ** The stand-in cipher has the laws *)

Lemma standin_bytes_eqb_eq (a b : list byte) :
  StandIn.bytes_eqb a b = true <-> a = b.
Proof.
  revert b. induction a as [|x a IH]; intros [|y b]; simpl;
    try (split; [discriminate | congruence]); [done |].
  rewrite andb_true_iff, byte_eqb_eq, IH. split.
  - by intros [-> ->].
  - by intros [= -> ->].
Qed.

Lemma standin_mask_inverse (nonce data : list byte) :
  StandIn.mask StandIn.byte_sub nonce (StandIn.mask StandIn.byte_add nonce data)
  = data.
Proof.
  revert nonce. induction data as [|d data IH]; intros [|n nonce]; simpl;
    try reflexivity.
  rewrite IH. f_equal.
  unfold StandIn.byte_sub, StandIn.byte_add.
  apply byte_of_N_intro. rewrite byte_to_of_N.
  pose proof (byte_to_N_lt d). pose proof (byte_to_N_lt n). lia.
Qed.

Lemma standin_correct : AesGcmCorrect StandIn.cipher.
Proof.
  intros key nonce data. simpl. unfold StandIn.decrypt, StandIn.encrypt.
  rewrite take_app_length, drop_app_length.
  rewrite (proj2 (standin_bytes_eqb_eq key key) eq_refl).
  by rewrite standin_mask_inverse.
Qed.



(** ** The key manager *)

Lemma importKey_truthy (ks : jsstring) (k : CryptoKey) :
  importKey ks = ok k -> truthy ks = true.
Proof. destruct ks; [discriminate | reflexivity]. Qed.

Lemma saveToSessionStorage_spec (st : State) (ks : jsstring) :
  keyString (manager st) = Some ks ->
  saveToSessionStorage st = (ok tt, set_window (persist ks) st).
Proof.
  intros Hks. destruct st as [m s w]. cbn [manager] in Hks.
  cbv [saveToSessionStorage bind get ok]. cbn [manager window]. rewrite Hks.
  unfold set_window, persist. cbn [manager stores window].
  destruct (sessionStorage w) as [storage|] eqn:Hs; [| reflexivity].
  destruct (truthy ks); [| reflexivity]. cbn [andb].
  unfold try_catch, Storage_setItem. cbn [window]. rewrite Hs.
  destruct (_ <=? _)%nat; reflexivity.
Qed.

Lemma setKey_ok (ks : jsstring) (k : CryptoKey) (st : State) :
  importKey ks = ok k -> setKey ks st = (ok tt, adopted k ks st).
Proof.
  intros Hk. unfold ok in Hk. cbv [setKey bind lift modify get ok]. rewrite Hk.
  rewrite (saveToSessionStorage_spec _ ks) by reflexivity.
  reflexivity.
Qed.

Lemma setKey_fail (ks : jsstring) (e : exn) (st : State) :
  importKey ks = inl e -> setKey ks st = (inl e, st).
Proof. intros Hk. cbv [setKey bind lift]. by rewrite Hk. Qed.

(** C5.  [generateKeyHash] is a function of the key string alone: it reads
    neither the random source nor any state, so every call on a key string
    gives the same value, and whatever the state [setKey] is called in, the
    key hash it stores is that value.  The value is the first four bytes of
    the SHA-256 digest of the UTF-8 bytes of the key string, written as
    eight lower-case hexadecimal characters. *)
Theorem generateKeyHash_truncated_digest (keyString : jsstring) :
  generateKeyHash keyString =
    hex_of_bytes (firstn 4 (SHA256.sha256 (TextEncoder_encode keyString))) /\
  length (generateKeyHash keyString) = 8%nat /\
  forallb is_lower_hex (generateKeyHash keyString) = true /\
  forall st,
    (exists e, setKey keyString st = (inl e, st)) \/
    (keyHash (manager (setKey keyString st).2) = Some (generateKeyHash keyString) /\
     keyHashStore (stores (setKey keyString st).2) = Some (generateKeyHash keyString)).
Proof.
  split; [apply generateKeyHash_hex |].
  split; [| split].
  - rewrite generateKeyHash_hex. unfold truncated_hex_digest.
    rewrite hex_of_bytes_length, length_firstn, sha256_length. reflexivity.
  - rewrite generateKeyHash_hex. apply hex_of_bytes_lower.
  - intros st. destruct (importKey keyString) as [e|k] eqn:Hk.
    + left. exists e. by apply setKey_fail.
    + right. rewrite (setKey_ok keyString k) by done. split; reflexivity.
Qed.

Lemma loadFromUrl_spec (st : State) :
  loadFromUrl st =
  match usable (url_key st) with
  | Some (ks, k) => (ok true, adopted_from_url k ks st)
  | None => (ok false, st)
  end.
Proof.
  cbv [loadFromUrl bind get ok]. unfold url_key.
  destruct (starts_with_hash (location_hash (window st))); [| reflexivity].
  cbn [negb].
  destruct (URLSearchParams_get _ _) as [ks|]; [| reflexivity].
  destruct (truthy ks); [| reflexivity].
  unfold usable, try_catch.
  destruct (importKey ks) as [e|k] eqn:Hk.
  - cbv [bind]. by rewrite (setKey_fail ks e).
  - cbv [bind]. by rewrite (setKey_ok ks k).
Qed.

Lemma loadFromSessionStorage_spec (st : State) :
  loadFromSessionStorage st =
  match usable (session_key st) with
  | Some (ks, k) => (ok true, adopted_from_session k ks st)
  | None => (ok false, st)
  end.
Proof.
  cbv [loadFromSessionStorage bind get ok]. unfold session_key.
  destruct (sessionStorage (window st)) as [storage|]; [| reflexivity].
  unfold try_catch.
  destruct (items storage !! SESSION_STORAGE_KEY) as [ks|]; [| reflexivity].
  destruct (truthy ks); [| reflexivity].
  unfold usable.
  destruct (importKey ks) as [e|k] eqn:Hk.
  - cbv [bind]. by rewrite (setKey_fail ks e).
  - cbv [bind]. by rewrite (setKey_ok ks k).
Qed.

Lemma exportKey_generated (r : entropy) :
  exportKey (generateEncryptionKey r).1 =
    ok (base64_encode (key_data (generateEncryptionKey r).1)) /\
  importKey (base64_encode (key_data (generateEncryptionKey r).1)) =
    ok (generateEncryptionKey r).1.
Proof.
  unfold generateEncryptionKey.
  pose proof (getRandomValues_length 32 r) as Hlen.
  destruct (getRandomValues 32 r) as [bytes r']. cbn [fst] in *. split.
  - unfold exportKey, subtle_exportKey_raw. cbn [extractable key_data rbind ok].
    apply btoa_fromCharCode.
  - cbn [key_data]. rewrite importKey_base64_encode.
    unfold subtle_importKey_raw. rewrite Hlen. reflexivity.
Qed.

Lemma generateNewKey_spec (st : State) :
  generateNewKey st = (ok tt, adopted_generated st).
Proof.
  destruct (exportKey_generated (random (window st))) as [Hexp Himp].
  cbv [generateNewKey bind get ok modify lift]. unfold adopted_generated.
  destruct (generateEncryptionKey (random (window st))) as [k r].
  cbn [fst] in *. unfold ok in Hexp. rewrite Hexp.
  by rewrite (setKey_ok _ k).
Qed.

Lemma initialize_spec (st : State) :
  initialize st =
  match usable (url_key st) with
  | Some (ks, k) => (ok from_url, adopted_from_url k ks st)
  | None =>
      match usable (session_key st) with
      | Some (ks, k) => (ok from_session, adopted_from_session k ks st)
      | None => (ok generated, adopted_generated st)
      end
  end.
Proof.
  cbv [initialize bind]. rewrite loadFromUrl_spec.
  destruct (usable (url_key st)) as [[ks k]|]; [reflexivity |].
  cbv [ok]. rewrite loadFromSessionStorage_spec.
  destruct (usable (session_key st)) as [[ks k]|]; [reflexivity |].
  cbv [ok]. by rewrite generateNewKey_spec.
Qed.

Lemma persist_stores (ks : jsstring) (w : Window) (s : Storage) :
  truthy ks = true ->
  sessionStorage w = Some s ->
  (String.length SESSION_STORAGE_KEY + length ks <= quota s)%nat ->
  exists s', sessionStorage (persist ks w) = Some s' /\
             items s' !! SESSION_STORAGE_KEY = Some ks.
Proof.
  intros Ht Hs Hq. unfold persist. rewrite Hs, Ht.
  destruct (Nat.leb_spec (String.length SESSION_STORAGE_KEY + length ks) (quota s));
    [| lia].
  cbn [andb set_sessionStorage sessionStorage].
  eexists. split; [reflexivity |]. cbn [items]. apply lookup_insert_eq.
Qed.

Lemma persist_location (ks : jsstring) (w : Window) :
  location_hash (persist ks w) = location_hash w /\
  location_base (persist ks w) = location_base w /\
  random (persist ks w) = random w.
Proof.
  unfold persist. destruct (sessionStorage w); [| done].
  destruct (_ && _); done.
Qed.

(** C6 (amended).  [initialize] always returns one of its three outcomes,
    chosen in this order: the key of the URL fragment when [importKey]
    accepts it, else the key of session storage when [importKey] accepts it,
    else a freshly generated key.  Afterwards that key is held together with
    its serialized form; the fragment is removed exactly when it supplied the
    key; and the serialized key is in session storage whenever the page has
    a session storage whose quota takes the item. *)
Theorem initialize_acquisition_order (st : State) :
  exists outcome st' k ks,
    initialize st = (ok outcome, st') /\
    match usable (url_key st), usable (session_key st) with
    | Some source, _ => outcome = from_url /\ source = (ks, k)
    | None, Some source => outcome = from_session /\ source = (ks, k)
    | None, None =>
        outcome = generated /\
        k = (generateEncryptionKey (random (window st))).1 /\
        exportKey k = ok ks
    end /\
    key (manager st') = Some k /\
    keyString (manager st') = Some ks /\
    importKey ks = ok k /\
    location_hash (window st') =
      (if outcome is from_url then [] else location_hash (window st)) /\
    forall s,
      sessionStorage (window st) = Some s ->
      (String.length SESSION_STORAGE_KEY + length ks <= quota s)%nat ->
      exists s', sessionStorage (window st') = Some s' /\
                 items s' !! SESSION_STORAGE_KEY = Some ks.
Proof.
  rewrite initialize_spec.
  destruct (usable (url_key st)) as [[ks k]|] eqn:Hurl;
    [| destruct (usable (session_key st)) as [[ks k]|] eqn:Hses].
  - exists from_url, (adopted_from_url k ks st), k, ks.
    assert (Hk : importKey ks = ok k).
    { unfold usable in Hurl. destruct (url_key st) as [ks'|]; [| done].
      destruct (importKey ks') as [|k'] eqn:E; [done |]. by injection Hurl as -> ->. }
    repeat split; try done.
    intros s Hs Hq. cbn.
      apply (persist_stores _ _ s); [by eapply importKey_truthy | exact Hs | exact Hq].
  - exists from_session, (adopted_from_session k ks st), k, ks.
    assert (Hk : importKey ks = ok k).
    { unfold usable in Hses. destruct (session_key st) as [ks'|]; [| done].
      destruct (importKey ks') as [|k'] eqn:E; [done |]. by injection Hses as -> ->. }
    repeat split; try done.
    + cbn. apply persist_location.
    + intros s Hs Hq. cbn.
      apply (persist_stores _ _ s); [by eapply importKey_truthy | exact Hs | exact Hq].
  - destruct (exportKey_generated (random (window st))) as [Hexp Himp].
    unfold adopted_generated.
    destruct (generateEncryptionKey (random (window st))) as [k r] eqn:Hg.
    cbn [fst] in *.
    exists generated, (adopted k (base64_encode (key_data k))
                         (set_window (set_random r) st)),
      k, (base64_encode (key_data k)).
    repeat split; try done.
    + cbn. by rewrite (proj1 (persist_location _ _)).
    + intros s Hs Hq. cbn.
      apply (persist_stores _ _ s); [by eapply importKey_truthy | exact Hs | exact Hq].
Qed.

(** C6, counterexample.  With a session storage that refuses the write,
    [initialize] generates a key and holds it, and session storage has no
    entry for it afterwards. *)
Lemma initialize_not_persisted_when_storage_refuses :
  exists st' k,
    initialize (initial_state refusing_window) = (ok generated, st') /\
    key (manager st') = Some k /\
    exists s', sessionStorage (window st') = Some s' /\
               items s' !! SESSION_STORAGE_KEY = None.
Proof.
  rewrite initialize_spec.
  eexists _, _. split; [vm_compute; reflexivity |].
  split; [reflexivity |].
  eexists. split; reflexivity.
Qed.

Lemma usable_Some (offer : option jsstring) (ks : jsstring) (k : CryptoKey) :
  usable offer = Some (ks, k) -> offer = Some ks /\ importKey ks = ok k.
Proof.
  unfold usable. destruct offer as [ks'|]; [| done].
  destruct (importKey ks') as [e|k'] eqn:E; [done |].
  by intros [= -> ->].
Qed.

Lemma url_key_no_hash (st : State) :
  location_hash (window st) = [] -> url_key st = None.
Proof. unfold url_key. by intros ->. Qed.

Lemma persist_again (ks h : jsstring) (w : Window) :
  persist ks (set_location_hash h (persist ks w)) =
  set_location_hash h (persist ks w).
Proof.
  unfold persist. destruct (sessionStorage w) as [s|] eqn:Hs.
  - destruct (truthy ks && _) eqn:Hc.
    + cbn [set_location_hash set_sessionStorage sessionStorage quota items].
      rewrite Hc. unfold set_sessionStorage, set_location_hash. cbn.
      by rewrite insert_insert_eq.
    + cbn [set_location_hash sessionStorage]. by rewrite Hs, Hc.
  - cbn [set_location_hash sessionStorage]. by rewrite Hs.
Qed.

(** C8.  [loadFromUrl] never throws.  When the fragment is missing or empty,
    or has no non-empty field [key], or has one that [importKey] refuses, it
    answers [false] and leaves the whole state as it was.  Running it again changes nothing: neither on the page
    as the first run left it, nor when the page shows the same fragment
    again. *)
Theorem loadFromUrl_total_idempotent (st : State) :
  exists adoptedKey st',
    loadFromUrl st = (ok adoptedKey, st') /\
    (location_hash (window st) = [] -> adoptedKey = false /\ st' = st) /\
    (url_key st = None -> adoptedKey = false /\ st' = st) /\
    (usable (url_key st) = None -> adoptedKey = false /\ st' = st) /\
    loadFromUrl st' = (ok false, st') /\
    (loadFromUrl
       (set_window (set_location_hash (location_hash (window st))) st')).2 = st'.
Proof.
  rewrite loadFromUrl_spec.
  destruct (usable (url_key st)) as [[ks k]|] eqn:Hu.
  - apply usable_Some in Hu as [Hurl Hk].
    exists true, (adopted_from_url k ks st).
    split; [reflexivity |]. split; [| split; [| split; [| split]]].
    + intros Hh. by rewrite (url_key_no_hash st Hh) in Hurl.
    + intros Hn. by rewrite Hn in Hurl.
    + intros Hn. discriminate Hn.
    + rewrite loadFromUrl_spec. by rewrite url_key_no_hash.
    + rewrite loadFromUrl_spec.
      assert (Hsame : url_key
                (set_window (set_location_hash (location_hash (window st)))
                   (adopted_from_url k ks st)) = Some ks).
      { rewrite <- Hurl. reflexivity. }
      rewrite Hsame. unfold usable. rewrite Hk. unfold ok. cbn [snd].
      unfold adopted_from_url, adopted, set_window, set_stores.
      cbn [manager stores window keyLoadedFromExternal
           set_keyLoadedFromExternal encryptionKeyStore keyHashStore].
      change (set_location_hash (location_hash (window st))
                (set_location_hash [] (persist ks (window st))))
        with (set_location_hash (location_hash (window st))
                (persist ks (window st))).
      rewrite persist_again. reflexivity.
  - exists false, st.
    split; [reflexivity |]. split; [done |]. split; [done |]. split; [done |].
    rewrite loadFromUrl_spec, Hu. split; [reflexivity |].
    replace (set_window (set_location_hash (location_hash (window st))) st)
      with st by (by destruct st as [? ? []]).
    by rewrite loadFromUrl_spec, Hu.
Qed.

(** ** The invariant of the key manager *)

Lemma consistent_adopted (k : CryptoKey) (ks : jsstring) (st : State) :
  importKey ks = ok k -> consistent (adopted k ks st).
Proof.
  intros Hk k' [= <-]. exists ks. by repeat split.
Qed.

Lemma consistent_same_fields (st st' : State) :
  manager st' = manager st ->
  encryptionKeyStore (stores st') = encryptionKeyStore (stores st) ->
  keyHashStore (stores st') = keyHashStore (stores st) ->
  consistent st -> consistent st'.
Proof.
  unfold consistent. intros -> -> ->. auto.
Qed.

(** What every operation does to the state: nothing, or the adoption of a
    key that [importKey] accepts, up to fields the invariant does not read. *)
Lemma run_cases (op : operation) (st : State) :
  run op st = st \/
  exists k ks st0,
    importKey ks = ok k /\
    manager (run op st) = manager (adopted k ks st0) /\
    encryptionKeyStore (stores (run op st)) = Some k /\
    keyHashStore (stores (run op st)) = Some (generateKeyHash ks).
Proof.
  destruct op as [|ks| |]; cbn [run].
  - rewrite initialize_spec.
    destruct (usable (url_key st)) as [[ks k]|] eqn:Hu;
      [| destruct (usable (session_key st)) as [[ks k]|] eqn:Hs].
    + apply usable_Some in Hu as [_ Hk]. right. by exists k, ks, st.
    + apply usable_Some in Hs as [_ Hk]. right. by exists k, ks, st.
    + destruct (exportKey_generated (random (window st))) as [_ Himp].
      right. cbn [snd]. unfold adopted_generated.
      destruct (generateEncryptionKey (random (window st))) as [k r].
      by exists k, (base64_encode (key_data k)), st.
  - destruct (importKey ks) as [e|k] eqn:Hk.
    + left. by rewrite (setKey_fail ks e).
    + right. rewrite (setKey_ok ks k) by done. by exists k, ks, st.
  - destruct (exportKey_generated (random (window st))) as [_ Himp].
    right. rewrite generateNewKey_spec. cbn [snd]. unfold adopted_generated.
    destruct (generateEncryptionKey (random (window st))) as [k r].
    by exists k, (base64_encode (key_data k)), st.
  - unfold hashChangeListener. rewrite loadFromUrl_spec.
    destruct (usable (url_key st)) as [[ks k]|] eqn:Hu.
    + apply usable_Some in Hu as [_ Hk]. right. by exists k, ks, st.
    + by left.
Qed.

Lemma run_consistent (op : operation) (st : State) :
  consistent st -> consistent (run op st).
Proof.
  intros Hst.
  destruct (run_cases op st) as [-> | (k & ks & st0 & Hk & Hm & Hs1 & Hs2)];
    [exact Hst |].
  intros k'. rewrite Hm. cbn. intros [= <-]. exists ks. by repeat split.
Qed.

Lemma run_keyed (op : operation) (st : State) :
  keyed st -> keyed (run op st).
Proof.
  intros Hst.
  destruct (run_cases op st) as [-> | (k & ks & st0 & Hk & Hm & _)];
    [exact Hst |].
  right. exists k, ks. rewrite Hm. by repeat split.
Qed.

Lemma reachable_invariant (st : State) :
  reachable st -> consistent st /\ keyed st.
Proof.
  induction 1 as [w | op st _ [IHc IHk] | w st _ [IHc IHk]].
  - split; [intros k [=] | by left].
  - split; [by apply run_consistent | by apply run_keyed].
  - split; [by apply (consistent_same_fields st) | exact IHk].
Qed.

(** C9.  Every operation that changes the key keeps the fields of the key
    manager consistent: when a key is held afterwards, the key string is
    held too, the key is what [importKey] makes of the key string, the key
    hash is [generateKeyHash] of the key string, and the two stores hold
    that key and that hash. *)
Theorem operations_keep_fields_consistent (op : operation) (st : State) :
  consistent st -> consistent (run op st).
Proof.
  intros Hst k Hkey.
  destruct (run_cases op st) as [E | (k' & ks & st0 & Hk & Hm & Hs1 & Hs2)].
  - rewrite E in *. by apply Hst.
  - rewrite Hm in *. cbn in Hkey. injection Hkey as <-.
    exists ks. cbn. by repeat split.
Qed.

(** ** Share links *)

Lemma is_ascii_lt (c : u16) : is_ascii c = true -> u16_to_N c < 128 /\ c = ch (lo c).
Proof.
  destruct c as [h l]. unfold is_ascii, u16_to_N, ch. cbn [hi lo].
  rewrite andb_true_iff, byte_eqb_eq. intros [-> Hl].
  change (Byte.to_N x00) with 0. split; [lia | reflexivity].
Qed.

Lemma index_from_In (c : u16) (l : jsstring) (i n : N) :
  index_from c l i = Some n -> In c l.
Proof.
  revert i. induction l as [|d l IH]; intros i; simpl; [done |].
  destruct (u16_eqb c d) eqn:E.
  - apply u16_eqb_eq in E. auto.
  - intros H. right. by eapply IH.
Qed.

Lemma sextet_of_char_ascii (c : u16) (n : N) :
  sextet_of_char c = Some n -> is_ascii c = true.
Proof.
  intros H. apply index_from_In in H.
  assert (Hall : forallb is_ascii base64_alphabet = true) by reflexivity.
  rewrite forallb_forall in Hall. by apply Hall.
Qed.

Lemma is_ascii_whitespace_ascii (c : u16) :
  is_ascii_whitespace c = true -> is_ascii c = true.
Proof.
  unfold is_ascii_whitespace. cbn [existsb].
  rewrite !orb_true_iff, !u16_eqb_eq.
  intros H. repeat (destruct H as [-> | H]; [reflexivity |]). discriminate.
Qed.

Lemma strip_padding_In (c : u16) (l : jsstring) :
  In c l -> In c (strip_padding l) \/ c = pad_char.
Proof.
  unfold strip_padding. intros Hin.
  destruct (rev l) as [|p [|q r]] eqn:Hr; [by left | |].
  - destruct (u16_eqb p pad_char) eqn:Ep; [| by left].
    apply u16_eqb_eq in Ep. right.
    apply in_rev in Hin. rewrite Hr in Hin. destruct Hin as [<- | []]. done.
  - destruct (u16_eqb p pad_char) eqn:Ep; [| by left].
    apply u16_eqb_eq in Ep.
    apply in_rev in Hin. rewrite Hr in Hin.
    destruct Hin as [<- | Hin]; [by right |].
    destruct (u16_eqb q pad_char) eqn:Eq.
    + apply u16_eqb_eq in Eq. destruct Hin as [<- | Hin]; [by right |].
      left. by apply in_rev in Hin.
    + left. apply in_rev. by rewrite rev_involutive.
Qed.

Lemma base64_decode_ascii (s : jsstring) (bs : list byte) :
  base64_decode s = Some bs -> forallb is_ascii s = true.
Proof.
  unfold base64_decode.
  set (data := List.filter (fun c => negb (is_ascii_whitespace c)) s).
  set (data' := if (length data mod 4 =? 0)%nat then strip_padding data else data).
  destruct (length data' mod 4 =? 1)%nat; [done |].
  destruct (mapM sextet_of_char data') as [sx|] eqn:Hm; [| done].
  intros _. apply forallb_forall. intros c Hc.
  destruct (is_ascii_whitespace c) eqn:Hw;
    [by apply is_ascii_whitespace_ascii |].
  assert (Hd : In c data).
  { apply filter_In. by rewrite Hw. }
  assert (Hd' : In c data' \/ c = pad_char).
  { unfold data'. destruct (_ =? _)%nat; [by apply strip_padding_In | by left]. }
  destruct Hd' as [Hd' | ->]; [| reflexivity].
  apply mapM_Some_1 in Hm.
  apply list_elem_of_In, list_elem_of_lookup in Hd' as [i Hi].
  destruct (Forall2_lookup_l _ _ _ _ c Hm Hi) as (n & _ & Hn).
  by eapply sextet_of_char_ascii.
Qed.

Lemma importKey_ascii (ks : jsstring) (k : CryptoKey) :
  importKey ks = ok k -> forallb is_ascii ks = true.
Proof.
  unfold importKey, atob.
  destruct (base64_decode ks) as [bs|] eqn:Hd; [| done].
  intros _. by eapply base64_decode_ascii.
Qed.

Lemma ascii_not_surrogate (c : u16) :
  is_ascii c = true ->
  is_lead_surrogate (u16_to_N c) = false /\
  is_trail_surrogate (u16_to_N c) = false.
Proof.
  intros Hc. apply is_ascii_lt in Hc as [Hc _].
  unfold is_lead_surrogate, is_trail_surrogate. lia.
Qed.

Lemma ascii_code_points (s : jsstring) :
  forallb is_ascii s = true ->
  code_points s = map u16_to_N s /\ well_formed s = true.
Proof.
  induction s as [|c s IH]; [done |].
  cbn [forallb]. rewrite andb_true_iff. intros [Hc Hs].
  destruct (IH Hs) as [IH1 IH2].
  destruct (ascii_not_surrogate c Hc) as [Hl Ht].
  cbn [code_points well_formed map]. rewrite Hl, Ht, IH1, IH2. done.
Qed.

Lemma flat_map_map {A B C} (f : B -> list C) (g : A -> B) (l : list A) :
  flat_map f (map g l) = flat_map (fun x => f (g x)) l.
Proof. induction l as [|x l IH]; simpl; [done | by rewrite IH]. Qed.

Lemma flat_map_ext_forallb {A B} (f g : A -> list B) (p : A -> bool) (l : list A) :
  (forall x, p x = true -> f x = g x) ->
  forallb p l = true -> flat_map f l = flat_map g l.
Proof.
  intros Hfg. induction l as [|x l IH]; [done |].
  cbn [forallb flat_map]. rewrite andb_true_iff. intros [Hx Hl].
  by rewrite (Hfg x Hx), (IH Hl).
Qed.

Lemma utf8_encode_ascii (c : u16) :
  is_ascii c = true -> utf8_encode_code_point (u16_to_N c) = [lo c].
Proof.
  intros Hc. destruct (is_ascii_lt c Hc) as [Hlt Hch].
  unfold utf8_encode_code_point.
  destruct (N.ltb_spec (u16_to_N c) 0x80); [| lia].
  f_equal. apply byte_of_N_intro.
  rewrite Hch at 1. unfold u16_to_N, ch. cbn [hi lo].
  change (Byte.to_N x00) with 0. pose proof (byte_to_N_lt (lo c)). lia.
Qed.

Lemma encodeURIComponent_ascii (s : jsstring) :
  forallb is_ascii s = true ->
  encodeURIComponent s = ok (flat_map encode_ascii s).
Proof.
  intros Hs. destruct (ascii_code_points s Hs) as [Hcp Hwf].
  unfold encodeURIComponent. rewrite Hwf, Hcp, flat_map_map. f_equal.
  apply (flat_map_ext_forallb _ _ is_ascii); [| exact Hs].
  intros c Hc. unfold encode_ascii.
  rewrite u16_of_to_N, utf8_encode_ascii by done.
  cbn [flat_map]. by rewrite app_nil_r.
Qed.

Lemma TextEncoder_encode_ascii (s : jsstring) :
  forallb is_ascii s = true -> TextEncoder_encode s = map lo s.
Proof.
  intros Hs. destruct (ascii_code_points s Hs) as [Hcp _].
  unfold TextEncoder_encode. rewrite Hcp, flat_map_map.
  rewrite (flat_map_ext_forallb _ (fun c => [lo c]) is_ascii);
    [| by intros c Hc; apply utf8_encode_ascii | exact Hs].
  clear. induction s as [|c s IH]; simpl; [done | by rewrite IH].
Qed.

Lemma utf8_decode_without_bom_encode (s : jsstring) :
  well_formed s = true ->
  utf8_decode_without_bom (TextEncoder_encode s) = s.
Proof.
  intros Hwf. unfold utf8_decode_without_bom, TextEncoder_encode.
  rewrite utf8_decode_encode by apply code_points_scalar.
  by apply utf16_of_code_points_well_formed.
Qed.

Lemma ascii_cases (P : u16 -> Prop) :
  (forall b : byte, is_ascii (ch b) = true -> P (ch b)) ->
  forall c, is_ascii c = true -> P c.
Proof.
  intros HP c Hc. destruct (is_ascii_lt c Hc) as [_ E].
  rewrite E. apply HP. by rewrite <- E.
Qed.

Lemma percent_encode_byte_safe (b : byte) :
  forallb is_uri_safe (percent_encode_byte b) = true.
Proof. destruct b; reflexivity. Qed.

Lemma encode_ascii_safe (c : u16) :
  is_ascii c = true -> forallb is_uri_safe (encode_ascii c) = true.
Proof.
  intros Hc. unfold encode_ascii.
  destruct (is_uri_unreserved (u16_to_N c)) eqn:Hu.
  - cbn [forallb]. unfold is_uri_safe. by rewrite Hc, Hu.
  - apply percent_encode_byte_safe.
Qed.

Lemma forallb_flat_map {A B} (p : B -> bool) (q : A -> bool) (f : A -> list B)
    (l : list A) :
  (forall x, q x = true -> forallb p (f x) = true) ->
  forallb q l = true -> forallb p (flat_map f l) = true.
Proof.
  intros Hf. induction l as [|x l IH]; [done |].
  cbn [forallb flat_map]. rewrite andb_true_iff. intros [Hx Hl].
  rewrite forallb_app, (Hf x Hx), (IH Hl). done.
Qed.

Lemma uri_safe_properties (c : u16) :
  is_uri_safe c = true ->
  is_ascii c = true /\ is_fragment_stable c = true /\
  Byte.eqb (lo c) "&" = false /\ Byte.eqb (lo c) "+" = false.
Proof.
  intros Hc.
  assert (Ha : is_ascii c = true).
  { unfold is_uri_safe in Hc. by apply andb_true_iff in Hc as [? _]. }
  revert c Ha Hc. apply (ascii_cases (fun c => is_uri_safe c = true -> _)).
  intros b _. destruct b; vm_compute; intros H; try discriminate H; done.
Qed.

Lemma forallb_imp {A} (p q : A -> bool) (l : list A) :
  (forall x, p x = true -> q x = true) ->
  forallb p l = true -> forallb q l = true.
Proof.
  intros Hpq. rewrite !forallb_forall. auto.
Qed.

Lemma url_hash_of_stable (x : jsstring) :
  x <> [] -> forallb is_fragment_stable x = true ->
  url_hash_of (ch "#" :: x) = ch "#" :: x.
Proof.
  intros Hne Hx.
  assert (Ha : forallb is_ascii x = true).
  { revert Hx. apply forallb_imp. intros c. unfold is_fragment_stable.
    rewrite andb_true_iff. tauto. }
  destruct (ascii_code_points x Ha) as [Hcp _].
  unfold url_hash_of. cbv beta iota zeta. rewrite u16_eqb_refl, Hcp.
  rewrite filter_all_true.
  2:{ apply Forall_map, List.Forall_forall. intros c Hc.
      rewrite forallb_forall in Hx. specialize (Hx c Hc).
      unfold is_fragment_stable, in_fragment_encode_set in Hx.
      destruct (is_ascii_lt c) as [Hlt _].
      { by apply andb_true_iff in Hx as [? _]. }
      cbn [existsb]. lia. }
  destruct x as [|c x]; [done |]. cbn [map].
  f_equal. rewrite <- (map_cons u16_to_N), flat_map_map.
  rewrite (flat_map_ext_forallb _ (fun c => [c]) is_fragment_stable);
    [| | exact Hx].
  - generalize (c :: x). clear. intros l.
    induction l as [|c l IH]; simpl; [done | by rewrite IH].
  - intros d Hd. unfold is_fragment_stable in Hd.
    apply andb_true_iff in Hd as [_ Hd]. apply negb_true_iff in Hd.
    by rewrite Hd, u16_of_to_N.
Qed.

Lemma split_bytes_none (sep : byte) (bs : list byte) :
  forallb (fun b => negb (Byte.eqb b sep)) bs = true ->
  split_bytes sep bs = [bs].
Proof.
  induction bs as [|b bs IH]; [done |].
  cbn [forallb]. rewrite andb_true_iff, negb_true_iff. intros [Hb Hbs].
  cbn [split_bytes]. by rewrite (IH Hbs), Hb.
Qed.

Lemma percent_decode_encode_ascii (c : u16) (rest : list byte) :
  is_ascii c = true ->
  percent_decode (map lo (encode_ascii c) ++ rest) = lo c :: percent_decode rest.
Proof.
  revert c. apply (ascii_cases (fun c => percent_decode _ = _)).
  intros b _. destruct b; reflexivity.
Qed.

Lemma percent_decode_encode (s : jsstring) :
  forallb is_ascii s = true ->
  percent_decode (map lo (flat_map encode_ascii s)) = map lo s.
Proof.
  induction s as [|c s IH]; [done |].
  cbn [forallb flat_map map]. rewrite andb_true_iff. intros [Hc Hs].
  rewrite map_app, percent_decode_encode_ascii by done.
  by rewrite (IH Hs).
Qed.

Lemma plus_to_space_safe (t : jsstring) :
  forallb is_uri_safe t = true -> plus_to_space (map lo t) = map lo t.
Proof.
  induction t as [|c t IH]; [done |].
  cbn [forallb map plus_to_space]. rewrite andb_true_iff. intros [Hc Ht].
  destruct (uri_safe_properties c Hc) as (_ & _ & _ & Hplus).
  unfold plus_to_space in *. cbn [map]. by rewrite Hplus, (IH Ht).
Qed.

Lemma forallb_map_comp {A B} (p : B -> bool) (f : A -> B) (l : list A) :
  forallb p (map f l) = forallb (fun x => p (f x)) l.
Proof. induction l as [|x l IH]; simpl; [done | by rewrite IH]. Qed.

(** The fragment [getShareUrl] writes is read back by [URLSearchParams] as
    the single field [key] with the key string as its value. *)
Lemma URLSearchParams_share_fragment (ks : jsstring) :
  forallb is_ascii ks = true ->
  URLSearchParams (js "key=" ++ flat_map encode_ascii ks) = [(js "key", ks)].
Proof.
  intros Hks.
  set (t := flat_map encode_ascii ks).
  assert (Ht : forallb is_uri_safe t = true).
  { apply (forallb_flat_map _ is_ascii); [apply encode_ascii_safe | exact Hks]. }
  assert (Hta : forallb is_ascii t = true).
  { revert Ht. apply forallb_imp. intros c Hc. by apply uri_safe_properties. }
  unfold URLSearchParams.
  change (js "key=" ++ t) with (ch "k" :: (js "ey=" ++ t)).
  cbv beta iota zeta. change (u16_eqb (ch "k") (ch "?")) with false.
  cbv iota.
  change (ch "k" :: (js "ey=" ++ t)) with (js "key=" ++ t).
  rewrite TextEncoder_encode_ascii by (rewrite forallb_app; by rewrite Hta).
  rewrite map_app. unfold urlencoded_parse.
  rewrite split_bytes_none.
  2:{ rewrite forallb_app. apply andb_true_iff. split; [reflexivity |].
      rewrite forallb_map_comp. revert Ht. apply forallb_imp. intros c Hc.
      destruct (uri_safe_properties c Hc) as (_ & _ & Hamp & _).
      by rewrite Hamp. }
  cbn [flat_map]. rewrite app_nil_r.
  change (map lo (js "key=") ++ map lo t)
    with ("k"%byte :: "e"%byte :: "y"%byte :: "="%byte :: map lo t).
  change (cut_at "=" ("k"%byte :: "e"%byte :: "y"%byte :: "="%byte :: map lo t))
    with (Some (["k"%byte; "e"%byte; "y"%byte], map lo t)).
  cbv iota beta.
  rewrite plus_to_space_safe by done.
  unfold t at 1. rewrite percent_decode_encode by done.
  rewrite <- TextEncoder_encode_ascii by done.
  rewrite utf8_decode_without_bom_encode by (by apply ascii_code_points).
  reflexivity.
Qed.

Lemma getShareUrl_keyed (st : State) (k : CryptoKey) (ks : jsstring) :
  keyString (manager st) = Some ks -> importKey ks = ok k ->
  getShareUrl st =
    ok (location_base (window st) ++ ch "#" :: (js "key=" ++ flat_map encode_ascii ks)).
Proof.
  intros Hks Hk. unfold getShareUrl. rewrite Hks.
  rewrite (importKey_truthy ks k Hk).
  pose proof (importKey_ascii ks k Hk) as Ha.
  rewrite encodeURIComponent_ascii by done. cbn [rbind ok].
  change (js "#key=" ++ ?e) with (ch "#" :: (js "key=" ++ e)).
  rewrite url_hash_of_stable; [reflexivity | done |].
  rewrite forallb_app. apply andb_true_iff. split; [reflexivity |].
  apply (forallb_flat_map _ is_ascii); [| exact Ha].
  intros c Hc. generalize (encode_ascii_safe c Hc). apply forallb_imp.
  intros d Hd. by apply uri_safe_properties.
Qed.

Lemma exportKey_importKey_canonical (bytes : list byte) (k : CryptoKey) :
  importKey (base64_encode bytes) = ok k ->
  exportKey k = ok (base64_encode bytes).
Proof.
  rewrite importKey_base64_encode. unfold subtle_importKey_raw.
  destruct (_ || _); [| done]. intros [= <-].
  unfold exportKey, subtle_exportKey_raw. cbn [extractable key_data rbind ok].
  apply btoa_fromCharCode.
Qed.

(** C7 (amended).  In every state a session reaches, [getShareUrl] throws
    "No key available for sharing" exactly when no key is held.  When a key
    is held it returns the URL of the page with a fragment that
    [URLSearchParams] reads as the single field [key], whose value is the key
    string the manager holds, the string the held key was imported from.
    That string is the export of the key when it is the base64 encoding of
    some bytes, as it is after [generateNewKey]. *)
Theorem getShareUrl_fragment (st : State) :
  reachable st ->
  (getShareUrl st = throw (Error "No key available for sharing") <->
   key (manager st) = None) /\
  (forall k, key (manager st) = Some k ->
     exists ks fragment,
       keyString (manager st) = Some ks /\
       importKey ks = ok k /\
       getShareUrl st = ok (location_base (window st) ++ ch "#" :: fragment) /\
       URLSearchParams fragment = [(js "key", ks)] /\
       forall bytes, ks = base64_encode bytes -> exportKey k = ok ks) /\
  (exists k bytes,
     key (manager (run GenerateNewKey st)) = Some k /\
     keyString (manager (run GenerateNewKey st)) = Some (base64_encode bytes)).
Proof.
  intros Hr. apply reachable_invariant in Hr as [_ Hkeyed].
  split; [| split].
  - destruct Hkeyed as [[Hk Hks] | (k & ks & Hk & Hks & Himp)].
    + unfold getShareUrl. rewrite Hks. done.
    + rewrite (getShareUrl_keyed st k ks Hks Himp), Hk. done.
  - intros k Hk.
    destruct Hkeyed as [[Hk' _] | (k' & ks & Hk' & Hks & Himp)];
      [congruence |].
    assert (k' = k) as -> by congruence.
    exists ks, (js "key=" ++ flat_map encode_ascii ks).
    split; [exact Hks |]. split; [exact Himp |].
    split; [by apply (getShareUrl_keyed st k) |].
    split.
    + apply URLSearchParams_share_fragment. by eapply importKey_ascii.
    + intros bytes ->. by apply exportKey_importKey_canonical.
  - cbn [run]. rewrite generateNewKey_spec. cbn [snd]. unfold adopted_generated.
    destruct (generateEncryptionKey (random (window st))) as [k r].
    by exists k, (key_data k).
Qed.

(** C7, counterexample.  A session opened through a link whose key lacks the
    padding holds that string; the share link repeats it, and it is not the
    export of the held key. *)
Lemma getShareUrl_repeats_unpadded_key :
  let st := run Initialize (initial_state unpadded_link_window) in
  reachable st /\
  exists k,
    key (manager st) = Some k /\
    exportKey k = ok (js "AAAAAAAAAAAAAAAAAAAAAAAAAAAAAAAAAAAAAAAAAAA=") /\
    getShareUrl st =
      ok (js "https://tinybox.example/#key=AAAAAAAAAAAAAAAAAAAAAAAAAAAAAAAAAAAAAAAAAAA").
Proof.
  split; [apply reachable_run, reachable_initial |].
  eexists. split; [vm_compute; reflexivity |].
  split; vm_compute; reflexivity.
Qed.

(** ** Encryption and decryption *)

Section Aead.

Context {G : AesGcm}.

Lemma encryptText_value (text : jsstring) (key : CryptoKey) (r : entropy) :
  key_allows "encrypt" key = true ->
  encryptText text key r =
    (ok {| encryptedData :=
             base64_encode
               (aes_gcm_encrypt (key_data key) (getRandomValues 12 r).1
                  (TextEncoder_encode text));
           iv := base64_encode (getRandomValues 12 r).1 |},
     (getRandomValues 12 r).2).
Proof.
  intros Hk. unfold encryptText, subtle_encrypt. rewrite Hk.
  destruct (getRandomValues 12 r) as [nonce r']. cbn [fst snd rbind ok].
  by rewrite !btoa_fromCharCode.
Qed.

Lemma decryptText_value (cipher nonce : list byte) (key : CryptoKey) :
  decryptText (base64_encode cipher) key (base64_encode nonce) =
  let* plain := subtle_decrypt nonce key cipher in
  ok (TextDecoder_decode plain).
Proof.
  unfold decryptText. rewrite !atob_base64_encode. cbn [rbind ok].
  by rewrite !charCodes_fromCharCode.
Qed.

Lemma encryptFile_value (file : list byte) (key : CryptoKey) (r : entropy) :
  key_allows "encrypt" key = true ->
  encryptFile file key r =
    (ok {| file_encryptedData :=
             aes_gcm_encrypt (key_data key) (getRandomValues 12 r).1 file;
           file_iv := (getRandomValues 12 r).1 |},
     (getRandomValues 12 r).2).
Proof.
  intros Hk. unfold encryptFile, subtle_encrypt. rewrite Hk.
  by destruct (getRandomValues 12 r) as [nonce r'].
Qed.

(** What [decryptText] makes of the output of [encryptText]: the decoded
    UTF-8 bytes of the text. *)
Lemma decryptText_encryptText {GC : AesGcmCorrect G}
    (text : jsstring) (key : CryptoKey) (r : entropy) :
  key_allows "encrypt" key = true -> key_allows "decrypt" key = true ->
  exists enc,
    (encryptText text key r).1 = ok enc /\
    decryptText (encryptedData enc) key (iv enc) =
      ok (TextDecoder_decode (TextEncoder_encode text)).
Proof.
  intros He Hd. rewrite encryptText_value by done.
  eexists. split; [reflexivity |]. cbn [encryptedData iv].
  rewrite decryptText_value. unfold subtle_decrypt.
  by rewrite Hd, aes_gcm_decrypt_encrypt.
Qed.

(** C1 (amended).  Under a key that allows encryption and decryption, with
    an AES-GCM that decrypts what it encrypted: [encryptText] draws a nonce
    of 12 bytes from the random source and [decryptText], given its two
    outputs, returns the text, for every text without unpaired surrogate that
    does not begin with U+FEFF; [encryptFile] draws a nonce of 12 bytes and
    [decryptData], given its two outputs, returns the bytes of the file, for
    every file. *)
Theorem encrypt_decrypt_round_trip {GC : AesGcmCorrect G}
    (key : CryptoKey) (r : entropy) (text : jsstring) (file : list byte) :
  key_allows "encrypt" key = true -> key_allows "decrypt" key = true ->
  well_formed text = true -> starts_with_bom text = false ->
  (exists enc nonce,
     encryptText text key r = (ok enc, (getRandomValues 12 r).2) /\
     nonce = (getRandomValues 12 r).1 /\ length nonce = 12%nat /\
     iv enc = base64_encode nonce /\
     decryptText (encryptedData enc) key (iv enc) = ok text) /\
  (exists enc,
     encryptFile file key r = (ok enc, (getRandomValues 12 r).2) /\
     file_iv enc = (getRandomValues 12 r).1 /\
     length (file_iv enc) = 12%nat /\
     decryptData (file_encryptedData enc) key (file_iv enc) = ok file).
Proof.
  intros He Hd Hwf Hbom. split.
  - rewrite encryptText_value by done.
    eexists _, _. split; [reflexivity |]. split; [reflexivity |].
    split; [apply getRandomValues_length |]. split; [reflexivity |].
    cbn [encryptedData iv]. rewrite decryptText_value.
    unfold subtle_decrypt. rewrite Hd, aes_gcm_decrypt_encrypt.
    cbn [rbind ok]. by rewrite TextDecoder_decode_encode.
  - rewrite encryptFile_value by done.
    eexists. split; [reflexivity |]. split; [reflexivity |].
    split; [apply getRandomValues_length |].
    cbn [file_encryptedData file_iv]. unfold decryptData, subtle_decrypt.
    by rewrite Hd, aes_gcm_decrypt_encrypt.
Qed.

(** C3.  What [encryptText] or [encryptFile] produced under one key,
    [decryptText] and [decryptData] under a second key (with the nonce of the
    encryption) reject with [OperationError], the error of a failed
    authentication, exactly when the tag check of AES-GCM under the second
    key rejects the ciphertext; no plaintext is returned then, and the loop
    of [loadFiles] under the second key leaves the entry out.  When the check
    accepts, they return what AES-GCM decrypts to. *)
Theorem decrypt_under_other_key_rejected
    (key1 key2 : CryptoKey) (r : entropy) (text : jsstring) (file : list byte) :
  key_allows "encrypt" key1 = true -> key_allows "decrypt" key2 = true ->
  let nonce := (getRandomValues 12 r).1 in
  (exists enc,
     (encryptText text key1 r).1 = ok enc /\
     match aes_gcm_decrypt (key_data key2) nonce
             (aes_gcm_encrypt (key_data key1) nonce (TextEncoder_encode text)) with
     | None =>
         decryptText (encryptedData enc) key2 (iv enc) = throw OperationError /\
         forall (J : Json) id fileIv uploadedAt,
           loadFiles_loop key2
             [{| listed_id := id;
                 listed_encryptedMetadata := encryptedData enc;
                 listed_metadataIv := iv enc;
                 listed_fileIv := fileIv;
                 listed_uploadedAt := uploadedAt |}] = []
     | Some payload =>
         decryptText (encryptedData enc) key2 (iv enc)
           = ok (TextDecoder_decode payload)
     end) /\
  (exists enc,
     (encryptFile file key1 r).1 = ok enc /\
     match aes_gcm_decrypt (key_data key2) nonce
             (aes_gcm_encrypt (key_data key1) nonce file) with
     | None =>
         decryptData (file_encryptedData enc) key2 (file_iv enc)
           = throw OperationError
     | Some payload =>
         decryptData (file_encryptedData enc) key2 (file_iv enc) = ok payload
     end).
Proof.
  intros He Hd nonce. split.
  - rewrite encryptText_value by done.
    eexists. split; [reflexivity |]. cbn [encryptedData iv].
    rewrite decryptText_value. unfold subtle_decrypt. rewrite Hd. fold nonce.
    destruct (aes_gcm_decrypt (key_data key2) nonce _) as [payload|] eqn:Hdec;
      [reflexivity |].
    split; [reflexivity |].
    intros J id fileIv uploadedAt.
    unfold loadFiles_loop, decryptMetadata.
    cbn [fold_left listed_encryptedMetadata listed_metadataIv].
    rewrite decryptText_value. unfold subtle_decrypt. rewrite Hd. fold nonce.
    by rewrite Hdec.
  - rewrite encryptFile_value by done.
    eexists. split; [reflexivity |].
    cbn [file_encryptedData file_iv]. unfold decryptData, subtle_decrypt.
    rewrite Hd. fold nonce.
    by destruct (aes_gcm_decrypt (key_data key2) nonce _).
Qed.

End Aead.

(** ** Keys of 256 bits and tags of 128 *)

Lemma le_bytes_length (n : nat) (x : N) : length (le_bytes n x) = n.
Proof. revert x. induction n as [|n IH]; intros x; cbn; [done | by rewrite IH]. Qed.

Lemma le_value_lt (bs : list byte) : le_value bs < 256 ^ N.of_nat (length bs).
Proof.
  induction bs as [|b bs IH]; [cbn; lia |].
  cbn [le_value length]. rewrite Nat2N.inj_succ, N.pow_succ_r'.
  pose proof (byte_to_N_lt b). lia.
Qed.

Lemma le_value_le_bytes (n : nat) (x : N) :
  x < 256 ^ N.of_nat n -> le_value (le_bytes n x) = x.
Proof.
  revert x. induction n as [|n IH]; intros x Hx.
  - cbn in *. lia.
  - cbn [le_bytes le_value]. rewrite byte_to_of_N.
    rewrite Nat2N.inj_succ, N.pow_succ_r' in Hx.
    rewrite IH by lia. lia.
Qed.

Lemma le_value_inj (a b : list byte) :
  length a = length b -> le_value a = le_value b -> a = b.
Proof.
  revert b. induction a as [|x a IH]; intros [|y b] Hlen Hv; try done.
  cbn [le_value] in Hv. pose proof (byte_to_N_lt x). pose proof (byte_to_N_lt y).
  assert (Hxy : Byte.to_N x = Byte.to_N y) by lia.
  assert (Hab : le_value a = le_value b) by lia.
  f_equal.
  - by rewrite <- (byte_of_to_N x), <- (byte_of_to_N y), Hxy.
  - apply IH; [by injection Hlen | exact Hab].
Qed.

(** Among the values of a function on [0..m-1], a given one is found or is
    not there. *)
Lemma bounded_search (g : N -> N) (v m : N) :
  (exists i, i < m /\ g i = v) \/ (forall i, i < m -> g i <> v).
Proof.
  induction m as [|m IH] using N.peano_ind.
  - right. intros i Hi. lia.
  - destruct IH as [(i & Hi & Hg) | Hnone].
    + left. exists i. split; [lia | exact Hg].
    + destruct (N.eq_dec (g m) v) as [E|E].
      * left. exists m. split; [lia | exact E].
      * right. intros i Hi. destruct (N.eq_dec i m) as [->|Hne]; [exact E |].
        apply Hnone. lia.
Qed.

(** The pigeonhole principle: [m + 1] numbers below [m] are not all
    different. *)
Lemma pigeonhole_N (m : N) (g : N -> N) :
  (forall i, i <= m -> g i < m) ->
  exists i j, i < j /\ j <= m /\ g i = g j.
Proof.
  revert g. induction m as [|m IH] using N.peano_ind; intros g Hg.
  - specialize (Hg 0). lia.
  - destruct (bounded_search g (g (N.succ m)) (N.succ m)) as [(i & Hi & E) | Hnone].
    + exists i, (N.succ m). split; [exact Hi |]. split; [lia | exact E].
    + remember (g (N.succ m)) as v eqn:Hv.
      destruct (IH (fun i => if g i <? v then g i else g i - 1)) as (i & j & Hij & Hj & E).
      { intros i Hi. pose proof (Hg i). pose proof (Hnone i).
        pose proof (Hg (N.succ m)).
        destruct (N.ltb_spec (g i) v); lia. }
      exists i, j. split; [exact Hij |]. split; [lia |].
      pose proof (Hnone i). pose proof (Hnone j).
      destruct (N.ltb_spec (g i) v), (N.ltb_spec (g j) v); lia.
Qed.

(** For every nonce, two different keys of 32 bytes give the empty payload
    the same ciphertext. *)
Lemma two_keys_one_tag {G : AesGcm} {GT : AesGcmTag128 G} (iv : list byte) :
  exists keyData1 keyData2,
    length keyData1 = 32%nat /\ length keyData2 = 32%nat /\
    keyData1 <> keyData2 /\
    aes_gcm_encrypt keyData1 iv [] = aes_gcm_encrypt keyData2 iv [].
Proof.
  destruct (pigeonhole_N (256 ^ 16)
              (fun x => le_value (aes_gcm_encrypt (le_bytes 32 x) iv [])))
    as (x & y & Hxy & Hy & E).
  { intros x _.
    pose proof (le_value_lt (aes_gcm_encrypt (le_bytes 32 x) iv [])) as Hlt.
    by rewrite aes_gcm_encrypt_length in Hlt. }
  exists (le_bytes 32 x), (le_bytes 32 y).
  split; [apply le_bytes_length |]. split; [apply le_bytes_length |]. split.
  - intros Hk. apply (f_equal le_value) in Hk.
    assert (H32 : 256 ^ 16 < 256 ^ N.of_nat 32) by (by vm_compute).
    rewrite !le_value_le_bytes in Hk by lia. lia.
  - apply le_value_inj; [by rewrite !aes_gcm_encrypt_length | exact E].
Qed.


(** ** Enumeration *)

Lemma insert_desc_In (row x : EncryptedFile) (l : list EncryptedFile) :
  In x (insert_desc row l) -> x = row \/ In x l.
Proof.
  induction l as [|r l IH]; simpl.
  - intros [<- | []]. by left.
  - destruct (row_createdAt r <? row_createdAt row)%Z.
    + intros [<- | Hin]; [by left | by right].
    + intros [<- | Hin]; [right; by left |].
      destruct (IH Hin) as [-> | Hin']; [by left | right; by right].
Qed.

Lemma insert_desc_sorted (row : EncryptedFile) (l : list EncryptedFile) :
  newest_first row_createdAt l -> newest_first row_createdAt (insert_desc row l).
Proof.
  unfold newest_first. induction 1 as [|r l Hs IH Hr]; simpl.
  - repeat constructor.
  - destruct (Z.ltb_spec (row_createdAt r) (row_createdAt row)) as [Hlt | Hge].
    + constructor; [by constructor |].
      constructor; [lia |].
      eapply Forall_impl; [exact Hr |]. intros x Hx. simpl in Hx. lia.
    + constructor; [exact IH |].
      apply List.Forall_forall. intros x Hx.
      apply insert_desc_In in Hx as [-> | Hx]; [lia |].
      rewrite List.Forall_forall in Hr. by apply Hr.
Qed.

Lemma findMany_newest_first (keyHash : jsstring) (rows : list EncryptedFile) :
  newest_first row_createdAt (findMany keyHash rows).
Proof.
  unfold findMany, order_by_createdAt_desc.
  induction (List.filter _ rows) as [|r l IH]; simpl.
  - constructor.
  - by apply insert_desc_sorted.
Qed.

Lemma newest_first_map {A B} (f : A -> B) (ia : A -> Z) (ib : B -> Z) (l : list A) :
  (forall a, ib (f a) = ia a) ->
  newest_first ia l -> newest_first ib (map f l).
Proof.
  intros Hf. unfold newest_first. induction 1 as [|a l Hs IH Ha]; simpl.
  - constructor.
  - constructor; [exact IH |].
    apply Forall_map. eapply Forall_impl; [exact Ha |].
    intros x Hx. simpl. by rewrite !Hf.
Qed.

Lemma list_action_newest_first (raw : jsvalue) (srv srv' : Server)
    (files : list ListedFile) :
  list_action raw srv = (inr files, srv') ->
  newest_first listed_uploadedAt files.
Proof.
  unfold list_action, defineAction.
  destruct (z_object_string _ _ _ raw) as [issue|keyHash]; [done |].
  cbn [record_access database].
  destruct (database srv) as [rows|]; [| done].
  intros [= <- _].
  apply (newest_first_map _ row_createdAt); [done |].
  apply findMany_newest_first.
Qed.

Section Enumeration.

Context {G : AesGcm} {J : Json}.

Lemma loadFiles_loop_omap (key : CryptoKey) (files : list ListedFile) :
  loadFiles_loop key files = omap (decrypted_view key) files.
Proof.
  unfold loadFiles_loop.
  enough (Hacc : forall acc,
            fold_left
              (fun decryptedFiles encryptedFile =>
                 match decryptMetadata (listed_encryptedMetadata encryptedFile) key
                         (listed_metadataIv encryptedFile) with
                 | inr decryptedMetadata =>
                     decryptedFiles ++
                     [{| info_id := listed_id encryptedFile;
                         info_fileName := fileName decryptedMetadata;
                         info_fileSize := fileSize decryptedMetadata;
                         info_uploadDate := uploadDate decryptedMetadata;
                         info_uploadedAt := listed_uploadedAt encryptedFile |}]
                 | inl _ => decryptedFiles
                 end) files acc
            = acc ++ omap (decrypted_view key) files) by apply (Hacc []).
  induction files as [|f files IH]; intros acc.
  - simpl. by rewrite app_nil_r.
  - cbn [fold_left]. rewrite IH. unfold decrypted_view at 2.
    cbn [omap list_omap].
    destruct (decryptMetadata _ _ _) as [e|m]; cbn.
    + reflexivity.
    + by rewrite <- app_assoc.
Qed.

Lemma decrypted_view_fields (key : CryptoKey) (f : ListedFile) (v : FileInfo) :
  decrypted_view key f = Some v ->
  info_id v = listed_id f /\ info_uploadedAt v = listed_uploadedAt f.
Proof.
  unfold decrypted_view. destruct (decryptMetadata _ _ _); [done |].
  by intros [= <-].
Qed.

Lemma omap_view_sublist (key : CryptoKey) (files : list ListedFile) :
  sublist (map info_id (omap (decrypted_view key) files)) (map listed_id files).
Proof.
  induction files as [|f files IH]; [constructor |].
  cbn [omap list_omap map].
  destruct (decrypted_view key f) as [v|] eqn:Hv; cbn [map].
  - apply decrypted_view_fields in Hv as [-> _]. by constructor.
  - by constructor.
Qed.

Lemma omap_view_newest_first (key : CryptoKey) (files : list ListedFile) :
  newest_first listed_uploadedAt files ->
  newest_first info_uploadedAt (omap (decrypted_view key) files).
Proof.
  unfold newest_first. induction 1 as [|f files Hs IH Hf]; [constructor |].
  cbn [omap list_omap].
  destruct (decrypted_view key f) as [v|] eqn:Hv; [| exact IH].
  apply decrypted_view_fields in Hv as [_ Hat].
  constructor; [exact IH |].
  apply List.Forall_forall. intros w Hw.
  apply list_elem_of_In, list_elem_of_omap in Hw as (g & Hg & Hgw).
  apply decrypted_view_fields in Hgw as [_ ->]. rewrite Hat.
  rewrite List.Forall_forall in Hf. apply Hf. by apply list_elem_of_In.
Qed.

End Enumeration.

(** C2.  For every key and every list of entries the server returned, the
    loop of [loadFiles] treats each entry on its own: the result is, in the
    order of the input, the view of every entry whose metadata decrypts and
    decodes.  An entry for which [decryptMetadata] throws, whatever the
    error, is left out and the entries before and after it are reconciled
    as without it; the empty list gives the empty list; the ids of the
    result are a subsequence of the ids of the input, and a list that is
    latest first stays so.  The action [list] answers latest first, and
    [loadFiles] then shows the reconciled list and raises no toast. *)
Theorem loadFiles_loop_reconciles {G : AesGcm} {J : Json}
    (secret : CryptoKey) (files : list ListedFile) :
  loadFiles_loop secret files = omap (decrypted_view secret) files /\
  (forall before failing after e,
     files = before ++ failing :: after ->
     decryptMetadata (listed_encryptedMetadata failing) secret
       (listed_metadataIv failing) = inl e ->
     loadFiles_loop secret files =
       loadFiles_loop secret before ++ loadFiles_loop secret after) /\
  loadFiles_loop secret [] = [] /\
  sublist (map info_id (loadFiles_loop secret files)) (map listed_id files) /\
  (newest_first listed_uploadedAt files ->
   newest_first info_uploadedAt (loadFiles_loop secret files)) /\
  (forall st srv ui keyHash rows,
     keyHashStore (stores st) = Some keyHash -> truthy keyHash = true ->
     key (manager st) = Some secret ->
     database srv = Some rows ->
     exists listed srv',
       list_action (JObject [(js "keyHash", JString keyHash)]) srv
         = (inr listed, srv') /\
       newest_first listed_uploadedAt listed /\
       loadFiles st srv ui =
         ({| filesStore := loadFiles_loop secret listed; toasts := toasts ui |},
          srv')).
Proof.
  split; [apply loadFiles_loop_omap |].
  split; [| split; [reflexivity | split; [| split]]].
  - intros before failing after e -> Hfail.
    rewrite !loadFiles_loop_omap, omap_app. cbn [omap list_omap].
    unfold decrypted_view at 2. by rewrite Hfail.
  - rewrite loadFiles_loop_omap. apply omap_view_sublist.
  - rewrite loadFiles_loop_omap. apply omap_view_newest_first.
  - intros st srv ui keyHash rows Hhash Htruthy Hkey Hdb.
    destruct (list_action (JObject [(js "keyHash", JString keyHash)]) srv)
      as [[failure|listed] srv'] eqn:Hlist.
    + exfalso. revert Hlist. unfold list_action, defineAction, z_object_string.
      cbn [lookup_property]. change (jsstring_eqb (js "keyHash") (js "keyHash")) with true.
      cbv iota. rewrite Htruthy. cbn [record_access database]. by rewrite Hdb.
    + exists listed, srv'. split; [reflexivity |].
      split; [by eapply list_action_newest_first |].
      unfold loadFiles. by rewrite Hhash, Htruthy, Hlist, Hkey.
Qed.

(** ** Single-record actions *)

Section Actions.

Context {Z0 : Zod}.

(** C10.  An input whose [fileId] is a string the UUID check refuses makes
    [info] and [fetch] fail with the input error of the schema, and leaves
    the server as it was: no access to the database or to the upload
    directory is made.  Whatever the input, either the action fails with an
    input error and the server is as it was, or the input is an object whose
    [fileId] is a string the check accepts, and then [info] makes one lookup
    of that id and [fetch] touches the one path [<fileId>.bin] of the upload
    directory and nothing else. *)
Theorem single_record_actions_validate_fileId
    (properties : list (jsstring * jsvalue)) (fileId : jsstring) (srv : Server) :
  lookup_property properties (js "fileId") = JString fileId ->
  zod_uuid fileId = false ->
  info_action (JObject properties) srv =
    (inl (ActionInputError "Invalid file ID format"), srv) /\
  fetch_action (JObject properties) srv =
    (inl (ActionInputError "Invalid file ID format"), srv) /\
  (forall raw,
     (exists issue, info_action raw srv = (inl (ActionInputError issue), srv)) \/
     (exists props id,
        raw = JObject props /\
        lookup_property props (js "fileId") = JString id /\
        zod_uuid id = true /\
        accesses (info_action raw srv).2 = PrismaFindUnique id :: accesses srv)) /\
  (forall raw,
     (exists issue, fetch_action raw srv = (inl (ActionInputError issue), srv)) \/
     (exists props id made,
        raw = JObject props /\
        lookup_property props (js "fileId") = JString id /\
        zod_uuid id = true /\
        accesses (fetch_action raw srv).2 = made ++ accesses srv /\
        Forall (fun a => a = FsAccess (uploads (id ++ js ".bin")) \/
                         a = FsReadFile (uploads (id ++ js ".bin"))) made)).
Proof.
  intros Hprop Hbad.
  assert (Hschema : forall raw,
            (exists issue,
               z_object_string (js "fileId") zod_uuid "Invalid file ID format" raw
                 = inl issue) \/
            (exists props id,
               raw = JObject props /\
               lookup_property props (js "fileId") = JString id /\
               zod_uuid id = true /\
               z_object_string (js "fileId") zod_uuid "Invalid file ID format" raw
                 = inr id)).
  { intros raw. unfold z_object_string.
    destruct raw as [| | | | | |props]; try (left; by eexists).
    destruct (lookup_property props (js "fileId")) as [| | | |id| |] eqn:Hl;
      try (left; by eexists).
    destruct (zod_uuid id) eqn:Hid; [| left; by eexists].
    right. by exists props, id. }
  split; [| split; [| split]].
  - unfold info_action, defineAction, z_object_string. by rewrite Hprop, Hbad.
  - unfold fetch_action, defineAction, z_object_string. by rewrite Hprop, Hbad.
  - intros raw. unfold info_action, defineAction.
    destruct (Hschema raw) as [[issue ->] | (props & id & -> & Hl & Hid & ->)].
    + left. by exists issue.
    + right. exists props, id. repeat split; try done.
      cbn [record_access database].
      destruct (database srv) as [rows|]; [destruct (findUnique id rows) |];
        reflexivity.
  - intros raw. unfold fetch_action, defineAction.
    destruct (Hschema raw) as [[issue ->] | (props & id & -> & Hl & Hid & ->)].
    + left. by exists issue.
    + right. cbn [record_access upload_dir].
      destruct (read_upload (id ++ js ".bin") (upload_dir srv)) as [content|].
      * exists props, id,
          [FsReadFile (uploads (id ++ js ".bin"));
           FsAccess (uploads (id ++ js ".bin"))].
        repeat split; try done.
        -- by destruct (readFile_fails _ _).
        -- constructor; [by right | constructor; [by left | constructor]].
      * exists props, id, [FsAccess (uploads (id ++ js ".bin"))].
        repeat split; try done.
        constructor; [by left | constructor].
Qed.

End Actions.

(** ** The properties at concrete inputs *)

Example initialize_from_share_link :
  exists st',
    initialize (initial_state share_link_window) = (ok from_url, st') /\
    key (manager st') = Some demo_key /\
    keyHash (manager st') = Some (js "a9ac0169") /\
    location_hash (window st') = [] /\
    session_key st' = Some (js "AwoRGB8mLTQ7QklQV15lbHN6gYiPlp2kq7K5wMfO1dw=").
Proof.
  eexists. split; [vm_compute; reflexivity |].
  split; [vm_compute; reflexivity |].
  split; [vm_compute; reflexivity |].
  split; vm_compute; reflexivity.
Qed.

(** The key hash follows the key string: the same 32 bytes written with and
    without the final [=] are filed under two different key hashes. *)
Example keyHash_follows_key_string :
  importKey (js "AAAAAAAAAAAAAAAAAAAAAAAAAAAAAAAAAAAAAAAAAAA") =
    importKey (js "AAAAAAAAAAAAAAAAAAAAAAAAAAAAAAAAAAAAAAAAAAA=") /\
  generateKeyHash (js "AAAAAAAAAAAAAAAAAAAAAAAAAAAAAAAAAAAAAAAAAAA") = js "0f007385" /\
  generateKeyHash (js "AAAAAAAAAAAAAAAAAAAAAAAAAAAAAAAAAAAAAAAAAAA=") = js "51643eac".
Proof.
  split; [vm_compute; reflexivity |].
  split; vm_compute; reflexivity.
Qed.

Example generateKeyHash_abc : generateKeyHash (js "abc") = js "ba7816bf".
Proof. vm_compute. reflexivity. Qed.

Example atob_forgiving :
  atob (js " TW Fu ") = ok (js "Man") /\ atob (js "TWE") = ok (js "Ma") /\
  atob (js "TWE==") = throw InvalidCharacterError /\
  btoa (fromCharCode [xfb; xff]) = ok (js "+/8=").
Proof. repeat split; reflexivity. Qed.

(** The round trip under the stand-in cipher with the example key. *)
Lemma encrypt_decrypt_round_trip_witness :
  key_allows "encrypt" demo_key = true /\
  key_allows "decrypt" demo_key = true /\
  well_formed (demo_metadata "a.txt") = true /\
  starts_with_bom (demo_metadata "a.txt") = false /\
  (exists enc,
     (encryptText (H := StandIn.cipher) (demo_metadata "a.txt") demo_key
        demo_entropy).1 = ok enc /\
     decryptText (H := StandIn.cipher) (encryptedData enc) demo_key (iv enc)
       = ok (demo_metadata "a.txt")) /\
  (exists enc,
     (encryptFile (H := StandIn.cipher) [x01; x02; x03] demo_key demo_entropy).1
       = ok enc /\
     decryptData (H := StandIn.cipher) (file_encryptedData enc) demo_key
       (file_iv enc) = ok [x01; x02; x03]).
Proof.
  do 4 (split; [reflexivity |]).
  destruct (encrypt_decrypt_round_trip (G := StandIn.cipher) (GC := standin_correct)
              demo_key demo_entropy (demo_metadata "a.txt") [x01; x02; x03]
              eq_refl eq_refl eq_refl eq_refl)
    as [(enc & nonce & Henc & _ & _ & _ & Hdec) (fenc & Hfenc & _ & _ & Hfdec)].
  split.
  - exists enc. by rewrite Henc.
  - exists fenc. by rewrite Hfenc.
Defined.

(** C1, counterexample.  A text that begins with U+FEFF does not come back:
    [decryptText] returns it without its first character. *)
Lemma decryptText_drops_byte_order_mark :
  exists enc,
    (encryptText (H := StandIn.cipher) (byte_order_mark :: js "a") demo_key
       demo_entropy).1 = ok enc /\
    decryptText (H := StandIn.cipher) (encryptedData enc) demo_key (iv enc)
      = ok (js "a") /\
    js "a" <> byte_order_mark :: js "a".
Proof.
  eexists. split; [vm_compute; reflexivity |].
  split; [vm_compute; reflexivity | discriminate].
Qed.

(** A surrogate outside of a pair comes back as U+FFFD. *)
Example decryptText_replaces_unpaired_surrogate :
  exists enc,
    (encryptText (H := StandIn.cipher) [U16 xd8 x00] demo_key demo_entropy).1
      = ok enc /\
    decryptText (H := StandIn.cipher) (encryptedData enc) demo_key (iv enc)
      = ok [U16 xff xfd].
Proof.
  eexists. split; [vm_compute; reflexivity |].
  vm_compute. reflexivity.
Qed.

(** The same for every AES-GCM that decrypts what it encrypted. *)
Lemma decryptText_encryptText_byte_order_mark {G : AesGcm} {GC : AesGcmCorrect G}
    (text : jsstring) (key : CryptoKey) (r : entropy) :
  key_allows "encrypt" key = true -> key_allows "decrypt" key = true ->
  well_formed text = true ->
  exists enc,
    (encryptText (byte_order_mark :: text) key r).1 = ok enc /\
    decryptText (encryptedData enc) key (iv enc) = ok text.
Proof.
  intros He Hd Hwf.
  destruct (decryptText_encryptText (byte_order_mark :: text) key r He Hd)
    as (enc & Henc & Hdec).
  exists enc. split; [exact Henc |].
  by rewrite Hdec, TextDecoder_decode_encode_bom.
Qed.

(** No cipher with the correctness and the tag length of AES-GCM rejects
    under every other 256-bit key: the keys have 256 bits and the tag 128,
    so for every nonce two different keys give the empty payload the same
    ciphertext, and what [encryptFile] made of it under the one,
    [decryptData] under the other returns. *)
Lemma some_other_key_decrypts :
  ~ exists G : AesGcm,
      AesGcmCorrect G /\ AesGcmTag128 G /\
      forall (key1 key2 : CryptoKey) (r : entropy) (file : list byte),
        key_allows "encrypt" key1 = true -> key_allows "decrypt" key2 = true ->
        length (key_data key1) = 32%nat -> length (key_data key2) = 32%nat ->
        key_data key1 <> key_data key2 ->
        exists enc,
          (encryptFile file key1 r).1 = ok enc /\
          decryptData (file_encryptedData enc) key2 (file_iv enc)
            = throw OperationError.
Proof.
  intros (G & GC & GT & Hclaim).
  set (nonce := (getRandomValues 12 demo_entropy).1).
  destruct (two_keys_one_tag nonce) as (keyData1 & keyData2 & H1 & H2 & Hne & Hsame).
  destruct (Hclaim (aes256_key keyData1) (aes256_key keyData2) demo_entropy []
              eq_refl eq_refl H1 H2 Hne)
    as (enc & Henc & Hdec).
  rewrite encryptFile_value in Henc by done. cbn [fst] in Henc.
  assert (Eenc : enc = {| file_encryptedData := aes_gcm_encrypt keyData1 nonce [];
                          file_iv := nonce |}).
  { unfold ok in Henc. unfold nonce. by injection Henc. }
  subst enc. cbn [file_encryptedData file_iv] in Hdec.
  unfold decryptData, subtle_decrypt in Hdec.
  change (key_allows "decrypt" (aes256_key keyData2)) with true in Hdec.
  cbv iota in Hdec. cbn [aes256_key key_data] in Hdec.
  by rewrite Hsame, aes_gcm_decrypt_encrypt in Hdec.
Qed.

(** Two generated keys under the stand-in cipher. *)
Lemma decrypt_under_other_key_rejected_witness :
  (exists enc,
     (encryptText (H := StandIn.cipher) (demo_metadata "a.txt") demo_key
        demo_entropy).1 = ok enc /\
     decryptText (H := StandIn.cipher) (encryptedData enc) other_key (iv enc)
       = throw OperationError) /\
  (exists enc,
     (encryptFile (H := StandIn.cipher) [x01; x02; x03] demo_key demo_entropy).1
       = ok enc /\
     decryptData (H := StandIn.cipher) (file_encryptedData enc) other_key
       (file_iv enc) = throw OperationError).
Proof.
  destruct (decrypt_under_other_key_rejected (G := StandIn.cipher)
              demo_key other_key demo_entropy
              (demo_metadata "a.txt") [x01; x02; x03] eq_refl eq_refl)
    as [(enc & Henc & Htext) (fenc & Hfenc & Hfile)].
  assert (Hrej1 :
    aes_gcm_decrypt (AesGcm := StandIn.cipher) (key_data other_key)
      (getRandomValues 12 demo_entropy).1
      (aes_gcm_encrypt (AesGcm := StandIn.cipher) (key_data demo_key)
         (getRandomValues 12 demo_entropy).1
         (TextEncoder_encode (demo_metadata "a.txt"))) = None).
  { vm_compute. reflexivity. }
  assert (Hrej2 :
    aes_gcm_decrypt (AesGcm := StandIn.cipher) (key_data other_key)
      (getRandomValues 12 demo_entropy).1
      (aes_gcm_encrypt (AesGcm := StandIn.cipher) (key_data demo_key)
         (getRandomValues 12 demo_entropy).1 [x01; x02; x03]) = None).
  { vm_compute. reflexivity. }
  rewrite Hrej1 in Htext. rewrite Hrej2 in Hfile.
  split; [exists enc | exists fenc]; [split; [exact Henc | apply Htext] | by split].
Defined.

(** Three entries listed under one key hash, the second encrypted under
    another key: it is left out, the other two are shown in their order. *)
Lemma loadFiles_loop_reconciles_witness :
  decryptMetadata (H := StandIn.cipher) (H0 := StandIn.json)
    (listed_encryptedMetadata theirs) demo_key (listed_metadataIv theirs)
    = throw OperationError /\
  loadFiles_loop (H := StandIn.cipher) (H0 := StandIn.json) demo_key
    [mine_newer; theirs; mine_older] =
    [ {| info_id := js "11111111-1111-4111-8111-111111111111";
         info_fileName := JString (js "a.txt");
         info_fileSize := JUndefined;
         info_uploadDate := Date_of JUndefined;
         info_uploadedAt := 30 |};
      {| info_id := js "33333333-3333-4333-8333-333333333333";
         info_fileName := JString (js "c.txt");
         info_fileSize := JUndefined;
         info_uploadDate := Date_of JUndefined;
         info_uploadedAt := 10 |} ].
Proof.
  assert (Hfail : decryptMetadata (H := StandIn.cipher) (H0 := StandIn.json)
            (listed_encryptedMetadata theirs) demo_key (listed_metadataIv theirs)
            = throw OperationError).
  { vm_compute. reflexivity. }
  split; [exact Hfail |].
  destruct (loadFiles_loop_reconciles (G := StandIn.cipher) (J := StandIn.json)
              demo_key [mine_newer; theirs; mine_older])
    as (_ & Hskip & _).
  rewrite (Hskip [mine_newer] theirs [mine_older] OperationError eq_refl Hfail).
  vm_compute. reflexivity.
Defined.

(** The share link of a session opened through a share link. *)
Lemma getShareUrl_fragment_witness :
  let st := run Initialize (initial_state share_link_window) in
  reachable st /\
  exists k ks fragment,
    key (manager st) = Some k /\
    keyString (manager st) = Some ks /\
    importKey ks = ok k /\
    getShareUrl st = ok (location_base (window st) ++ ch "#" :: fragment) /\
    URLSearchParams fragment = [(js "key", ks)].
Proof.
  assert (Hr : reachable (run Initialize (initial_state share_link_window))).
  { apply reachable_run, reachable_initial. }
  split; [exact Hr |].
  assert (Hk : key (manager (run Initialize (initial_state share_link_window)))
               = Some demo_key).
  { vm_compute. reflexivity. }
  destruct (getShareUrl_fragment _ Hr) as (_ & Hheld & _).
  destruct (Hheld demo_key Hk) as (ks & fragment & Hks & Himp & Hurl & Hparse & _).
  exists demo_key, ks, fragment. repeat split; assumption.
Defined.

(** From the initial state through [generateNewKey] and a hash change. *)
Lemma operations_keep_fields_consistent_witness :
  consistent (initial_state refusing_window) /\
  consistent (run GenerateNewKey (initial_state refusing_window)) /\
  consistent (run HashChange (run GenerateNewKey (initial_state refusing_window))).
Proof.
  assert (H0 : consistent (initial_state refusing_window)).
  { intros k Hk. discriminate Hk. }
  split; [exact H0 |].
  pose proof (operations_keep_fields_consistent GenerateNewKey _ H0) as H1.
  split; [exact H1 |].
  exact (operations_keep_fields_consistent HashChange _ H1).
Defined.

(** A path in place of an id is refused before any access. *)
Lemma single_record_actions_validate_fileId_witness :
  let srv := {| database := Some []; upload_dir := []; unreadable := [];
                accesses := [] |} in
  let raw := JObject [(js "fileId", JString (js "../../etc/passwd"))] in
  zod_uuid (Zod := StandIn.zod) (js "../../etc/passwd") = false /\
  info_action (H := StandIn.zod) raw srv =
    (inl (ActionInputError "Invalid file ID format"), srv) /\
  fetch_action (H := StandIn.zod) raw srv =
    (inl (ActionInputError "Invalid file ID format"), srv).
Proof.
  split; [reflexivity |].
  destruct (single_record_actions_validate_fileId (Z0 := StandIn.zod)
              [(js "fileId", JString (js "../../etc/passwd"))]
              (js "../../etc/passwd")
              {| database := Some []; upload_dir := []; unreadable := [];
                 accesses := [] |}
              eq_refl eq_refl) as (Hinfo & Hfetch & _).
  split; [exact Hinfo | exact Hfetch].
Defined.

(** ** Keys: what [importKey] accepts *)

Lemma subtle_importKey_raw_cases (keyData : list byte) :
  subtle_importKey_raw keyData =
  if aes_key_length (length keyData) then ok (raw_aes_key keyData)
  else throw DataError.
Proof.
  unfold subtle_importKey_raw, aes_key_length, raw_aes_key.
  destruct (Nat.eqb_spec (length keyData) 16) as [->|?]; [reflexivity |].
  destruct (Nat.eqb_spec (length keyData) 24) as [->|?]; [reflexivity |].
  destruct (Nat.eqb_spec (length keyData) 32) as [->|?]; [reflexivity |].
  cbn [orb].
  destruct (N.eqb_spec (8 * N.of_nat (length keyData)) 128); [lia |].
  destruct (N.eqb_spec (8 * N.of_nat (length keyData)) 192); [lia |].
  destruct (N.eqb_spec (8 * N.of_nat (length keyData)) 256); [lia |].
  reflexivity.
Qed.

Lemma importKey_cases (keyString : jsstring) :
  importKey keyString =
  match base64_decode keyString with
  | None => throw InvalidCharacterError
  | Some keyData =>
      if aes_key_length (length keyData) then ok (raw_aes_key keyData)
      else throw DataError
  end.
Proof.
  unfold importKey, atob.
  destruct (base64_decode keyString) as [keyData|]; [| reflexivity].
  cbn [rbind ok]. rewrite charCodes_fromCharCode.
  apply subtle_importKey_raw_cases.
Qed.

Lemma importKey_inv (keyString : jsstring) (k : CryptoKey) :
  importKey keyString = ok k ->
  exists keyData,
    base64_decode keyString = Some keyData /\
    aes_key_length (length keyData) = true /\
    k = raw_aes_key keyData.
Proof.
  rewrite importKey_cases.
  destruct (base64_decode keyString) as [keyData|]; [| done].
  destruct (aes_key_length (length keyData)) eqn:E; [| done].
  intros [= <-]. by exists keyData.
Qed.

(** X1.  What [importKey] accepts and how it fails.  It fails with
    InvalidCharacterError exactly when [atob] refuses the key string, with
    DataError exactly when the string decodes to a number of bytes other than
    16, 24 or 32, and in no other way; otherwise it returns the extractable
    AES-GCM key of the decoded bytes, allowed for encryption and
    decryption. *)
Theorem importKey_accepts_aes_key_material (keyString : jsstring) :
  (importKey keyString = throw InvalidCharacterError <->
   base64_decode keyString = None) /\
  (importKey keyString = throw DataError <->
   exists keyData, base64_decode keyString = Some keyData /\
                   aes_key_length (length keyData) = false) /\
  (forall k, importKey keyString = ok k <->
     exists keyData, base64_decode keyString = Some keyData /\
                     aes_key_length (length keyData) = true /\
                     k = raw_aes_key keyData) /\
  (forall e, importKey keyString = throw e ->
     e = InvalidCharacterError \/ e = DataError).
Proof.
  rewrite importKey_cases.
  destruct (base64_decode keyString) as [keyData|].
  - destruct (aes_key_length (length keyData)) eqn:E.
    + split; [split; done |]. split.
      { split; [done |]. intros (kd & [= <-] & H). congruence. }
      split; [| done].
      intros k. split.
      * intros [= <-]. by exists keyData.
      * intros (kd & [= <-] & _ & ->). reflexivity.
    + split; [split; done |]. split.
      { split; [| done]. intros _. by exists keyData. }
      split; [| intros e [= <-]; by right].
      intros k. split; [done |].
      intros (kd & [= <-] & H & _). congruence.
  - split; [done |]. split.
    { split; [done |]. by intros (kd & H & _). }
    split; [| intros e [= <-]; by left].
    intros k. split; [done |]. by intros (kd & H & _).
Qed.

(** ** Held keys *)

Lemma raw_aes_key_usable (keyData : list byte) :
  key_allows "encrypt" (raw_aes_key keyData) = true /\
  key_allows "decrypt" (raw_aes_key keyData) = true /\
  extractable (raw_aes_key keyData) = true.
Proof. done. Qed.

Lemma run_mirrored (op : operation) (st : State) :
  mirrored st -> mirrored (run op st).
Proof.
  intros Hst.
  destruct (run_cases op st) as [-> | (k & ks & st0 & Hk & Hm & Hs1 & Hs2)];
    [exact Hst |].
  unfold mirrored. rewrite Hm, Hs1, Hs2. done.
Qed.

Lemma reachable_mirrored (st : State) : reachable st -> mirrored st.
Proof.
  induction 1 as [w | op st _ IH | w st _ IH].
  - done.
  - by apply run_mirrored.
  - exact IH.
Qed.

(** X2.  In every state a session reaches, the key held is one [importKey]
    made: AES-GCM key material of 16, 24 or 32 bytes, extractable, allowed
    for encryption and decryption.  So [exportKey] of the held key succeeds
    and [encryptText] and [encryptFile] under it never fail. *)
Theorem held_key_is_usable {G : AesGcm} (st : State) (k : CryptoKey) :
  reachable st -> getKey st = Some k ->
  aes_key_length (length (key_data k)) = true /\
  k = raw_aes_key (key_data k) /\
  exportKey k = ok (base64_encode (key_data k)) /\
  (forall text r, exists enc, encryptText text k r = (ok enc, (getRandomValues 12 r).2)) /\
  (forall file r, exists enc, encryptFile file k r = (ok enc, (getRandomValues 12 r).2)).
Proof.
  intros Hr Hk. unfold getKey in Hk.
  apply reachable_invariant in Hr as [_ Hkeyed].
  destruct Hkeyed as [[Hnone _] | (k' & ks & Hk' & _ & Himp)]; [congruence |].
  assert (k' = k) as -> by congruence.
  apply importKey_inv in Himp as (keyData & _ & Hlen & ->).
  cbn [raw_aes_key key_data]. split; [exact Hlen |]. split; [reflexivity |].
  split.
  - unfold exportKey, subtle_exportKey_raw. cbn [extractable key_data rbind ok].
    apply btoa_fromCharCode.
  - split.
    + intros text r. eexists. by apply encryptText_value.
    + intros file r. eexists. by apply encryptFile_value.
Qed.

(** X3.  The atoms of stores.ts mirror the key manager in every state a
    session reaches, and [keyReadyStore] is true exactly when a key is
    held. *)
Theorem stores_mirror_key_manager (st : State) :
  reachable st ->
  encryptionKeyStore (stores st) = getKey st /\
  keyHashStore (stores st) = getKeyHash st /\
  (keyReadyStore (stores st) = true <-> exists k, getKey st = Some k) /\
  (keyReadyStore (stores st) = false <-> getKey st = None).
Proof.
  intros Hr. destruct (reachable_mirrored st Hr) as (Hk & Hh & Hnone).
  destruct (reachable_invariant st Hr) as [Hc _].
  unfold getKey, getKeyHash, keyReadyStore.
  split; [exact Hk |]. split; [exact Hh |].
  rewrite Hh.
  destruct (key (manager st)) as [k|] eqn:Ek.
  - destruct (Hc k Ek) as (ks & _ & _ & Hkh & _). rewrite Hkh.
    assert (Ht : truthy (generateKeyHash ks) = true).
    { pose proof (generateKeyHash_hex ks) as E.
      assert (Hl : length (generateKeyHash ks) = 8%nat).
      { rewrite E. unfold truncated_hex_digest.
        rewrite hex_of_bytes_length, length_firstn, sha256_length. reflexivity. }
      destruct (generateKeyHash ks); [discriminate | reflexivity]. }
    rewrite Ht. split; [| done]. split; [by exists k | done].
  - rewrite (Hnone eq_refl). split; [| done].
    split; [done | by intros [k ?]].
Qed.

(** ** Session storage and share links *)

Lemma persist_stored (ks : jsstring) (w : Window) (s : Storage) :
  sessionStorage w = Some s -> items s !! SESSION_STORAGE_KEY = Some ks ->
  persist ks w = w.
Proof.
  intros Hs Hi. unfold persist. rewrite Hs.
  destruct (truthy ks && _); [| reflexivity].
  unfold set_sessionStorage. rewrite (insert_id _ _ _ Hi).
  destruct w as [b h ss r]. cbn in *. rewrite Hs. by destruct s.
Qed.

Lemma session_key_Some (st : State) (ks : jsstring) :
  session_key st = Some ks ->
  exists s, sessionStorage (window st) = Some s /\
            items s !! SESSION_STORAGE_KEY = Some ks.
Proof.
  unfold session_key. destruct (sessionStorage (window st)) as [s|]; [| done].
  destruct (items s !! SESSION_STORAGE_KEY) as [ks'|] eqn:E; [| done].
  destruct (truthy ks'); [| done]. intros [= <-]. by exists s.
Qed.

Lemma persist_session_key (st : State) (ks : jsstring) :
  session_key st = Some ks -> persist ks (window st) = window st.
Proof.
  intros H. apply session_key_Some in H as (s & Hs & Hi).
  by apply (persist_stored ks _ s).
Qed.

(** X4.  [loadFromSessionStorage] never throws.  It answers [true] exactly
    when session storage holds a non-empty key string that [importKey]
    accepts; then that key is held, [keyLoadedFromExternal] is set and the
    page (URL, storage, random source) is as before.  Otherwise the whole
    state is as before. *)
Theorem loadFromSessionStorage_restores_or_keeps (st : State) :
  exists restored st',
    loadFromSessionStorage st = (ok restored, st') /\
    (sessionStorage (window st) = None -> restored = false) /\
    (restored = false -> st' = st) /\
    (restored = true <->
     exists ks k, session_key st = Some ks /\ importKey ks = ok k) /\
    (forall ks k, session_key st = Some ks -> importKey ks = ok k ->
       manager st' = {| key := Some k; keyString := Some ks;
                        keyHash := Some (generateKeyHash ks) |} /\
       encryptionKeyStore (stores st') = Some k /\
       keyHashStore (stores st') = Some (generateKeyHash ks) /\
       keyLoadedFromExternal (stores st') = true /\
       window st' = window st).
Proof.
  rewrite loadFromSessionStorage_spec.
  destruct (usable (session_key st)) as [[ks k]|] eqn:Hu.
  - apply usable_Some in Hu as [Hs Hk].
    exists true, (adopted_from_session k ks st).
    split; [reflexivity |]. split.
    { intros Hn. unfold session_key in Hs. by rewrite Hn in Hs. }
    split; [done |]. split.
    { split; [| done]. intros _. by exists ks, k. }
    intros ks' k' Hs' Hk'.
    assert (ks' = ks) as -> by congruence.
    assert (k' = k) as -> by (unfold ok in *; congruence).
    repeat split. cbn. by apply persist_session_key.
  - exists false, st. split; [reflexivity |]. split; [done |]. split; [done |].
    split.
    { split; [done |]. intros (ks & k & Hs & Hk).
      unfold usable in Hu. rewrite Hs, Hk in Hu. done. }
    intros ks k Hs Hk. unfold usable in Hu. rewrite Hs, Hk in Hu. done.
Qed.

Lemma url_key_window (st st0 : State) :
  window st0 = window st -> url_key st0 = url_key st.
Proof. unfold url_key. by intros ->. Qed.

Lemma session_key_window (st st0 : State) :
  window st0 = window st -> session_key st0 = session_key st.
Proof. unfold session_key. by intros ->. Qed.

(** X5.  A page whose session storage holds the key string of the key
    manager, and whose URL offers no usable key, gets the same key back on
    reload: [initialize] on the freshly loaded module (or on any state of the
    key manager with this window) answers [from-session], holds the same key,
    key string and key hash, draws no randomness and leaves the page as it
    is. *)
Theorem reload_restores_key (st st0 : State) (ks : jsstring) :
  reachable st ->
  keyString (manager st) = Some ks ->
  session_key st = Some ks ->
  usable (url_key st) = None ->
  window st0 = window st ->
  exists st',
    initialize st0 = (ok from_session, st') /\
    manager st' = manager st /\
    encryptionKeyStore (stores st') = encryptionKeyStore (stores st) /\
    keyHashStore (stores st') = keyHashStore (stores st) /\
    keyLoadedFromExternal (stores st') = true /\
    window st' = window st.
Proof.
  intros Hr Hks Hses Hurl Hw.
  destruct (reachable_invariant st Hr) as [Hc Hkeyed].
  destruct Hkeyed as [[_ Hn] | (k & ks' & Hk & Hks' & Himp)]; [congruence |].
  assert (ks' = ks) as -> by congruence.
  destruct (Hc k Hk) as (ks' & Hks'' & _ & Hh & Hs1 & Hs2).
  assert (ks' = ks) as -> by congruence.
  rewrite initialize_spec.
  rewrite (url_key_window st st0 Hw), Hurl.
  rewrite (session_key_window st st0 Hw), Hses.
  unfold usable. rewrite Himp. unfold ok.
  exists (adopted_from_session k ks st0). split; [reflexivity |].
  split.
  { cbn. destruct (manager st) as [a b c]. cbn in *. congruence. }
  split; [by rewrite Hs1 |]. split; [by rewrite Hs2 |]. split; [reflexivity |].
  cbn. rewrite Hw. by apply persist_session_key.
Qed.

Lemma URLSearchParams_get_single (name value : jsstring) :
  URLSearchParams_get [(name, value)] name = Some value.
Proof.
  cbn. assert (E : jsstring_eqb name name = true).
  { induction name as [|c name IH]; [done |]. cbn. by rewrite u16_eqb_refl, IH. }
  by rewrite E.
Qed.

(** X6.  A share link opens the same key.  When a key is held, [getShareUrl]
    returns the URL of the page followed by a fragment; a page loaded at
    that URL, whatever its session storage holds and whatever key manager
    state it starts from, is initialized [from-url] with the same key, key
    string and key hash; the fragment is removed from its URL, the key is
    marked as loaded from outside, and no randomness is drawn. *)
Theorem share_link_opens_same_key (st : State) (k : CryptoKey) :
  reachable st -> getKey st = Some k ->
  exists fragment,
    getShareUrl st = ok (location_base (window st) ++ fragment) /\
    forall st0,
      location_base (window st0) = location_base (window st) ->
      location_hash (window st0) = fragment ->
      exists st',
        initialize st0 = (ok from_url, st') /\
        manager st' = manager st /\
        encryptionKeyStore (stores st') = Some k /\
        keyHashStore (stores st') = getKeyHash st /\
        keyLoadedFromExternal (stores st') = true /\
        location_base (window st') = location_base (window st) /\
        location_hash (window st') = [] /\
        random (window st') = random (window st0).
Proof.
  intros Hr Hk. unfold getKey, getKeyHash in *.
  destruct (reachable_invariant st Hr) as [Hc Hkeyed].
  destruct (Hc k Hk) as (ks & Hks & Himp & Hh & _).
  exists (ch "#" :: (js "key=" ++ flat_map encode_ascii ks)).
  split; [by apply (getShareUrl_keyed st k) |].
  intros st0 Hbase Hhash.
  assert (Hurl : url_key st0 = Some ks).
  { unfold url_key. rewrite Hhash. cbn [starts_with_hash].
    rewrite u16_eqb_refl. cbn [substring1 tail].
    rewrite URLSearchParams_share_fragment by (by eapply importKey_ascii).
    rewrite URLSearchParams_get_single.
    by rewrite (importKey_truthy ks k Himp). }
  rewrite initialize_spec, Hurl. unfold usable. rewrite Himp. unfold ok.
  exists (adopted_from_url k ks st0). split; [reflexivity |].
  split.
  { cbn. destruct (manager st) as [a b c]. cbn in *. congruence. }
  split; [reflexivity |]. split; [by rewrite Hh |]. split; [reflexivity |].
  cbn. destruct (persist_location ks (window st0)) as (_ & Hb & Hrand).
  by rewrite Hb, Hrand.
Qed.

(** ** The actions that read *)

Lemma jsstring_eqb_eq (s t : jsstring) : jsstring_eqb s t = true <-> s = t.
Proof.
  revert t. induction s as [|a s IH]; intros [|b t]; cbn; try done.
  rewrite andb_true_iff, u16_eqb_eq, IH. split.
  - by intros [-> ->].
  - by intros [= -> ->].
Qed.

Lemma jsstring_eqb_refl (s : jsstring) : jsstring_eqb s s = true.
Proof. by apply jsstring_eqb_eq. Qed.

Lemma jsstring_eqb_neq (s t : jsstring) : jsstring_eqb s t = false <-> s <> t.
Proof.
  destruct (jsstring_eqb s t) eqn:E.
  - apply jsstring_eqb_eq in E. split; [done | congruence].
  - split; [| done]. intros _ H. apply jsstring_eqb_eq in H. congruence.
Qed.

Lemma insert_desc_perm (row : EncryptedFile) (l : list EncryptedFile) :
  insert_desc row l ≡ₚ row :: l.
Proof.
  induction l as [|r l IH]; [done |]. cbn.
  destruct (_ <? _)%Z; [done |].
  rewrite IH. apply Permutation_swap.
Qed.

Lemma order_by_createdAt_desc_perm (rows : list EncryptedFile) :
  order_by_createdAt_desc rows ≡ₚ rows.
Proof.
  unfold order_by_createdAt_desc.
  induction rows as [|r rows IH]; [done |]. cbn.
  by rewrite insert_desc_perm, IH.
Qed.

Lemma findUnique_Some (fileId : jsstring) (rows : list EncryptedFile)
    (row : EncryptedFile) :
  findUnique fileId rows = Some row -> In row rows /\ row_id row = fileId.
Proof.
  induction rows as [|r rows IH]; [done |]. cbn.
  destruct (jsstring_eqb (row_id r) fileId) eqn:E.
  - intros [= <-]. apply jsstring_eqb_eq in E. auto.
  - intros H. destruct (IH H). auto.
Qed.

Lemma findUnique_None (fileId : jsstring) (rows : list EncryptedFile) :
  findUnique fileId rows = None <->
  forall row, In row rows -> row_id row <> fileId.
Proof.
  induction rows as [|r rows IH]; cbn.
  - split; [by intros _ row [] | done].
  - destruct (jsstring_eqb (row_id r) fileId) eqn:E.
    + apply jsstring_eqb_eq in E. split; [done |].
      intros H. exfalso. apply (H r); auto.
    + apply jsstring_eqb_neq in E. rewrite IH. split.
      * intros H row [<- | Hin]; auto.
      * intros H row Hin. apply H. auto.
Qed.

(** X7.  [list] answers with exactly the rows filed under the key hash asked
    for, one entry per row, and with no row of another key hash; an empty key
    hash is refused by the schema before the database is asked; a database
    that cannot be reached gives INTERNAL_SERVER_ERROR.  The table and the
    upload directory are left as they are. *)
Theorem list_action_answers_own_rows
    (properties : list (jsstring * jsvalue)) (keyHash : jsstring) (srv : Server) :
  lookup_property properties (js "keyHash") = JString keyHash ->
  database (list_action (JObject properties) srv).2 = database srv /\
  upload_dir (list_action (JObject properties) srv).2 = upload_dir srv /\
  match (list_action (JObject properties) srv).1 with
  | inr files =>
      keyHash <> [] /\
      exists rows,
        database srv = Some rows /\
        files ≡ₚ map listed_of_row
                   (List.filter (fun r => jsstring_eqb (row_encryptionKeyHash r) keyHash)
                      rows) /\
        forall f, In f files ->
          exists row, In row rows /\ row_encryptionKeyHash row = keyHash /\
                      f = listed_of_row row
  | inl (ActionInputError issue) =>
      keyHash = [] /\ issue = "Key hash is required"%string /\
      accesses (list_action (JObject properties) srv).2 = accesses srv
  | inl (ActionError code message) =>
      keyHash <> [] /\ database srv = None /\
      code = INTERNAL_SERVER_ERROR /\ message = "Failed to fetch file list"%string
  end.
Proof.
  intros Hprop. unfold list_action, defineAction, z_object_string.
  rewrite Hprop. destruct keyHash as [|c keyHash]; [done |].
  cbn [truthy record_access database].
  destruct (database srv) as [rows|] eqn:Hdb; cbn [fst snd database upload_dir];
    rewrite ?Hdb; [| done].
  split; [done |]. split; [done |]. split; [done |].
  exists rows. split; [done |].
  assert (Hperm : map listed_of_row (findMany (c :: keyHash) rows) ≡ₚ
                  map listed_of_row
                    (List.filter
                       (fun r => jsstring_eqb (row_encryptionKeyHash r) (c :: keyHash))
                       rows)).
  { unfold findMany. by rewrite order_by_createdAt_desc_perm. }
  split; [exact Hperm |].
  intros f Hf.
  apply list_elem_of_In in Hf.
  change (f ∈ map listed_of_row (findMany (c :: keyHash) rows)) in Hf.
  rewrite Hperm in Hf. apply list_elem_of_In, in_map_iff in Hf as (row & <- & Hrow).
  apply filter_In in Hrow as [Hin Hh]. apply jsstring_eqb_eq in Hh.
  by exists row.
Qed.

(** X8.  [info], asked for an id the schema accepts, answers with the fields
    of the row of that id; NOT_FOUND exactly when the table has no such row;
    INTERNAL_SERVER_ERROR exactly when the database cannot be reached.  It
    leaves the table and the upload directory as they are and reads no
    file. *)
Theorem info_action_answers_row {Z0 : Zod}
    (properties : list (jsstring * jsvalue)) (fileId : jsstring) (srv : Server) :
  lookup_property properties (js "fileId") = JString fileId ->
  zod_uuid fileId = true ->
  (info_action (JObject properties) srv).2 =
    record_access (PrismaFindUnique fileId) srv /\
  match (info_action (JObject properties) srv).1 with
  | inr record =>
      record_id record = fileId /\
      exists rows row,
        database srv = Some rows /\ In row rows /\ row_id row = fileId /\
        findUnique fileId rows = Some row /\ record = record_of_row row
  | inl (ActionError NOT_FOUND message) =>
      message = "File not found"%string /\
      exists rows, database srv = Some rows /\
                   forall row, In row rows -> row_id row <> fileId
  | inl (ActionError INTERNAL_SERVER_ERROR message) =>
      message = "Failed to fetch file information"%string /\ database srv = None
  | inl _ => False
  end.
Proof.
  intros Hprop Hid. unfold info_action, defineAction, z_object_string.
  rewrite Hprop, Hid. cbn [record_access database].
  destruct (database srv) as [rows|]; [| done].
  destruct (findUnique fileId rows) as [row|] eqn:Hf.
  - cbn [fst snd]. split; [done |].
    destruct (findUnique_Some _ _ _ Hf) as [Hin Hrow].
    split; [exact Hrow |]. by exists rows, row.
  - cbn [fst snd]. split; [done |]. split; [done |].
    exists rows. split; [done |]. by apply findUnique_None.
Qed.

Lemma read_upload_In (filename : jsstring) (dir : list (jsstring * list byte))
    (content : list byte) :
  read_upload filename dir = Some content -> In (filename, content) dir.
Proof.
  induction dir as [|[n c] dir IH]; [done |]. cbn.
  destruct (jsstring_eqb n filename) eqn:E.
  - intros [= <-]. apply jsstring_eqb_eq in E. subst. auto.
  - auto.
Qed.

Lemma read_upload_None (filename : jsstring) (dir : list (jsstring * list byte)) :
  read_upload filename dir = None <->
  forall content, ~ In (filename, content) dir.
Proof.
  induction dir as [|[n c] dir IH]; cbn.
  - split; [by intros _ ? [] | done].
  - destruct (jsstring_eqb n filename) eqn:E.
    + apply jsstring_eqb_eq in E. subst. split; [done |].
      intros H. exfalso. apply (H c). auto.
    + apply jsstring_eqb_neq in E. rewrite IH. split.
      * intros H content [[= ? ?] | Hin]; [done | by apply (H content)].
      * intros H content Hin. apply (H content). auto.
Qed.

(** X9.  [fetch], asked for an id the schema accepts, answers with the
    content of the file [<id>.bin] of the upload directory in base64, which
    [atob] turns back into these bytes, exactly when the file is there and
    can be read; with NOT_FOUND exactly when the directory has no such file;
    and with INTERNAL_SERVER_ERROR "File download failed" exactly when the
    file is there but [readFile] fails on it.  It never asks the database:
    the answer is the same whatever the table holds, also when the database
    cannot be reached.  The table and the files are left as they are. *)
Theorem fetch_action_answers_file {Z0 : Zod}
    (properties : list (jsstring * jsvalue)) (fileId : jsstring) (srv : Server) :
  lookup_property properties (js "fileId") = JString fileId ->
  zod_uuid fileId = true ->
  database (fetch_action (JObject properties) srv).2 = database srv /\
  upload_dir (fetch_action (JObject properties) srv).2 = upload_dir srv /\
  unreadable (fetch_action (JObject properties) srv).2 = unreadable srv /\
  (forall table,
     (fetch_action (JObject properties)
        {| database := table; upload_dir := upload_dir srv;
           unreadable := unreadable srv; accesses := accesses srv |}).1 =
     (fetch_action (JObject properties) srv).1) /\
  match (fetch_action (JObject properties) srv).1 with
  | inr blob =>
      blob_filename blob = fileId ++ js ".bin" /\
      readFile_fails (fileId ++ js ".bin") srv = false /\
      exists content,
        In (fileId ++ js ".bin", content) (upload_dir srv) /\
        read_upload (fileId ++ js ".bin") (upload_dir srv) = Some content /\
        blob_data blob = base64_encode content /\
        (let* binary := atob (blob_data blob) in ok (charCodes binary)) = ok content
  | inl (ActionError NOT_FOUND message) =>
      message = "File not found"%string /\
      forall content, ~ In (fileId ++ js ".bin", content) (upload_dir srv)
  | inl (ActionError INTERNAL_SERVER_ERROR message) =>
      message = "File download failed"%string /\
      readFile_fails (fileId ++ js ".bin") srv = true /\
      exists content,
        read_upload (fileId ++ js ".bin") (upload_dir srv) = Some content
  | inl _ => False
  end.
Proof.
  intros Hprop Hid. unfold fetch_action, defineAction, z_object_string.
  rewrite Hprop, Hid. unfold readFile_fails. cbn [record_access upload_dir unreadable].
  destruct (read_upload (fileId ++ js ".bin") (upload_dir srv)) as [content|] eqn:Hf.
  - destruct (existsb (jsstring_eqb (fileId ++ js ".bin")) (unreadable srv)) eqn:Hr;
      cbn [fst snd database upload_dir unreadable record_access].
    + do 4 (split; [done |]). split; [done |]. split; [done |]. by exists content.
    + do 4 (split; [done |]). split; [done |]. split; [done |].
      exists content. split; [by apply read_upload_In |]. split; [done |].
      split; [done |]. cbn [blob_data].
      rewrite atob_base64_encode. cbn [rbind ok]. by rewrite charCodes_fromCharCode.
  - cbn [fst snd database upload_dir unreadable]. do 4 (split; [done |]).
    split; [done |]. by apply read_upload_None.
Qed.

(** ** The metadata text *)

Lemma well_formed_app (a b : jsstring) :
  well_formed a = true -> well_formed (a ++ b) = well_formed b.
Proof.
  induction a as [|u|u v rest IH1 IH2] using jsstring_pair_ind.
  - done.
  - cbn [well_formed app].
    destruct (is_lead_surrogate (u16_to_N u)); [done |].
    destruct (is_trail_surrogate (u16_to_N u)); [done |]. done.
  - cbn [well_formed app] in *.
    destruct (is_lead_surrogate (u16_to_N u)).
    + destruct (is_trail_surrogate (u16_to_N v)); [| done]. cbn [andb]. exact IH2.
    + destruct (is_trail_surrogate (u16_to_N u)); [done |]. cbn [negb andb].
      exact IH1.
Qed.

Lemma well_formed_ascii_app (a b : jsstring) :
  forallb is_ascii a = true -> well_formed (a ++ b) = well_formed b.
Proof.
  intros Ha. apply well_formed_app. by apply ascii_code_points.
Qed.

Lemma hex_digit_ascii (n : N) : is_ascii (hex_digit n) = true.
Proof.
  unfold hex_digit.
  destruct (nth_in_or_default (N.to_nat n) hex_digits (ch "0")) as [Hin | ->];
    [| reflexivity].
  assert (Hall : forallb is_ascii hex_digits = true) by reflexivity.
  rewrite forallb_forall in Hall. by apply Hall.
Qed.

Lemma unicode_escape_ascii (c : u16) : forallb is_ascii (unicode_escape c) = true.
Proof.
  unfold unicode_escape. rewrite forallb_app. apply andb_true_iff.
  split; [reflexivity |]. cbn [forallb]. by rewrite !hex_digit_ascii.
Qed.

Lemma quote_code_unit_well_formed (c : u16) (t : jsstring) :
  is_lead_surrogate (u16_to_N c) = false ->
  is_trail_surrogate (u16_to_N c) = false ->
  well_formed (quote_code_unit c ++ t) = well_formed t.
Proof.
  intros Hl Ht. unfold quote_code_unit.
  repeat (destruct (_ =? _); [reflexivity |]).
  destruct (_ <? _).
  - apply well_formed_ascii_app, unicode_escape_ascii.
  - cbn [app well_formed]. by rewrite Hl, Ht.
Qed.

Lemma quote_code_points_cons (c : u16) (rest : jsstring) :
  quote_code_points (c :: rest) =
  if is_lead_surrogate (u16_to_N c) then
    match rest with
    | d :: rest' =>
        if is_trail_surrogate (u16_to_N d)
        then c :: d :: quote_code_points rest'
        else unicode_escape c ++ quote_code_points rest
    | [] => unicode_escape c
    end
  else if is_trail_surrogate (u16_to_N c)
  then unicode_escape c ++ quote_code_points rest
  else quote_code_unit c ++ quote_code_points rest.
Proof. reflexivity. Qed.

Lemma quote_code_points_well_formed (s t : jsstring) :
  well_formed (quote_code_points s ++ t) = well_formed t.
Proof.
  induction s as [|u|u v rest IH1 IH2] using jsstring_pair_ind.
  - reflexivity.
  - rewrite quote_code_points_cons.
    destruct (is_lead_surrogate (u16_to_N u)) eqn:Hl.
    + apply well_formed_ascii_app, unicode_escape_ascii.
    + change (quote_code_points []) with (@nil u16). rewrite !app_nil_r.
      destruct (is_trail_surrogate (u16_to_N u)) eqn:Ht.
      * apply well_formed_ascii_app, unicode_escape_ascii.
      * by apply quote_code_unit_well_formed.
  - rewrite quote_code_points_cons.
    destruct (is_lead_surrogate (u16_to_N u)) eqn:Hl.
    + destruct (is_trail_surrogate (u16_to_N v)) eqn:Ht.
      * cbn [app well_formed]. rewrite Hl, Ht. cbn [andb]. exact IH2.
      * rewrite <- app_assoc.
        rewrite well_formed_ascii_app by apply unicode_escape_ascii. exact IH1.
    + destruct (is_trail_surrogate (u16_to_N u)) eqn:Ht.
      * rewrite <- app_assoc.
        rewrite well_formed_ascii_app by apply unicode_escape_ascii. exact IH1.
      * rewrite <- app_assoc.
        rewrite quote_code_unit_well_formed by done. exact IH1.
Qed.

Lemma QuoteJSONString_well_formed (s t : jsstring) :
  well_formed (QuoteJSONString s ++ t) = well_formed t.
Proof.
  unfold QuoteJSONString. cbn [app]. rewrite <- app_assoc.
  change (well_formed (quotation_mark :: ?x)) with (well_formed x).
  rewrite quote_code_points_well_formed. reflexivity.
Qed.

Lemma decimal_digits_of_ascii (fuel : nat) (n : N) (acc : jsstring) :
  forallb is_ascii acc = true ->
  forallb is_ascii (decimal_digits_of fuel n acc) = true.
Proof.
  revert n acc. induction fuel as [|fuel IH]; intros n acc Hacc; [done |].
  cbn [decimal_digits_of].
  assert (forallb is_ascii (hex_digit (n mod 10) :: acc) = true).
  { cbn [forallb]. by rewrite hex_digit_ascii. }
  destruct (_ =? _); [done |]. by apply IH.
Qed.

Lemma Number_toString10_ascii (n : N) : forallb is_ascii (Number_toString10 n) = true.
Proof. by apply decimal_digits_of_ascii. Qed.

Lemma JSON_stringify_metadata_text (fileName : jsstring) (fileSize : N)
    (uploadDate : jsstring) :
  well_formed (JSON_stringify_metadata fileName fileSize uploadDate) = true /\
  starts_with_bom (JSON_stringify_metadata fileName fileSize uploadDate) = false.
Proof.
  split; [| reflexivity].
  unfold JSON_stringify_metadata.
  rewrite (well_formed_ascii_app (js "{")) by reflexivity.
  rewrite QuoteJSONString_well_formed.
  rewrite (well_formed_ascii_app (js ":")) by reflexivity.
  rewrite QuoteJSONString_well_formed.
  rewrite (well_formed_ascii_app (js ",")) by reflexivity.
  rewrite QuoteJSONString_well_formed.
  rewrite (well_formed_ascii_app (js ":")) by reflexivity.
  rewrite (well_formed_ascii_app (Number_toString10 fileSize))
    by apply Number_toString10_ascii.
  rewrite (well_formed_ascii_app (js ",")) by reflexivity.
  rewrite QuoteJSONString_well_formed.
  rewrite (well_formed_ascii_app (js ":")) by reflexivity.
  rewrite QuoteJSONString_well_formed.
  reflexivity.
Qed.

Section Metadata.

Context {G : AesGcm}.

Lemma encryptMetadata_value (fileName : jsstring) (fileSize : N) (uploadDate : Z)
    (key : CryptoKey) (r : entropy) :
  key_allows "encrypt" key = true ->
  encryptMetadata fileName fileSize uploadDate key r =
    (ok {| metadata_encryptedMetadata :=
             base64_encode
               (aes_gcm_encrypt (key_data key) (getRandomValues 12 r).1
                  (TextEncoder_encode
                     (JSON_stringify_metadata fileName fileSize
                        (Date_toISOString uploadDate))));
           metadata_iv := base64_encode (getRandomValues 12 r).1 |},
     (getRandomValues 12 r).2).
Proof.
  intros Hk. unfold encryptMetadata. by rewrite encryptText_value.
Qed.

(** X10.  The text of the metadata comes back through encryption for every
    file name.  [encryptMetadata] writes the metadata as JSON, where a
    surrogate outside of a pair is escaped and the first character is [{]:
    so, with an AES-GCM that decrypts what it encrypted, [decryptText] of its
    two outputs is that JSON text, also for a file name that begins with
    U+FEFF or has unpaired surrogates, and [decryptMetadata] reads what
    [JSON.parse] makes of that text. *)
Theorem encryptMetadata_text_survives {GC : AesGcmCorrect G}
    (name : jsstring) (size : N) (date : Z) (key : CryptoKey) (r : entropy) :
  key_allows "encrypt" key = true -> key_allows "decrypt" key = true ->
  size < 2 ^ 53 ->
  exists encrypted,
    encryptMetadata name size date key r =
      (ok encrypted, (getRandomValues 12 r).2) /\
    metadata_iv encrypted = base64_encode (getRandomValues 12 r).1 /\
    decryptText (metadata_encryptedMetadata encrypted) key (metadata_iv encrypted) =
      ok (JSON_stringify_metadata name size (Date_toISOString date)) /\
    forall J : Json,
      decryptMetadata (metadata_encryptedMetadata encrypted) key
        (metadata_iv encrypted) =
      (let* metadata :=
         JSON_parse (JSON_stringify_metadata name size (Date_toISOString date)) in
       let* nameRead := get_property metadata (js "fileName") in
       let* sizeRead := get_property metadata (js "fileSize") in
       let* dateRead := get_property metadata (js "uploadDate") in
       ok {| fileName := nameRead; fileSize := sizeRead;
             uploadDate := Date_of dateRead |}).
Proof.
  intros He Hd _. rewrite encryptMetadata_value by done.
  eexists. split; [reflexivity |]. split; [reflexivity |].
  cbn [metadata_encryptedMetadata metadata_iv].
  assert (Htext :
    decryptText
      (base64_encode
         (aes_gcm_encrypt (key_data key) (getRandomValues 12 r).1
            (TextEncoder_encode
               (JSON_stringify_metadata name size
                  (Date_toISOString date)))))
      key (base64_encode (getRandomValues 12 r).1) =
    ok (JSON_stringify_metadata name size (Date_toISOString date))).
  { rewrite decryptText_value. unfold subtle_decrypt.
    rewrite Hd, aes_gcm_decrypt_encrypt. cbn [rbind ok].
    destruct (JSON_stringify_metadata_text name size
                (Date_toISOString date)) as [Hwf Hbom].
    by rewrite TextDecoder_decode_encode. }
  split; [exact Htext |].
  intros J. unfold decryptMetadata. by rewrite Htext.
Qed.

End Metadata.

(** ** The action [store] *)

Lemma uuidv4_random (r : entropy) :
  (uuidv4 r).2 = Entropy (tape r) (cursor r + 16).
Proof. reflexivity. Qed.

Lemma read_upload_write_upload (filename : jsstring) (content : list byte)
    (dir : list (jsstring * list byte)) :
  read_upload filename (write_upload filename content dir) = Some content.
Proof. unfold write_upload. cbn. by rewrite jsstring_eqb_refl. Qed.

Lemma read_upload_filter_other (name filename : jsstring)
    (dir : list (jsstring * list byte)) :
  name <> filename ->
  read_upload name
    (List.filter (fun entry => negb (jsstring_eqb entry.1 filename)) dir) =
  read_upload name dir.
Proof.
  intros Hne. induction dir as [|[n c] dir IH]; [done |]. cbn.
  destruct (jsstring_eqb n filename) eqn:E; cbn.
  - apply jsstring_eqb_eq in E. subst n.
    rewrite IH. apply jsstring_eqb_neq in Hne.
    destruct (jsstring_eqb filename name) eqn:E'; [| done].
    apply jsstring_eqb_eq in E'. apply jsstring_eqb_neq in Hne. congruence.
  - rewrite IH. done.
Qed.

Lemma read_upload_write_upload_other (name filename : jsstring)
    (content : list byte) (dir : list (jsstring * list byte)) :
  name <> filename ->
  read_upload name (write_upload filename content dir) = read_upload name dir.
Proof.
  intros Hne. unfold write_upload. cbn.
  destruct (jsstring_eqb filename name) eqn:E.
  - apply jsstring_eqb_eq in E. congruence.
  - by apply read_upload_filter_other.
Qed.

Lemma findUnique_app_new (id : jsstring) (rows : list EncryptedFile)
    (row : EncryptedFile) :
  findUnique id rows = None -> row_id row = id ->
  findUnique id (rows ++ [row]) = Some row.
Proof.
  intros Hnone Hid. induction rows as [|r rows IH]; cbn in *.
  - by rewrite Hid, jsstring_eqb_refl.
  - destruct (jsstring_eqb (row_id r) id); [done |]. by apply IH.
Qed.

Lemma findUnique_app_other (id : jsstring) (rows : list EncryptedFile)
    (row : EncryptedFile) :
  row_id row <> id ->
  findUnique id (rows ++ [row]) = findUnique id rows.
Proof.
  intros Hne. induction rows as [|r rows IH]; cbn.
  - apply jsstring_eqb_neq in Hne. by rewrite Hne.
  - destruct (jsstring_eqb (row_id r) id); [done |]. exact IH.
Qed.

Lemma readFile_fails_record_access (filename : jsstring) (a : Access) (srv : Server) :
  readFile_fails filename (record_access a srv) = readFile_fails filename srv.
Proof. reflexivity. Qed.

Lemma existsb_without (filename : jsstring) (names : list jsstring) :
  existsb (jsstring_eqb filename)
    (List.filter (fun name => negb (jsstring_eqb name filename)) names) = false.
Proof.
  induction names as [|name names IH]; [reflexivity |].
  cbn [List.filter]. destruct (jsstring_eqb name filename) eqn:E; cbn [negb].
  - exact IH.
  - cbn [existsb]. rewrite IH, orb_false_r.
    destruct (jsstring_eqb filename name) eqn:E'; [| reflexivity].
    apply jsstring_eqb_eq in E' as ->. by rewrite jsstring_eqb_refl in E.
Qed.

Lemma writeFile_readable (filename : jsstring) (buffer : list byte) (srv : Server) :
  readFile_fails filename (writeFile filename buffer srv) = false.
Proof. apply existsb_without. Qed.

(** The handler of [store], case by case. *)
Lemma store_handler_cases (input : StoreInput) (h : Host) :
  store_handler input h =
  if (length (input_encryptedFile input) =? 0)%nat then
    (inl (ActionError BAD_REQUEST "Invalid file provided"), h)
  else
    let fileId := (uuidv4 (uuid_random h)).1 in
    let h1 := set_uuid_random (uuidv4 (uuid_random h)).2 h in
    match fs_error h with
    | Some message => (inl (ActionError INTERNAL_SERVER_ERROR message), h1)
    | None =>
        let h2 :=
          set_server
            (writeFile (fileId ++ js ".bin") (input_encryptedFile input)) h1 in
        match database (server h) with
        | None => (inl (ActionError INTERNAL_SERVER_ERROR (prisma_error h)), h2)
        | Some rows =>
            match findUnique fileId rows with
            | Some _ => (inl (ActionError INTERNAL_SERVER_ERROR (prisma_error h)), h2)
            | None =>
                let created :=
                  {| row_id := fileId;
                     row_encryptedMetadata := input_encryptedMetadata input;
                     row_metadataIv := input_metadataIv input;
                     row_fileIv := input_fileIv input;
                     row_encryptionKeyHash := input_keyHash input;
                     row_createdAt := (read_clock (database_clock h)).1 |} in
                (inr {| store_success := true;
                        store_message := "File uploaded successfully";
                        store_fileId := fileId |},
                 set_database_clock (read_clock (database_clock h)).2
                   (set_server (set_database (Some (rows ++ [created]))) h2))
            end
        end
    end.
Proof.
  unfold store_handler.
  destruct (_ =? _)%nat; [reflexivity |].
  destruct (uuidv4 (uuid_random h)) as [fileId r]. cbn [fst snd].
  cbn [set_uuid_random fs_error].
  destruct (fs_error h) as [message|]; [reflexivity |].
  unfold prisma_create.
  cbn [set_server set_uuid_random server database set_upload_dir set_unreadable
       writeFile].
  destruct (database (server h)) as [rows|]; [| reflexivity].
  destruct (findUnique fileId rows); reflexivity.
Qed.

Lemma store_action_handler (formData : FormData) (h : Host) :
  store_action formData h =
  match store_schema formData with
  | inl issue => (inl (ActionInputError issue), h)
  | inr input => store_handler input h
  end.
Proof. reflexivity. Qed.

Lemma z_form_string_inr (formData : FormData) (name : jsstring) (message : string)
    (value : jsstring) :
  z_form_string formData name message = inr value ->
  FormData_get formData name = Some (FormString value) /\ value <> [].
Proof.
  unfold z_form_string, z_string_min1, handleFormDataGet.
  destruct (FormData_get formData name) as [[v|c]|]; [| done | done].
  destruct v; [done |]. cbn [truthy]. by intros [= <-].
Qed.

Lemma z_form_string_value (formData : FormData) (name : jsstring) (message : string)
    (value : jsstring) :
  FormData_get formData name = Some (FormString value) -> value <> [] ->
  z_form_string formData name message = inr value.
Proof.
  intros Hget Hne. unfold z_form_string, z_string_min1, handleFormDataGet.
  rewrite Hget. by destruct value.
Qed.

Lemma z_form_file_value (formData : FormData) (name : jsstring) (content : list byte) :
  FormData_get formData name = Some (FormFile content) ->
  z_form_file formData name = inr content.
Proof.
  intros Hget. unfold z_form_file, z_instanceof_File, handleFormDataGet.
  by rewrite Hget.
Qed.

Lemma z_form_string_issue (formData : FormData) (name : jsstring)
    (message issue : string) :
  z_form_string formData name message = inl issue ->
  (issue = "Expected string, received null"%string /\
   (FormData_get formData name = None \/
    FormData_get formData name = Some (FormString []))) \/
  (issue = "Expected string, received object"%string /\
   exists content, FormData_get formData name = Some (FormFile content)).
Proof.
  unfold z_form_string, z_string_min1, handleFormDataGet.
  destruct (FormData_get formData name) as [[v|c]|].
  - destruct v; cbn [truthy]; [| done]. intros [= <-]. left. split; [done | by right].
  - intros [= <-]. right. split; [done | by exists c].
  - intros [= <-]. left. split; [done | by left].
Qed.

Lemma store_schema_inr (formData : FormData) (input : StoreInput) :
  store_schema formData = inr input ->
  FormData_get formData (js "encryptedFile")
    = Some (FormFile (input_encryptedFile input)) /\
  FormData_get formData (js "encryptedMetadata")
    = Some (FormString (input_encryptedMetadata input)) /\
  FormData_get formData (js "metadataIv")
    = Some (FormString (input_metadataIv input)) /\
  FormData_get formData (js "fileIv") = Some (FormString (input_fileIv input)) /\
  FormData_get formData (js "keyHash") = Some (FormString (input_keyHash input)) /\
  input_encryptedMetadata input <> [] /\ input_metadataIv input <> [] /\
  input_fileIv input <> [] /\ input_keyHash input <> [].
Proof.
  unfold store_schema, z_form_file, z_instanceof_File, handleFormDataGet at 1.
  destruct (FormData_get formData (js "encryptedFile")) as [[v|c]|];
    [by destruct (truthy v) | | done].
  destruct (z_form_string formData (js "encryptedMetadata") _) as [|em] eqn:E1; [done |].
  destruct (z_form_string formData (js "metadataIv") _) as [|mi] eqn:E2; [done |].
  destruct (z_form_string formData (js "fileIv") _) as [|fi] eqn:E3; [done |].
  destruct (z_form_string formData (js "keyHash") _) as [|kh] eqn:E4; [done |].
  intros [= <-]. cbn.
  apply z_form_string_inr in E1 as [? ?], E2 as [? ?], E3 as [? ?], E4 as [? ?].
  done.
Qed.

(** X11.  [store] refuses a request before anything is written.  A form
    the schema rejects fails with the input error of the schema, and an
    accepted form whose file is empty with BAD_REQUEST "Invalid file
    provided"; in both cases the host is as before: no id is drawn, no file
    written, no row added.  Every other failure of [store], for every form and
    host, is an INTERNAL_SERVER_ERROR on an accepted form with a file that is
    not empty, with the message of the file system or of the database client.
    The issue of a rejected form is never one of the four messages the schema
    gives to [min(1, ...)]: a string field that is missing or empty reaches
    the schema as [null] and is refused with "Expected string, received
    null". *)
Theorem store_action_refuses_before_writing (formData : FormData) (h : Host) :
  ((forall input, store_schema formData <> inr input) ->
   exists issue,
     store_schema formData = inl issue /\
     store_action formData h = (inl (ActionInputError issue), h)) /\
  (forall input,
     store_schema formData = inr input -> input_encryptedFile input = [] ->
     store_action formData h
       = (inl (ActionError BAD_REQUEST "Invalid file provided"), h)) /\
  (forall failure h',
     store_action formData h = (inl failure, h') ->
     match failure with
     | ActionInputError issue => store_schema formData = inl issue /\ h' = h
     | ActionError BAD_REQUEST message =>
         message = "Invalid file provided"%string /\ h' = h /\
         exists input, store_schema formData = inr input /\
                       input_encryptedFile input = []
     | ActionError INTERNAL_SERVER_ERROR message =>
         (fs_error h = Some message \/
          (fs_error h = None /\ message = prisma_error h)) /\
         exists input, store_schema formData = inr input /\
                       input_encryptedFile input <> []
     | ActionError NOT_FOUND _ => False
     end) /\
  (forall issue,
     store_schema formData = inl issue ->
     issue = "Input not instance of File"%string \/
     issue = "Expected string, received null"%string \/
     issue = "Expected string, received object"%string).
Proof.
  split; [| split; [| split]].
  - intros Hno. rewrite store_action_handler.
    destruct (store_schema formData) as [issue|input]; [by exists issue |].
    by destruct (Hno input).
  - intros input Hs Hempty.
    by rewrite store_action_handler, Hs, store_handler_cases, Hempty.
  - intros failure h'. rewrite store_action_handler.
    destruct (store_schema formData) as [issue|input]; [by intros [= <- <-] |].
    rewrite store_handler_cases.
    destruct (input_encryptedFile input) as [|b file] eqn:Hfile.
    { cbn [length Nat.eqb]. intros [= <- <-]. repeat split. by exists input. }
    cbn [length Nat.eqb]. cbn zeta.
    destruct (fs_error h) as [message|] eqn:Hfs.
    { intros [= <- <-]. split; [by left |]. exists input. by rewrite Hfile. }
    destruct (database (server h)) as [rows|].
    + destruct (findUnique _ rows); [| done].
      intros [= <- <-]. split; [by right |]. exists input. by rewrite Hfile.
    + intros [= <- <-]. split; [by right |]. exists input. by rewrite Hfile.
  - intros issue. unfold store_schema, z_form_file, z_instanceof_File.
    destruct (handleFormDataGet formData (js "encryptedFile"));
      [intros [= <-]; by left | intros [= <-]; by left |].
    destruct (z_form_string formData (js "encryptedMetadata") _) as [i1|em] eqn:E1.
    { intros [= <-]. apply z_form_string_issue in E1 as [[-> _]|[-> _]]; auto. }
    destruct (z_form_string formData (js "metadataIv") _) as [i2|mi] eqn:E2.
    { intros [= <-]. apply z_form_string_issue in E2 as [[-> _]|[-> _]]; auto. }
    destruct (z_form_string formData (js "fileIv") _) as [i3|fi] eqn:E3.
    { intros [= <-]. apply z_form_string_issue in E3 as [[-> _]|[-> _]]; auto. }
    destruct (z_form_string formData (js "keyHash") _) as [i4|kh] eqn:E4; [| done].
    intros [= <-]. apply z_form_string_issue in E4 as [[-> _]|[-> _]]; auto.
Qed.

(** X12.  [store] files an upload.  It succeeds exactly when the schema
    accepts the form, the file is not empty, the upload directory can be
    written, the database can be reached and has no row of the id drawn.
    Then the id is the one [uuidv4] made of the next 16 random bytes, the
    file [<id>.bin] holds the bytes sent, the table has one more row, with
    the strings sent and the instant of the database, and the other files and
    rows are as before. *)
Theorem store_action_files_the_upload (formData : FormData) (h : Host)
    (input : StoreInput) :
  store_schema formData = inr input ->
  let fileId := (uuidv4 (uuid_random h)).1 in
  let created :=
    {| row_id := fileId;
       row_encryptedMetadata := input_encryptedMetadata input;
       row_metadataIv := input_metadataIv input;
       row_fileIv := input_fileIv input;
       row_encryptionKeyHash := input_keyHash input;
       row_createdAt := instants (database_clock h) (readings (database_clock h)) |} in
  ((exists data, (store_action formData h).1 = inr data) <->
   input_encryptedFile input <> [] /\ fs_error h = None /\
   exists rows, database (server h) = Some rows /\ findUnique fileId rows = None) /\
  (forall data h',
     store_action formData h = (inr data, h') ->
     data = {| store_success := true;
               store_message := "File uploaded successfully";
               store_fileId := fileId |} /\
     uuid_random h' = (uuidv4 (uuid_random h)).2 /\
     (exists rows, database (server h) = Some rows /\
                   database (server h') = Some (rows ++ [created])) /\
     read_upload (fileId ++ js ".bin") (upload_dir (server h')) =
       Some (input_encryptedFile input) /\
     (forall name, name <> fileId ++ js ".bin" ->
        read_upload name (upload_dir (server h')) =
        read_upload name (upload_dir (server h))) /\
     (forall id rows', database (server h') = Some rows' -> id <> fileId ->
        exists rows, database (server h) = Some rows /\
                     findUnique id rows' = findUnique id rows) /\
     (forall rows', database (server h') = Some rows' ->
        findUnique fileId rows' = Some created)).
Proof.
  intros Hs fileId created. rewrite store_action_handler, Hs, store_handler_cases.
  fold fileId.
  destruct (input_encryptedFile input) as [|b file] eqn:Hfile.
  { cbn [length Nat.eqb fst]. split; [| done]. split; [by intros [? ?] |].
    by intros [? _]. }
  cbn [length Nat.eqb]. cbn zeta.
  destruct (fs_error h) as [message|] eqn:Hfs.
  { cbn [fst]. split; [| done]. split; [by intros [? ?] | by intros (_ & ? & _)]. }
  destruct (database (server h)) as [rows|] eqn:Hdb.
  2:{ cbn [fst]. split; [| done]. split; [by intros [? ?] |].
      by intros (_ & _ & rows & ? & _). }
  destruct (findUnique fileId rows) as [row|] eqn:Hfind.
  { cbn [fst]. split; [| done]. split; [by intros [? ?] |].
    intros (_ & _ & rows' & [= <-] & ?). congruence. }
  cbn [fst]. split.
  { split; [| by eexists]. intros _. repeat split; try done. by exists rows. }
  intros data h' [= <- <-].
  split; [reflexivity |]. split; [reflexivity |].
  split; [by exists rows |].
  cbn [set_database_clock set_server set_database set_upload_dir set_unreadable
       writeFile set_uuid_random server upload_dir database].
  split; [apply read_upload_write_upload |].
  split; [intros name Hne; by apply read_upload_write_upload_other |].
  split.
  - intros id rows' [= <-] Hne. exists rows. split; [done |].
    by apply findUnique_app_other.
  - intros rows' [= <-]. by apply findUnique_app_new.
Qed.

Lemma on_server_value {A} (action : Server -> A * Server) (h : Host) :
  on_server action h = ((action (server h)).1,
                        set_server (fun _ => (action (server h)).2) h).
Proof. unfold on_server. by destruct (action (server h)). Qed.

Lemma store_action_stored (formData : FormData) (h h' : Host) (input : StoreInput)
    (data : StoreOutput) :
  store_schema formData = inr input ->
  store_action formData h = (inr data, h') ->
  let fileId := (uuidv4 (uuid_random h)).1 in
  let created :=
    {| row_id := fileId;
       row_encryptedMetadata := input_encryptedMetadata input;
       row_metadataIv := input_metadataIv input;
       row_fileIv := input_fileIv input;
       row_encryptionKeyHash := input_keyHash input;
       row_createdAt := instants (database_clock h) (readings (database_clock h)) |} in
  store_fileId data = fileId /\
  (exists rows, database (server h') = Some (rows ++ [created]) /\
                findUnique fileId (rows ++ [created]) = Some created) /\
  read_upload (fileId ++ js ".bin") (upload_dir (server h')) =
    Some (input_encryptedFile input) /\
  readFile_fails (fileId ++ js ".bin") (server h') = false.
Proof.
  intros Hs. cbv zeta. rewrite store_action_handler, Hs, store_handler_cases.
  destruct (input_encryptedFile input) as [|b file]; [done |].
  cbn [length Nat.eqb]. cbn zeta.
  destruct (fs_error h); [done |].
  destruct (database (server h)) as [rows|]; [| done].
  destruct (findUnique (uuidv4 (uuid_random h)).1 rows) eqn:Hfind; [done |].
  intros [= <- <-].
  cbn [set_database_clock set_server set_database set_uuid_random server database
       store_fileId].
  split; [reflexivity |]. split; [| split].
  - exists rows. split; [reflexivity |]. by apply findUnique_app_new.
  - apply read_upload_write_upload.
  - apply writeFile_readable.
Qed.

(** A successful [store], in full. *)
Lemma store_action_filed (formData : FormData) (h h' : Host) (data : StoreOutput) :
  store_action formData h = (inr data, h') ->
  exists input rows,
    store_schema formData = inr input /\
    database (server h) = Some rows /\
    findUnique (uuidv4 (uuid_random h)).1 rows = None /\
    database (server h') =
      Some (rows ++
            [{| row_id := (uuidv4 (uuid_random h)).1;
                row_encryptedMetadata := input_encryptedMetadata input;
                row_metadataIv := input_metadataIv input;
                row_fileIv := input_fileIv input;
                row_encryptionKeyHash := input_keyHash input;
                row_createdAt := (read_clock (database_clock h)).1 |}]) /\
    read_upload ((uuidv4 (uuid_random h)).1 ++ js ".bin") (upload_dir (server h')) =
      Some (input_encryptedFile input) /\
    forall name, name <> (uuidv4 (uuid_random h)).1 ++ js ".bin" ->
      read_upload name (upload_dir (server h')) =
      read_upload name (upload_dir (server h)).
Proof.
  rewrite store_action_handler.
  destruct (store_schema formData) as [issue|input]; [done |].
  rewrite store_handler_cases.
  destruct (input_encryptedFile input) as [|b file] eqn:Hfile; [done |].
  cbn [length Nat.eqb]. cbn zeta.
  destruct (fs_error h); [done |].
  destruct (database (server h)) as [rows|]; [| done].
  destruct (findUnique (uuidv4 (uuid_random h)).1 rows) eqn:Hfind; [done |].
  intros [= <- <-]. exists input, rows.
  cbn [set_database_clock set_server set_database set_uuid_random server database].
  split; [done |]. split; [done |]. split; [done |]. split; [reflexivity |].
  split.
  - rewrite Hfile. apply read_upload_write_upload.
  - intros name Hname. by apply read_upload_write_upload_other.
Qed.

(** A failed [store] leaves the table as it is. *)
Lemma store_action_failed_table (formData : FormData) (h h' : Host)
    (failure : ActionFailure) :
  store_action formData h = (inl failure, h') ->
  database (server h') = database (server h).
Proof.
  rewrite store_action_handler.
  destruct (store_schema formData) as [issue|input]; [by intros [= _ <-] |].
  rewrite store_handler_cases.
  destruct (_ =? _)%nat; [by intros [= _ <-] |]. cbn zeta.
  destruct (fs_error h); [intros [= _ <-]; reflexivity |].
  destruct (database (server h)) as [rows|] eqn:Hdb;
    [destruct (findUnique _ rows); [| done] |];
    intros [= _ <-]; rewrite <- Hdb; reflexivity.
Qed.

Lemma findUnique_app_None (id : jsstring) (rows more : list EncryptedFile) :
  findUnique id (rows ++ more) = None ->
  findUnique id rows = None /\ findUnique id more = None.
Proof.
  rewrite !findUnique_None. intros H.
  split; intros row Hin; apply H, in_or_app; auto.
Qed.

(** X13.  What [store] filed, the other actions give back.  After a
    successful [store], [info] of the id it answered returns the strings
    sent, the key hash and the instant of the row; [fetch] of that id returns
    the bytes sent, in base64, under the name [<id>.bin]; and [list] of the
    key hash sent has an entry of that id with the metadata strings sent.
    The id is one the schema of [info] and [fetch] accepts when the UUID
    check accepts what [uuidv4] makes. *)
Theorem stored_file_is_served {Z0 : Zod} (formData : FormData) (h h' : Host)
    (input : StoreInput) (data : StoreOutput) :
  store_schema formData = inr input ->
  store_action formData h = (inr data, h') ->
  zod_uuid (store_fileId data) = true ->
  let fileId := store_fileId data in
  let createdAt := instants (database_clock h) (readings (database_clock h)) in
  (info_action (JObject [(js "fileId", JString fileId)]) (server h')).1 =
    inr {| record_id := fileId;
           record_encryptedMetadata := input_encryptedMetadata input;
           record_metadataIv := input_metadataIv input;
           record_fileIv := input_fileIv input;
           record_encryptionKeyHash := input_keyHash input;
           record_uploadedAt := createdAt |} /\
  (fetch_action (JObject [(js "fileId", JString fileId)]) (server h')).1 =
    inr {| blob_data := base64_encode (input_encryptedFile input);
           blob_filename := fileId ++ js ".bin" |} /\
  exists files,
    (list_action (JObject [(js "keyHash", JString (input_keyHash input))])
       (server h')).1 = inr files /\
    In {| listed_id := fileId;
          listed_encryptedMetadata := input_encryptedMetadata input;
          listed_metadataIv := input_metadataIv input;
          listed_fileIv := input_fileIv input;
          listed_uploadedAt := createdAt |} files.
Proof.
  intros Hs Hstore Hid fileId createdAt.
  destruct (store_action_stored formData h h' input data Hs Hstore)
    as (Hfid & (rows & Hdb' & Hrow) & Hfile & Hread).
  fold fileId in Hfid. rewrite <- Hfid in Hrow, Hfile, Hdb', Hread.
  split; [| split].
  - unfold info_action, defineAction, z_object_string.
    cbn [lookup_property]. rewrite jsstring_eqb_refl. fold fileId in Hid. rewrite Hid.
    cbn [record_access database]. rewrite Hdb', Hrow. reflexivity.
  - unfold fetch_action, defineAction, z_object_string.
    cbn [lookup_property]. rewrite jsstring_eqb_refl. fold fileId in Hid. rewrite Hid.
    cbn [record_access upload_dir]. rewrite Hfile.
    change (readFile_fails (fileId ++ js ".bin") (record_access _ (record_access _ ?s)))
      with (readFile_fails (fileId ++ js ".bin") s).
    by rewrite Hread.
  - destruct (store_schema_inr formData input Hs) as (_ & _ & _ & _ & _ & _ & _ & _ & Hkh).
    unfold list_action, defineAction, z_object_string.
    cbn [lookup_property]. rewrite jsstring_eqb_refl.
    destruct (input_keyHash input) as [|c kh] eqn:Ekh; [done |].
    cbn [truthy record_access database]. rewrite Hdb'.
    eexists. split; [reflexivity |].
    apply in_map_iff.
    exists {| row_id := fileId;
              row_encryptedMetadata := input_encryptedMetadata input;
              row_metadataIv := input_metadataIv input;
              row_fileIv := input_fileIv input;
              row_encryptionKeyHash := c :: kh;
              row_createdAt := createdAt |}.
    split; [reflexivity |].
    apply list_elem_of_In. unfold findMany.
    rewrite order_by_createdAt_desc_perm.
    apply list_elem_of_In, filter_In. split.
    + apply in_or_app. right. left. reflexivity.
    + apply (jsstring_eqb_refl (c :: kh)).
Qed.

(** X14.  [store] is not undone when the insert fails.  With a form the
    schema accepts, a file that is not empty and an upload directory that can
    be written, a database that cannot be reached, or that has a row of the
    id drawn, makes [store] fail with INTERNAL_SERVER_ERROR and the message
    of the database client; the file [<id>.bin] has been written with the
    bytes sent and stays, and the table is as before. *)
Theorem store_action_insert_failure_leaves_file (formData : FormData) (h : Host)
    (input : StoreInput) :
  store_schema formData = inr input ->
  input_encryptedFile input <> [] ->
  fs_error h = None ->
  (forall rows, database (server h) = Some rows ->
     findUnique (uuidv4 (uuid_random h)).1 rows <> None) ->
  exists h',
    store_action formData h =
      (inl (ActionError INTERNAL_SERVER_ERROR (prisma_error h)), h') /\
    database (server h') = database (server h) /\
    read_upload ((uuidv4 (uuid_random h)).1 ++ js ".bin") (upload_dir (server h')) =
      Some (input_encryptedFile input) /\
    uuid_random h' = (uuidv4 (uuid_random h)).2.
Proof.
  intros Hs Hfile Hfs Hdb.
  rewrite store_action_handler, Hs, store_handler_cases.
  destruct (input_encryptedFile input) as [|b file]; [done |].
  cbn [length Nat.eqb]. cbn zeta. rewrite Hfs.
  destruct (database (server h)) as [rows|] eqn:Hrows.
  - destruct (findUnique _ rows) eqn:Hfind; [| by destruct (Hdb rows eq_refl)].
    eexists. split; [reflexivity |].
    cbn [set_server set_upload_dir set_unreadable writeFile set_uuid_random server
         database upload_dir uuid_random].
    split; [done |]. split; [apply read_upload_write_upload | reflexivity].
  - eexists. split; [reflexivity |].
    cbn [set_server set_upload_dir set_unreadable writeFile set_uuid_random server
         database upload_dir uuid_random].
    split; [done |]. split; [apply read_upload_write_upload | reflexivity].
Qed.

(** ** The handlers of the page *)

Lemma progress_without_set (id : jsstring) (value : N) (prev : list (jsstring * N)) :
  progress_without id (progress_set id value prev) = progress_without id prev.
Proof.
  unfold progress_without, progress_set. cbn [List.filter fst].
  rewrite jsstring_eqb_refl. cbn [negb].
  induction prev as [|[n v] prev IH]; [done |]. cbn [List.filter fst].
  destruct (negb (jsstring_eqb n id)) eqn:E; cbn [List.filter fst].
  - rewrite E. by rewrite IH.
  - exact IH.
Qed.

Lemma progress_set_set (id : jsstring) (v v' : N) (prev : list (jsstring * N)) :
  progress_set id v (progress_set id v' prev) = progress_set id v prev.
Proof.
  unfold progress_set at 1. fold (progress_without id (progress_set id v' prev)).
  by rewrite progress_without_set.
Qed.

(** Normal forms of worlds: the updates are unfolded level by level. *)
Ltac simpl_world :=
  unfold set_session, set_host, set_page in *;
  cbn [session host page fst snd] in *;
  unfold set_ui, set_successes, set_uploadingStore, set_selectedFilesStore,
    set_uploadProgressStore, set_hasUploadedFilesStore, set_shareLink,
    set_clipboard_text, set_downloads, set_timers, set_page_clock,
    set_manager, set_stores, set_window,
    set_server, set_uuid_random, set_database_clock, read_clock in *;
  cbn [session host page
       ui successes uploadingStore selectedFilesStore uploadProgressStore
       hasUploadedFilesStore shareLink clipboard_text clipboard_granted
       downloads timers page_clock manager stores window
       server uuid_random database_clock fs_error prisma_error
       instants readings fst snd] in *;
  unfold set_random, set_location_hash, set_sessionStorage,
    set_database, set_upload_dir, set_unreadable, writeFile in *;
  cbn [session host page
       ui successes uploadingStore selectedFilesStore uploadProgressStore
       hasUploadedFilesStore shareLink clipboard_text clipboard_granted
       downloads timers page_clock manager stores window
       server uuid_random database_clock fs_error prisma_error
       instants readings fst snd
       location_base location_hash sessionStorage random
       database upload_dir unreadable accesses] in *.

(** The same on demand: an update is unfolded where a field is read. *)
Ltac read_world :=
  cbn beta iota delta
    [set_session set_host set_page
     set_ui set_successes set_uploadingStore set_selectedFilesStore
     set_uploadProgressStore set_hasUploadedFilesStore set_shareLink
     set_clipboard_text set_downloads set_timers set_page_clock
     set_manager set_stores set_window
     set_server set_uuid_random set_database_clock read_clock
     set_random set_location_hash set_sessionStorage
     set_database set_upload_dir set_unreadable writeFile
     session host page
     ui successes uploadingStore selectedFilesStore uploadProgressStore
     hasUploadedFilesStore shareLink clipboard_text clipboard_granted
     downloads timers page_clock manager stores window
     server uuid_random database_clock fs_error prisma_error
     instants readings fst snd
     location_base location_hash sessionStorage random
     database upload_dir unreadable accesses] in *.

Section Upload.
Context {G : AesGcm} {Msg : Messages}.

Lemma upload_file_spec (key : CryptoKey) (keyHash : jsstring) (index : nat)
    (file : File) (w : World) :
  key_allows "encrypt" key = true ->
  upload_file key keyHash index file w =
  match store_action
          (upload_form key keyHash file (random (window (session w)))
             (read_clock (page_clock (page w))).1)
          (host w) with
  | (inr data, h) =>
      if store_success data
      then (ok tt, after_upload index 100 h w)
      else (throw (Error ("Upload failed for " ++ double_quote
                          ++ utf8_string (file_name file) ++ double_quote)%string),
            after_upload index 75 h w)
  | (inl failure, h) =>
      (throw (Error (upload_failure_message failure file)),
       after_upload index 75 h w)
  end.
Proof.
  intros He. unfold upload_file.
  cbv [mbind Handler_bind setProgress update with_random new_Date world attempt
       call_action mret Handler_ret raise ok].
  cbn [set_page session window host page].
  rewrite encryptFile_value by done.
  cbn [ok set_session set_window set_random session window random page set_page
       read_clock set_page_clock page_clock set_uploadProgressStore fst snd].
  rewrite encryptMetadata_value by done.
  cbn [ok set_session set_window set_random session window random page set_page
       file_iv file_encryptedData metadata_encryptedMetadata metadata_iv host
       fst snd read_clock set_page_clock page_clock set_uploadProgressStore].
  rewrite btoa_fromCharCode. cbn [ok].
  unfold upload_form. cbn [fst snd].
  destruct (store_action _ (host w)) as [[failure|data] h].
  - unfold upload_failure_message, after_upload, upload_progress_id, throw.
    destruct w as [s hh p]. simpl_world.
    by rewrite !progress_set_set.
  - destruct (store_success data).
    + unfold after_upload, upload_progress_id.
      destruct w as [s hh p]. simpl_world.
      by rewrite !progress_set_set.
    + unfold after_upload, upload_progress_id, throw.
      destruct w as [s hh p]. simpl_world.
      by rewrite !progress_set_set.
Qed.

Lemma store_action_success (formData : FormData) (h h' : Host) (data : StoreOutput) :
  store_action formData h = (inr data, h') -> store_success data = true.
Proof.
  rewrite store_action_handler.
  destruct (store_schema formData) as [issue|input]; [done |].
  rewrite store_handler_cases.
  destruct (_ =? _)%nat; [done |]. cbn zeta.
  destruct (fs_error h); [done |].
  destruct (database (server h)) as [rows|]; [| done].
  destruct (findUnique _ rows); [done |]. by intros [= <- _].
Qed.

Lemma store_action_frame (formData : FormData) (h : Host) :
  fs_error (store_action formData h).2 = fs_error h /\
  prisma_error (store_action formData h).2 = prisma_error h /\
  accesses (server (store_action formData h).2) = accesses (server h).
Proof.
  rewrite store_action_handler.
  destruct (store_schema formData) as [issue|input]; [done |].
  rewrite store_handler_cases.
  destruct (_ =? _)%nat; [done |]. cbn zeta.
  destruct (fs_error h) eqn:Hfs; [done |].
  destruct (database (server h)) as [rows|]; [| done].
  destruct (findUnique _ rows); done.
Qed.

(** The loop of [handleUpload], one file after the other. *)
Lemma upload_files_cons (key : CryptoKey) (keyHash : jsstring) (index : nat)
    (file : File) (rest : list File) (w : World) :
  key_allows "encrypt" key = true ->
  upload_files key keyHash index (file :: rest) w =
  match store_action
          (upload_form key keyHash file (random (window (session w)))
             (read_clock (page_clock (page w))).1)
          (host w) with
  | (inr data, h) =>
      upload_files key keyHash (S index) rest (after_upload index 100 h w)
  | (inl failure, h) =>
      (throw (Error (upload_failure_message failure file)),
       after_upload index 75 h w)
  end.
Proof.
  intros He. cbn [upload_files]. unfold mbind, Handler_bind.
  rewrite upload_file_spec by done.
  destruct (store_action _ (host w)) as [[failure|data] h] eqn:Hstore; [done |].
  by rewrite (store_action_success _ _ _ _ Hstore).
Qed.

Lemma same_but_upload_refl (w : World) : same_but_upload w w.
Proof. by repeat split. Qed.

Lemma same_but_upload_trans (w1 w2 w3 : World) :
  same_but_upload w1 w2 -> same_but_upload w2 w3 -> same_but_upload w1 w3.
Proof.
  unfold same_but_upload. intros H1 H2.
  repeat match goal with H : _ /\ _ |- _ => destruct H end.
  repeat split; congruence.
Qed.

Lemma after_upload_same (index : nat) (shown : N) (formData : FormData) (w : World) :
  same_but_upload w (after_upload index shown (store_action formData (host w)).2 w).
Proof.
  destruct (store_action_frame formData (host w)) as (H1 & H2 & H3).
  unfold same_but_upload, after_upload. simpl_world. by repeat split.
Qed.

Lemma upload_files_same (key : CryptoKey) (keyHash : jsstring) (files : list File) :
  key_allows "encrypt" key = true ->
  forall index w, same_but_upload w (upload_files key keyHash index files w).2.
Proof.
  intros He. induction files as [|file rest IH]; intros index w.
  - apply same_but_upload_refl.
  - rewrite upload_files_cons by done.
    pose proof (after_upload_same index 100
                  (upload_form key keyHash file (random (window (session w)))
                     (read_clock (page_clock (page w))).1) w) as H100.
    pose proof (after_upload_same index 75
                  (upload_form key keyHash file (random (window (session w)))
                     (read_clock (page_clock (page w))).1) w) as H75.
    destruct (store_action _ (host w)) as [[failure|data] h]; cbn [snd] in *.
    + exact H75.
    + eapply same_but_upload_trans; [exact H100 | apply IH].
Qed.

(** What the schema reads in the form of [handleUpload]. *)
Lemma upload_form_input (key : CryptoKey) (keyHash : jsstring) (file : File)
    (r : entropy) (uploadDate : Z) (input : StoreInput) :
  store_schema (upload_form key keyHash file r uploadDate) = inr input ->
  input_encryptedFile input =
    aes_gcm_encrypt (key_data key) (getRandomValues 12 r).1 (file_content file) /\
  input_encryptedMetadata input =
    base64_encode
      (aes_gcm_encrypt (key_data key) (getRandomValues 12 (getRandomValues 12 r).2).1
         (TextEncoder_encode
            (JSON_stringify_metadata (file_name file) (file_size file)
               (Date_toISOString uploadDate)))) /\
  input_metadataIv input = base64_encode (getRandomValues 12 (getRandomValues 12 r).2).1 /\
  input_fileIv input = base64_encode (getRandomValues 12 r).1 /\
  input_keyHash input = keyHash.
Proof.
  intros Hs. apply store_schema_inr in Hs as (H1 & H2 & H3 & H4 & H5 & _).
  unfold upload_form in *.
  change (FormData_get ((js "encryptedFile", ?v) :: _) (js "encryptedFile"))
    with (Some v) in H1.
  change (FormData_get (_ :: (js "encryptedMetadata", ?v) :: _)
            (js "encryptedMetadata")) with (Some v) in H2.
  change (FormData_get (_ :: _ :: (js "metadataIv", ?v) :: _) (js "metadataIv"))
    with (Some v) in H3.
  change (FormData_get (_ :: _ :: _ :: _ :: (js "fileIv", ?v) :: _) (js "fileIv"))
    with (Some v) in H4.
  change (FormData_get (_ :: _ :: _ :: (js "keyHash", ?v) :: _) (js "keyHash"))
    with (Some v) in H5.
  repeat split; congruence.
Qed.

(** The loop of [handleUpload] when it comes to its end: every file has its
    row and its file. *)
Lemma upload_files_stored (key : CryptoKey) (keyHash : jsstring) (files : list File) :
  key_allows "encrypt" key = true ->
  forall index w w1,
    upload_files key keyHash index files w = (inr tt, w1) ->
    exists new,
      (files <> [] -> exists rows, database (server (host w)) = Some rows) /\
      database (server (host w1))
        = (fun rows => rows ++ new) <$> database (server (host w)) /\
      Forall2 (stored_as key keyHash (upload_dir (server (host w1)))) files new /\
      (forall rows row,
         database (server (host w)) = Some rows -> In row new ->
         findUnique (row_id row) rows = None) /\
      (forall name,
         (forall row, In row new -> name <> row_id row ++ js ".bin") ->
         read_upload name (upload_dir (server (host w1)))
           = read_upload name (upload_dir (server (host w)))).
Proof.
  intros He. induction files as [|file rest IH]; intros index w w1.
  - cbn [upload_files]. intros [= <-]. exists [].
    split; [done |].
    split; [by destruct (database _); cbn [fmap option_fmap option_map];
               rewrite ?app_nil_r |].
    split; [constructor |]. split; [by intros ? ? _ [] | done].
  - rewrite upload_files_cons by done.
    destruct (store_action _ (host w)) as [[failure|data] h] eqn:Hstore; [done |].
    intros Hrest.
    destruct (store_action_filed _ _ _ _ Hstore)
      as (input & rows & Hs & Hdb & Hfresh & Hdb' & Hfile & Hframe).
    apply upload_form_input in Hs as (Hi1 & Hi2 & Hi3 & Hi4 & Hi5).
    rewrite Hi1 in Hfile. rewrite Hi2, Hi3, Hi4, Hi5 in Hdb'.
    set (fileId := (uuidv4 (uuid_random (host w))).1) in *.
    set (created := {| row_id := fileId |}) in *.
    destruct (IH _ _ _ Hrest) as (new & _ & Hnew & Hall & Hfr & Hdir).
    cbn [after_upload host] in Hnew, Hfr, Hdir.
    rewrite Hdb' in Hnew. cbn [fmap option_fmap option_map] in Hnew.
    assert (Hother : forall row, In row new -> row_id row <> fileId).
    { intros row Hin Hid.
      apply (Hfr _ row Hdb') in Hin. apply findUnique_app_None in Hin as [_ Hc].
      cbn [findUnique created row_id] in Hc. rewrite <- Hid in Hc.
      by rewrite jsstring_eqb_refl in Hc. }
    exists (created :: new).
    split; [intros _; by exists rows |].
    split; [by rewrite Hdb, Hnew, <- app_assoc |].
    split; [| split].
    + constructor; [| exact Hall].
      split; [reflexivity |].
      exists (getRandomValues 12 (random (window (session w)))).1,
        (getRandomValues 12 (getRandomValues 12 (random (window (session w)))).2).1,
        (read_clock (page_clock (page w))).1.
      split; [reflexivity |]. split; [| split; reflexivity].
      cbn [row_id created]. rewrite Hdir; [exact Hfile |].
      intros row Hin E. apply app_inv_tail in E. by apply (Hother row Hin).
    + intros rows0 row Hdb0 [<- | Hin].
      * rewrite Hdb in Hdb0. by injection Hdb0 as <-.
      * rewrite Hdb in Hdb0. injection Hdb0 as <-.
        by apply (Hfr _ row Hdb'), findUnique_app_None in Hin as [? _].
    + intros name Hname. rewrite Hdir.
      * apply Hframe. apply (Hname created). by left.
      * intros row Hin. apply Hname. by right.
Qed.

(** The loop of [handleUpload] adds rows to the table and takes none away:
    one per file when it comes to its end, fewer when it fails. *)
Lemma upload_files_table (key : CryptoKey) (keyHash : jsstring) (files : list File) :
  key_allows "encrypt" key = true ->
  forall index w,
    exists new,
      database (server (host (upload_files key keyHash index files w).2))
        = (fun rows => rows ++ new) <$> database (server (host w)) /\
      match (upload_files key keyHash index files w).1 with
      | inr _ => length new = length files
      | inl _ => (length new < length files)%nat
      end.
Proof.
  intros He. induction files as [|file rest IH]; intros index w.
  - exists []. split; [| reflexivity].
    change (database (server (host w))
            = (fun rows => rows ++ []) <$> database (server (host w))).
    destruct (database _); cbn [fmap option_fmap option_map]; by rewrite ?app_nil_r.
  - rewrite upload_files_cons by done.
    destruct (store_action _ (host w)) as [[failure|data] h] eqn:Hstore.
    + exists []. cbn [fst snd after_upload host length].
      rewrite (store_action_failed_table _ _ _ _ Hstore).
      split; [| unfold throw; lia].
      destruct (database _); cbn [fmap option_fmap option_map]; by rewrite ?app_nil_r.
    + destruct (store_action_filed _ _ _ _ Hstore)
        as (input & rows & _ & Hdb & _ & Hdb' & _).
      destruct (IH (S index) (after_upload index 100 h w)) as (new & Hnew & Hlen).
      cbn [after_upload host] in Hnew. rewrite Hdb' in Hnew.
      cbn [fmap option_fmap option_map] in Hnew.
      eexists (_ :: new). rewrite Hdb, Hnew.
      split; [cbn [fmap option_fmap option_map]; by rewrite <- app_assoc |].
      cbn [length]. revert Hlen. destruct (upload_files _ _ _ _ _).1; lia.
Qed.

End Upload.

Section Handlers.
Context {G : AesGcm} {J : Json} {Msg : Messages}.

(** X15.  [handleUpload] sends nothing without a selection and a key.  With
    no file selected it raises the toast "Please select at least one file";
    with files selected but no key, or no key hash, it raises "Encryption key
    not ready".  In both cases nothing else changes: no request reaches the
    server, no randomness is drawn, the selection and the progress are as
    before. *)
Theorem handleUpload_needs_files_and_key (w : World) :
  (selectedFilesStore (page w) = [] ->
   handleUpload w =
     (ok tt, set_page (set_ui (toast_error "Please select at least one file")) w)) /\
  (selectedFilesStore (page w) <> [] ->
   getKey (session w) = None \/ getKeyHash (session w) = None \/
   getKeyHash (session w) = Some [] ->
   handleUpload w =
     (ok tt, set_page (set_ui (toast_error "Encryption key not ready")) w)).
Proof.
  split.
  - intros Hsel. unfold handleUpload.
    cbv [mbind Handler_bind world ok]. by rewrite Hsel.
  - intros Hsel Hkey. unfold handleUpload.
    cbv [mbind Handler_bind world ok].
    destruct (selectedFilesStore (page w)) as [|file rest]; [done |].
    cbn [length Nat.eqb].
    destruct Hkey as [-> | [-> | ->]]; [done | | ].
    + by destruct (getKey (session w)).
    + by destruct (getKey (session w)).
Qed.

(** [handleUpload] once the selection and the key are there. *)
Lemma handleUpload_spec (w : World) (key : CryptoKey) (keyHash : jsstring) :
  selectedFilesStore (page w) <> [] ->
  getKey (session w) = Some key -> getKeyHash (session w) = Some keyHash ->
  keyHash <> [] ->
  handleUpload w =
  match upload_files key keyHash 0 (selectedFilesStore (page w))
          (set_page (set_uploadingStore true) w) with
  | (inr _, w1) =>
      (ok tt,
       set_page (set_uploadProgressStore (fun _ => []))
         (set_page (set_uploadingStore false)
            (call_loadFiles
               (set_page (set_hasUploadedFilesStore true)
                  (set_page (set_uploadProgressStore (fun _ => []))
                     (set_page (set_selectedFilesStore []) w1)))).2))
  | (inl e, w1) =>
      (ok tt,
       set_page (set_uploadProgressStore (fun _ => []))
         (set_page (set_uploadingStore false)
            (set_page (set_ui (toast_error (error_message e))) w1)))
  end.
Proof.
  intros Hsel Hkey Hhash Hne. unfold handleUpload.
  cbv [mbind Handler_bind world ok].
  destruct (selectedFilesStore (page w)) as [|file rest] eqn:Efiles; [done |].
  cbn [length Nat.eqb]. rewrite Hkey, Hhash.
  destruct keyHash as [|c keyHash]; [done |]. cbn [truthy].
  cbv [update finally try_handler clearProgress toast_error_message mbind
       Handler_bind ok].
  simpl_world.
  destruct (upload_files key (c :: keyHash) 0 (file :: rest) _) as [[e|[]] w1].
  - reflexivity.
  - unfold call_loadFiles.
    destruct (loadFiles _ _ _) as [shown srv]. reflexivity.
Qed.

End Handlers.

Section Download.
Context {G : AesGcm} {Z0 : Zod} {Msg : Messages}.

Lemma handleDownload_spec (fileInfo : FileInfo) (w : World) (key : CryptoKey) :
  getKey (session w) = Some key ->
  handleDownload fileInfo w =
  let h := after_download_requests fileInfo (host w) in
  let failed message :=
    (ok tt,
     {| session := session w; host := h;
        page := set_uploadProgressStore
                  (progress_without (download_progress_id fileInfo))
                  (set_ui (toast_error message) (page w)) |}) in
  match (info_action (download_input fileInfo) (server (host w))).1,
        (fetch_action (download_input fileInfo)
           (info_action (download_input fileInfo) (server (host w))).2).1 with
  | inr fileInfoData, inr downloadData =>
      match download_decrypt key fileInfoData downloadData with
      | inr decryptedData =>
          (ok tt,
           {| session := session w; host := h;
              page := set_timers (cons (download_progress_id fileInfo))
                        (set_downloads
                           (cons {| download_name := info_fileName fileInfo;
                                    download_content := decryptedData |})
                           (set_uploadProgressStore
                              (progress_set (download_progress_id fileInfo) 100)
                              (page w))) |})
      | inl e => failed (error_message e)
      end
  | _, _ => failed "Failed to fetch file"%string
  end.
Proof.
  intros Hkey. unfold handleDownload.
  cbv [mbind Handler_bind world ok]. rewrite Hkey.
  cbv [try_handler mbind Handler_bind setProgress update call_action attempt raise
       toast_error_message removeProgress ok throw].
  fold (download_input fileInfo). fold (download_progress_id fileInfo).
  rewrite on_server_value.
  unfold after_download_requests, download_decrypt.
  simpl_world.
  rewrite on_server_value. simpl_world.
  destruct (info_action (download_input fileInfo) (server (host w)))
    as [infoR srv1]. simpl_world.
  destruct (fetch_action (download_input fileInfo) srv1) as [fetchR srv2].
  simpl_world.
  destruct infoR as [f1|fileInfoData]; [| destruct fetchR as [f2|downloadData]].
  - simpl_world. by rewrite progress_without_set.
  - simpl_world. by rewrite progress_without_set.
  - destruct (atob (record_fileIv fileInfoData)) as [e|ivBinary]; cbn [rbind].
    { simpl_world. by rewrite !progress_without_set. }
    destruct (atob (blob_data downloadData)) as [e|dataBinary]; cbn [rbind].
    { simpl_world. by rewrite !progress_without_set. }
    destruct (decryptData _ key _) as [e|decryptedData].
    { simpl_world. by rewrite !progress_without_set. }
    simpl_world. by rewrite !progress_set_set.
Qed.

End Download.

(** ** Upload, list and download together *)

Lemma standin_tagged : AesGcmTagged StandIn.cipher.
Proof.
  intros key nonce data Hkey. cbn. unfold StandIn.encrypt. by destruct key.
Qed.

Lemma base64_encode_nonempty (bs : list byte) : bs <> [] -> base64_encode bs <> [].
Proof.
  destruct bs as [|a [|b [|c rest]]]; [done | | |]; intros _; discriminate.
Qed.

Lemma list_action_value (keyHash : jsstring) (srv : Server) :
  list_action (JObject [(js "keyHash", JString keyHash)]) srv =
  if truthy keyHash then
    (match database srv with
     | Some rows => inr (map listed_of_row (findMany keyHash rows))
     | None => inl (ActionError INTERNAL_SERVER_ERROR "Failed to fetch file list")
     end, record_access (PrismaFindMany keyHash) srv)
  else (inl (ActionInputError "Key hash is required"), srv).
Proof.
  unfold list_action, defineAction, z_object_string.
  cbn [lookup_property]. rewrite jsstring_eqb_refl.
  destruct (truthy keyHash); [| reflexivity].
  cbn [record_access database]. by destruct (database srv).
Qed.

Lemma info_action_value {Z0 : Zod} (fileId : jsstring) (srv : Server) :
  info_action (JObject [(js "fileId", JString fileId)]) srv =
  if zod_uuid fileId then
    (match database srv with
     | Some rows =>
         match findUnique fileId rows with
         | Some row => inr (record_of_row row)
         | None => inl (ActionError NOT_FOUND "File not found")
         end
     | None =>
         inl (ActionError INTERNAL_SERVER_ERROR "Failed to fetch file information")
     end, record_access (PrismaFindUnique fileId) srv)
  else (inl (ActionInputError "Invalid file ID format"), srv).
Proof.
  unfold info_action, defineAction, z_object_string.
  cbn [lookup_property]. rewrite jsstring_eqb_refl.
  destruct (zod_uuid fileId); [| reflexivity].
  cbn [record_access database]. destruct (database srv) as [rows|]; [| done].
  by destruct (findUnique fileId rows).
Qed.

Lemma fetch_action_value {Z0 : Zod} (fileId : jsstring) (srv : Server) :
  fetch_action (JObject [(js "fileId", JString fileId)]) srv =
  if zod_uuid fileId then
    match read_upload (fileId ++ js ".bin") (upload_dir srv) with
    | Some content =>
        (if readFile_fails (fileId ++ js ".bin") srv
         then inl (ActionError INTERNAL_SERVER_ERROR "File download failed")
         else inr {| blob_data := base64_encode content;
                     blob_filename := fileId ++ js ".bin" |},
         record_access (FsReadFile (uploads (fileId ++ js ".bin")))
           (record_access (FsAccess (uploads (fileId ++ js ".bin"))) srv))
    | None =>
        (inl (ActionError NOT_FOUND "File not found"),
         record_access (FsAccess (uploads (fileId ++ js ".bin"))) srv)
    end
  else (inl (ActionInputError "Invalid file ID format"), srv).
Proof.
  unfold fetch_action, defineAction, z_object_string.
  cbn [lookup_property]. rewrite jsstring_eqb_refl.
  destruct (zod_uuid fileId); [| reflexivity].
  unfold readFile_fails. cbn [record_access upload_dir unreadable].
  destruct (read_upload _ _); [| reflexivity].
  by destruct (existsb _ _).
Qed.

Lemma loadFiles_server {G : AesGcm} {J : Json} (st : State) (srv : Server)
    (shown : Client) :
  database (loadFiles st srv shown).2 = database srv /\
  upload_dir (loadFiles st srv shown).2 = upload_dir srv /\
  unreadable (loadFiles st srv shown).2 = unreadable srv.
Proof.
  unfold loadFiles.
  destruct (keyHashStore (stores st)) as [keyHash|]; [| done].
  destruct (truthy keyHash) eqn:Ht; [| done].
  rewrite list_action_value, Ht.
  destruct (database srv) as [rows|] eqn:Hdb.
  - by destruct (key (manager st)).
  - done.
Qed.

Lemma loadFiles_shown {G : AesGcm} {J : Json} (st : State) (srv : Server)
    (shown : Client) (k : CryptoKey) (keyHash : jsstring)
    (rows : list EncryptedFile) :
  keyHashStore (stores st) = Some keyHash -> keyHash <> [] ->
  key (manager st) = Some k -> database srv = Some rows ->
  (loadFiles st srv shown).1 =
    {| filesStore := loadFiles_loop k (map listed_of_row (findMany keyHash rows));
       toasts := toasts shown |}.
Proof.
  intros Hh Hne Hk Hdb. unfold loadFiles. rewrite Hh.
  destruct keyHash as [|c keyHash]; [done |]. cbn [truthy].
  rewrite list_action_value. cbn [truthy]. by rewrite Hdb, Hk.
Qed.

Lemma loadFiles_quiet {G : AesGcm} {J : Json} (st : State) (srv : Server)
    (shown : Client) (rows : list EncryptedFile) :
  database srv = Some rows -> toasts (loadFiles st srv shown).1 = toasts shown.
Proof.
  intros Hdb. unfold loadFiles.
  destruct (keyHashStore (stores st)) as [keyHash|]; [| done].
  destruct (truthy keyHash) eqn:Ht; [| done].
  rewrite list_action_value, Ht, Hdb.
  by destruct (key (manager st)).
Qed.

Lemma generateKeyHash_nonempty (ks : jsstring) : generateKeyHash ks <> [].
Proof.
  pose proof (generateKeyHash_hex ks) as E.
  assert (Hl : length (generateKeyHash ks) = 8%nat).
  { rewrite E. unfold truncated_hex_digest.
    rewrite hex_of_bytes_length, length_firstn, sha256_length. reflexivity. }
  by destruct (generateKeyHash ks).
Qed.

Lemma reachable_key (st : State) (k : CryptoKey) :
  reachable st -> key (manager st) = Some k ->
  key_allows "encrypt" k = true /\ key_allows "decrypt" k = true /\
  key_data k <> [] /\
  exists hash,
    hash <> [] /\ keyHash (manager st) = Some hash /\
    keyHashStore (stores st) = Some hash.
Proof.
  intros Hr Hk. destruct (reachable_invariant st Hr) as [Hc _].
  destruct (Hc k Hk) as (ks & _ & Himp & Hh & _ & Hs).
  apply importKey_inv in Himp as (keyData & _ & Hlen & ->).
  split; [done |]. split; [done |]. split.
  - cbn. unfold aes_key_length in Hlen. by destruct keyData.
  - exists (generateKeyHash ks). split; [apply generateKeyHash_nonempty | done].
Qed.

(** What [loadFiles] shows depends on the table of the server only. *)
Lemma loadFiles_same_table {G : AesGcm} {J : Json} (st : State) (srv srv' : Server)
    (shown : Client) :
  database srv = database srv' ->
  (loadFiles st srv shown).1 = (loadFiles st srv' shown).1.
Proof.
  intros Hdb. unfold loadFiles.
  destruct (keyHashStore (stores st)) as [keyHash|]; [| done].
  destruct (truthy keyHash) eqn:Ht; [| done].
  rewrite !list_action_value, Ht, Hdb.
  destruct (database srv') as [rows|]; [| done].
  by destruct (key (manager st)).
Qed.

Section UploadOutcome.
Context {G : AesGcm} {J : Json} {Msg : Messages}.

(** X16.  [handleUpload] uploads all or tells why.  Once files are selected
    and a key that allows encryption is held, [handleUpload] never throws and
    ends with [uploadingStore] false and an empty progress; the table of the
    server keeps its rows and gains new ones at its end; the key manager and
    its stores are never changed.  Either every file was stored: the table
    existed, the new rows are one per selected file and in the order of the
    selection, each filed under the key hash, each with its file in the
    upload directory holding the content encrypted under the key with the
    nonce of the row, and each with the name and the size of the file
    encrypted in its metadata; the selection is empty,
    [hasUploadedFilesStore] is true and the file list is the one [loadFiles]
    shows for the server as it now is.  Or the upload of a file failed:
    fewer rows than selected files were added, one error toast is raised,
    the selection is as it was, so that the upload can be tried again, and
    the file list and [hasUploadedFilesStore] are as before. *)
Theorem handleUpload_clears_or_keeps (w : World) (key : CryptoKey)
    (keyHash : jsstring) :
  selectedFilesStore (page w) <> [] ->
  getKey (session w) = Some key -> getKeyHash (session w) = Some keyHash ->
  keyHash <> [] -> key_allows "encrypt" key = true ->
  exists w' new,
    handleUpload w = (ok tt, w') /\
    uploadingStore (page w') = false /\
    uploadProgressStore (page w') = [] /\
    manager (session w') = manager (session w) /\
    stores (session w') = stores (session w) /\
    database (server (host w'))
      = (fun rows => rows ++ new) <$> database (server (host w)) /\
    ((selectedFilesStore (page w') = [] /\
      hasUploadedFilesStore (page w') = true /\
      (exists rows, database (server (host w)) = Some rows) /\
      Forall2 (stored_as key keyHash (upload_dir (server (host w'))))
        (selectedFilesStore (page w)) new /\
      ui (page w') = (loadFiles (session w') (server (host w')) (ui (page w))).1) \/
     (exists e,
        selectedFilesStore (page w') = selectedFilesStore (page w) /\
        hasUploadedFilesStore (page w') = hasUploadedFilesStore (page w) /\
        ui (page w') = toast_error (error_message e) (ui (page w)) /\
        (length new < length (selectedFilesStore (page w)))%nat)).
Proof.
  intros Hsel Hkey Hhash Hne He.
  rewrite (handleUpload_spec w key keyHash) by done.
  pose proof (upload_files_same key keyHash (selectedFilesStore (page w)) He 0
                (set_page (set_uploadingStore true) w)) as Hsame.
  destruct (upload_files_table key keyHash (selectedFilesStore (page w)) He 0
              (set_page (set_uploadingStore true) w)) as (added & Htable & Hlen).
  pose proof (upload_files_stored key keyHash (selectedFilesStore (page w)) He 0
                (set_page (set_uploadingStore true) w)) as Hstored.
  remember (upload_files key keyHash 0 (selectedFilesStore (page w))
              (set_page (set_uploadingStore true) w)) as outcome eqn:Hup.
  destruct outcome as [[e|[]] w1]; cbn [fst snd] in Hsame, Htable, Hlen;
    unfold same_but_upload in Hsame; read_world;
    destruct Hsame as (Hm & Hst & Hb & Hh & Hss & Hui & _ & _ & Hfiles & Hhas & _).
  - eexists _, added. split; [reflexivity |]. read_world.
    do 5 (split; [done |]).
    right. exists e. rewrite Hui. by repeat split.
  - destruct (Hstored w1 eq_refl) as (new & Hrows & Hnew & Hall & _).
    unfold call_loadFiles. read_world.
    pose proof (loadFiles_server (session w1) (server (host w1)) (ui (page w1)))
      as (Hdb & Hdir & _).
    destruct (loadFiles (session w1) (server (host w1)) (ui (page w1)))
      as [shown srv] eqn:Hload.
    cbn [fst snd] in Hdb, Hdir.
    eexists _, new. split; [reflexivity |]. read_world.
    do 4 (split; [done |]). split; [by rewrite Hdb |].
    left. split; [done |]. split; [done |]. split; [by apply Hrows |].
    split; [by rewrite Hdir |].
    rewrite (loadFiles_same_table (session w1) srv (server (host w1))) by done.
    by rewrite <- Hui, Hload.
Qed.

End UploadOutcome.

Section EndToEnd.
Context {G : AesGcm} {GC : AesGcmCorrect G} {GT : AesGcmTagged G}.
Context {J : Json} {Z0 : Zod} {Msg : Messages}.

Lemma upload_form_schema (key : CryptoKey) (keyHash : jsstring) (file : File)
    (r : entropy) (uploadDate : Z) :
  key_data key <> [] -> keyHash <> [] ->
  store_schema (upload_form key keyHash file r uploadDate) =
  inr {| input_encryptedFile :=
           aes_gcm_encrypt (key_data key) (getRandomValues 12 r).1 (file_content file);
         input_encryptedMetadata :=
           base64_encode
             (aes_gcm_encrypt (key_data key)
                (getRandomValues 12 (getRandomValues 12 r).2).1
                (TextEncoder_encode
                   (JSON_stringify_metadata (file_name file) (file_size file)
                      (Date_toISOString uploadDate))));
         input_metadataIv :=
           base64_encode (getRandomValues 12 (getRandomValues 12 r).2).1;
         input_fileIv := base64_encode (getRandomValues 12 r).1;
         input_keyHash := keyHash |}.
Proof.
  intros Hkey Hhash. unfold upload_form, store_schema.
  assert (Hem : forall bs, bs <> [] -> base64_encode bs <> []).
  { intros bs Hbs. by apply base64_encode_nonempty. }
  assert (Hnonce : forall r0, (getRandomValues 12 r0).1 <> []).
  { intros r0 E. pose proof (getRandomValues_length 12 r0) as Hl.
    by rewrite E in Hl. }
  erewrite z_form_file_value by reflexivity.
  erewrite (z_form_string_value _ (js "encryptedMetadata"))
    by (reflexivity || by apply Hem, aes_gcm_encrypt_tagged).
  erewrite (z_form_string_value _ (js "metadataIv"))
    by (reflexivity || by apply Hem, Hnonce).
  erewrite (z_form_string_value _ (js "fileIv"))
    by (reflexivity || by apply Hem, Hnonce).
  erewrite (z_form_string_value _ (js "keyHash")) by (reflexivity || done).
  reflexivity.
Qed.

Lemma handleUpload_single (w : World) (file : File) (secret : CryptoKey)
    (keyHash : jsstring) (rows : list EncryptedFile) :
  selectedFilesStore (page w) = [file] ->
  getKey (session w) = Some secret -> getKeyHash (session w) = Some keyHash ->
  keyHash <> [] -> key_allows "encrypt" secret = true -> key_data secret <> [] ->
  fs_error (host w) = None -> database (server (host w)) = Some rows ->
  findUnique (uuidv4 (uuid_random (host w))).1 rows = None ->
  let r := random (window (session w)) in
  let uploadDate := instants (page_clock (page w)) (readings (page_clock (page w))) in
  let fileId := (uuidv4 (uuid_random (host w))).1 in
  let cipher :=
    aes_gcm_encrypt (key_data secret) (getRandomValues 12 r).1 (file_content file) in
  let created :=
    {| row_id := fileId;
       row_encryptedMetadata :=
         base64_encode
           (aes_gcm_encrypt (key_data secret)
              (getRandomValues 12 (getRandomValues 12 r).2).1
              (TextEncoder_encode
                 (JSON_stringify_metadata (file_name file) (file_size file)
                    (Date_toISOString uploadDate))));
       row_metadataIv :=
         base64_encode (getRandomValues 12 (getRandomValues 12 r).2).1;
       row_fileIv := base64_encode (getRandomValues 12 r).1;
       row_encryptionKeyHash := keyHash;
       row_createdAt :=
         instants (database_clock (host w)) (readings (database_clock (host w))) |} in
  exists w1,
    handleUpload w = (ok tt, w1) /\
    manager (session w1) = manager (session w) /\
    stores (session w1) = stores (session w) /\
    database (server (host w1)) = Some (rows ++ [created]) /\
    read_upload (fileId ++ js ".bin") (upload_dir (server (host w1))) = Some cipher /\
    selectedFilesStore (page w1) = [] /\
    hasUploadedFilesStore (page w1) = true /\
    uploadingStore (page w1) = false /\
    uploadProgressStore (page w1) = [] /\
    downloads (page w1) = downloads (page w) /\
    toasts (ui (page w1)) = toasts (ui (page w)) /\
    (keyHashStore (stores (session w)) = Some keyHash ->
     filesStore (ui (page w1)) =
       loadFiles_loop secret
         (map listed_of_row (findMany keyHash (rows ++ [created])))) /\
    readFile_fails (fileId ++ js ".bin") (server (host w1)) = false.
Proof.
  intros Hsel Hkey Hhash Hne He Hkd Hfs Hdb Hfresh r uploadDate fileId cipher created.
  rewrite (handleUpload_spec w secret keyHash) by (done || by rewrite Hsel).
  rewrite Hsel, upload_files_cons by done.
  simpl_world.
  rewrite store_action_handler, upload_form_schema by done.
  rewrite store_handler_cases.
  cbn [input_encryptedFile input_encryptedMetadata input_metadataIv input_fileIv
       input_keyHash].
  fold r. fold cipher.
  assert (Hcipher : cipher <> []) by (by apply aes_gcm_encrypt_tagged).
  destruct cipher as [|b cipher'] eqn:Ecipher; [done |].
  cbn [length Nat.eqb]. cbn zeta. rewrite Hfs, Hdb, Hfresh. fold fileId.
  cbn [upload_files]. cbv [mret Handler_ret ok].
  unfold call_loadFiles, after_upload.
  match goal with
  | |- context [loadFiles ?st1 ?srv1 ?shown1] =>
      pose proof (loadFiles_server st1 srv1 shown1) as (Hldb & Hlup & Hlun);
      pose proof (loadFiles_shown st1 srv1 shown1 secret keyHash (rows ++ [created]))
        as Hshown;
      pose proof (loadFiles_quiet st1 srv1 shown1 (rows ++ [created])) as Hquiet;
      destruct (loadFiles st1 srv1 shown1) as [shown srv2]
  end.
  read_world.
  eexists. split; [reflexivity |]. read_world.
  split; [reflexivity |]. split; [reflexivity |].
  split; [exact Hldb |].
  split; [rewrite Hlup; apply read_upload_write_upload |].
  split; [reflexivity |]. split; [reflexivity |]. split; [reflexivity |].
  split; [reflexivity |]. split; [reflexivity |].
  split; [by rewrite Hquiet |].
  split; [intros Hstore; by rewrite Hshown |].
  unfold readFile_fails. rewrite Hlun. apply existsb_without.
Qed.

(** X17.  What was uploaded comes back on download.  In a session that holds
    a key, with one file selected, a server whose upload directory can be
    written and whose database can be reached, and an id drawn by [uuidv4]
    that no row has yet and the UUID check accepts: [handleUpload] stores the
    file, clears the selection and raises no error toast; and [handleDownload]
    of the entry of that id then hands the browser a download whose content
    is, byte for byte, the content of the file selected, again without an
    error toast. *)
Theorem uploaded_file_downloads_intact (w : World) (file : File) (secret : CryptoKey)
    (rows : list EncryptedFile) :
  reachable (session w) -> getKey (session w) = Some secret ->
  selectedFilesStore (page w) = [file] ->
  fs_error (host w) = None -> database (server (host w)) = Some rows ->
  findUnique (uuidv4 (uuid_random (host w))).1 rows = None ->
  zod_uuid (uuidv4 (uuid_random (host w))).1 = true ->
  exists w1,
    handleUpload w = (ok tt, w1) /\
    selectedFilesStore (page w1) = [] /\
    hasUploadedFilesStore (page w1) = true /\
    toasts (ui (page w1)) = toasts (ui (page w)) /\
    forall fileInfo,
      info_id fileInfo = (uuidv4 (uuid_random (host w))).1 ->
      exists w2,
        handleDownload fileInfo w1 = (ok tt, w2) /\
        downloads (page w2) =
          {| download_name := info_fileName fileInfo;
             download_content := file_content file |} :: downloads (page w) /\
        toasts (ui (page w2)) = toasts (ui (page w)).
Proof.
  intros Hr Hkey Hsel Hfs Hdb Hfresh Hzod.
  destruct (reachable_key _ _ Hr Hkey) as (He & Hd & Hkd & keyHash & Hne & Hhash & _).
  destruct (handleUpload_single w file secret keyHash rows Hsel Hkey Hhash Hne He
              Hkd Hfs Hdb Hfresh)
    as (w1 & Hup & Hm & _ & Hdb1 & Hfile & Hsel1 & Hhas & _ & _ & Hdl & Ht & _
        & Hread).
  exists w1. split; [exact Hup |]. split; [exact Hsel1 |]. split; [exact Hhas |].
  split; [exact Ht |].
  intros fileInfo Hid.
  assert (Hkey1 : getKey (session w1) = Some secret).
  { unfold getKey in *. by rewrite Hm. }
  rewrite (handleDownload_spec fileInfo w1 secret Hkey1).
  unfold download_input. rewrite Hid.
  rewrite info_action_value, Hzod. cbn [fst snd].
  rewrite Hdb1, findUnique_app_new by done.
  rewrite fetch_action_value, Hzod. cbn [record_access upload_dir].
  rewrite Hfile, readFile_fails_record_access, Hread. cbn [fst snd]. cbv zeta.
  unfold download_decrypt, record_of_row. cbn [record_fileIv row_fileIv blob_data].
  rewrite !atob_base64_encode. cbn [rbind ok]. rewrite !charCodes_fromCharCode.
  unfold decryptData, subtle_decrypt. rewrite Hd, aes_gcm_decrypt_encrypt.
  eexists. split; [reflexivity |]. simpl_world.
  by rewrite Hdl, Ht.
Qed.

(** X18.  What was uploaded is listed under its name.  In a session that
    holds a key, with one file selected whose size is below 2^53, a server
    whose upload directory can be written and whose database can be reached,
    and an id drawn by [uuidv4] that no row has yet: when [JSON.parse] reads
    the metadata [JSON.stringify] wrote, the file list [handleUpload] leaves
    has an entry of the new id with the name of the file, its size, the date
    of the upload as the page read it, and the instant the database gave the
    row. *)
Theorem uploaded_file_is_listed (w : World) (file : File) (secret : CryptoKey)
    (rows : list EncryptedFile) :
  reachable (session w) -> getKey (session w) = Some secret ->
  selectedFilesStore (page w) = [file] ->
  fs_error (host w) = None -> database (server (host w)) = Some rows ->
  findUnique (uuidv4 (uuid_random (host w))).1 rows = None ->
  file_size file < 2 ^ 53 ->
  let uploadDate :=
    Date_toISOString
      (instants (page_clock (page w)) (readings (page_clock (page w)))) in
  reads_metadata (file_name file) (file_size file) uploadDate ->
  exists w1,
    handleUpload w = (ok tt, w1) /\
    In {| info_id := (uuidv4 (uuid_random (host w))).1;
          info_fileName := JString (file_name file);
          info_fileSize := JNumber (Number_toString10 (file_size file));
          info_uploadDate := Date_of (JString uploadDate);
          info_uploadedAt :=
            instants (database_clock (host w)) (readings (database_clock (host w))) |}
       (filesStore (ui (page w1))).
Proof.
  intros Hr Hkey Hsel Hfs Hdb Hfresh _ uploadDate Hjson.
  destruct (reachable_key _ _ Hr Hkey) as (He & Hd & Hkd & keyHash & Hne & Hhash & Hst).
  destruct (handleUpload_single w file secret keyHash rows Hsel Hkey Hhash Hne He
              Hkd Hfs Hdb Hfresh)
    as (w1 & Hup & _ & _ & _ & _ & _ & _ & _ & _ & _ & _ & Hshown & _).
  exists w1. split; [exact Hup |].
  rewrite (Hshown Hst), loadFiles_loop_omap.
  apply list_elem_of_In, list_elem_of_omap.
  eexists (listed_of_row _). split.
  - apply list_elem_of_In, in_map. apply list_elem_of_In. unfold findMany.
    rewrite order_by_createdAt_desc_perm.
    apply list_elem_of_In, filter_In. split.
    + apply in_or_app. right. left. reflexivity.
    + cbn [row_encryptionKeyHash]. apply jsstring_eqb_refl.
  - unfold decrypted_view, listed_of_row, decryptMetadata.
    cbn [listed_encryptedMetadata listed_metadataIv listed_id listed_uploadedAt
         row_encryptedMetadata row_metadataIv row_id row_createdAt].
    rewrite decryptText_value. unfold subtle_decrypt.
    rewrite Hd, aes_gcm_decrypt_encrypt. cbn [rbind ok].
    destruct (JSON_stringify_metadata_text (file_name file) (file_size file)
                uploadDate) as [Hwf Hbom].
    fold uploadDate. rewrite TextDecoder_decode_encode by done.
    unfold reads_metadata in Hjson. rewrite Hjson. reflexivity.
Qed.

End EndToEnd.

(** ** Downloads, the selection and the share panel *)

Lemma progress_of_set (id : jsstring) (value : N) (prev : list (jsstring * N)) :
  progress_of id (progress_set id value prev) = Some value.
Proof. unfold progress_set. cbn [progress_of]. by rewrite jsstring_eqb_refl. Qed.

Lemma progress_of_without (id : jsstring) (prev : list (jsstring * N)) :
  progress_of id (progress_without id prev) = None.
Proof.
  unfold progress_without.
  induction prev as [|[n v] prev IH]; [done |]. cbn [List.filter fst].
  destruct (jsstring_eqb n id) eqn:E; cbn [negb]; [exact IH |].
  cbn [progress_of]. by rewrite E.
Qed.

Lemma info_action_server {Z0 : Zod} (fileId : jsstring) (srv : Server) :
  database (info_action (JObject [(js "fileId", JString fileId)]) srv).2 = database srv /\
  upload_dir (info_action (JObject [(js "fileId", JString fileId)]) srv).2
    = upload_dir srv.
Proof. rewrite info_action_value. by destruct (zod_uuid fileId). Qed.

Lemma fetch_action_server {Z0 : Zod} (fileId : jsstring) (srv : Server) :
  database (fetch_action (JObject [(js "fileId", JString fileId)]) srv).2 = database srv /\
  upload_dir (fetch_action (JObject [(js "fileId", JString fileId)]) srv).2
    = upload_dir srv.
Proof.
  rewrite fetch_action_value. destruct (zod_uuid fileId); [| done].
  by destruct (read_upload _ _).
Qed.

Section DownloadOutcome.
Context {G : AesGcm} {Z0 : Zod} {Msg : Messages}.

(** X19.  [handleDownload] hands over the file or tells why.  It never throws
    and never changes the key manager, the table, the upload directory, the
    file list or the selection.  Either a key is held and one download is
    started under the name of the entry, no error toast is raised, the
    progress entry of the download shows 100 and a timer is set that removes
    it; or no download is started, one error toast is raised and the progress
    entry is gone.  Without a key the toast is "Encryption key not ready" and
    the server is not asked. *)
Theorem handleDownload_saves_or_toasts (fileInfo : FileInfo) (w : World) :
  exists w',
    handleDownload fileInfo w = (ok tt, w') /\
    session w' = session w /\
    database (server (host w')) = database (server (host w)) /\
    upload_dir (server (host w')) = upload_dir (server (host w)) /\
    filesStore (ui (page w')) = filesStore (ui (page w)) /\
    selectedFilesStore (page w') = selectedFilesStore (page w) /\
    ((exists key content,
        getKey (session w) = Some key /\
        downloads (page w') =
          {| download_name := info_fileName fileInfo; download_content := content |}
          :: downloads (page w) /\
        toasts (ui (page w')) = toasts (ui (page w)) /\
        progress_of (download_progress_id fileInfo) (uploadProgressStore (page w'))
          = Some 100 /\
        timers (page w') = download_progress_id fileInfo :: timers (page w) /\
        progress_of (download_progress_id fileInfo)
          (uploadProgressStore
             (page (progress_timer (download_progress_id fileInfo) w').2)) = None) \/
     (exists message,
        downloads (page w') = downloads (page w) /\
        toasts (ui (page w')) = message :: toasts (ui (page w)) /\
        timers (page w') = timers (page w) /\
        match getKey (session w) with
        | None =>
            message = "Encryption key not ready"%string /\ host w' = host w /\
            uploadProgressStore (page w') = uploadProgressStore (page w)
        | Some _ =>
            progress_of (download_progress_id fileInfo)
              (uploadProgressStore (page w')) = None
        end)).
Proof.
  destruct (getKey (session w)) as [key|] eqn:Hkey.
  - rewrite (handleDownload_spec fileInfo w key Hkey). cbv zeta.
    assert (Hhost :
      database (server (after_download_requests fileInfo (host w)))
        = database (server (host w)) /\
      upload_dir (server (after_download_requests fileInfo (host w)))
        = upload_dir (server (host w))).
    { unfold after_download_requests, download_input. read_world.
      destruct (info_action_server (info_id fileInfo) (server (host w))) as [Hi1 Hi2].
      destruct (fetch_action_server (info_id fileInfo)
                  (info_action (JObject [(js "fileId", JString (info_id fileInfo))])
                     (server (host w))).2) as [Hf1 Hf2].
      split; congruence. }
    destruct Hhost as [Hdb Hup].
    assert (Hfailed : forall message,
      let w' :=
        {| session := session w;
           host := after_download_requests fileInfo (host w);
           page := set_uploadProgressStore
                     (progress_without (download_progress_id fileInfo))
                     (set_ui (toast_error message) (page w)) |} in
      session w' = session w /\
      database (server (host w')) = database (server (host w)) /\
      upload_dir (server (host w')) = upload_dir (server (host w)) /\
      filesStore (ui (page w')) = filesStore (ui (page w)) /\
      selectedFilesStore (page w') = selectedFilesStore (page w) /\
      exists shown,
        downloads (page w') = downloads (page w) /\
        toasts (ui (page w')) = shown :: toasts (ui (page w)) /\
        timers (page w') = timers (page w) /\
        progress_of (download_progress_id fileInfo) (uploadProgressStore (page w'))
          = None).
    { intros message. cbv zeta. read_world.
      do 5 (split; [done |]). exists message. do 3 (split; [reflexivity |]).
      apply progress_of_without. }
    destruct (info_action _ (server (host w))) as [[f1|fileInfoData] srv1];
      cbn [fst snd].
    + destruct (Hfailed "Failed to fetch file"%string)
        as (H1 & H2 & H3 & H4 & H5 & H6).
      eexists. split; [reflexivity |]. do 5 (split; [assumption |]). by right.
    + destruct (fetch_action _ srv1) as [[f2|downloadData] srv2]; cbn [fst snd].
      * destruct (Hfailed "Failed to fetch file"%string)
          as (H1 & H2 & H3 & H4 & H5 & H6).
        eexists. split; [reflexivity |]. do 5 (split; [assumption |]). by right.
      * destruct (download_decrypt key fileInfoData downloadData) as [e|content].
        -- destruct (Hfailed (error_message e)) as (H1 & H2 & H3 & H4 & H5 & H6).
           eexists. split; [reflexivity |]. do 5 (split; [assumption |]). by right.
        -- eexists. split; [reflexivity |]. read_world.
           do 5 (split; [done |]). left. exists key, content.
           split; [reflexivity |]. split; [reflexivity |]. split; [reflexivity |].
           split; [apply progress_of_set |]. split; [reflexivity |].
           cbv [progress_timer removeProgress update]. read_world.
           apply progress_of_without.
  - unfold handleDownload. cbv [mbind Handler_bind world ok]. rewrite Hkey.
    eexists. split; [reflexivity |]. cbv [toast_error_message update].
    read_world. do 5 (split; [done |]). right. eexists. by repeat split.
Qed.

End DownloadOutcome.

Lemma filter_indexed_keeps {A} (target start : nat) (l : list A) :
  (target < start)%nat ->
  filter_indexed (fun _ j => negb (j =? target)%nat) start l = l.
Proof.
  revert start. induction l as [|x l IH]; intros start Hlt; [done |].
  cbn [filter_indexed].
  destruct (Nat.eqb_spec start target) as [->|_]; [lia |].
  cbn [negb]. rewrite IH by lia. reflexivity.
Qed.

Lemma filter_indexed_delete {A} (index start : nat) (l : list A) :
  filter_indexed (fun _ j => negb (j =? start + index)%nat) start l = delete index l.
Proof.
  revert index start. induction l as [|x l IH]; intros index start;
    [by destruct index |].
  cbn [filter_indexed]. destruct index as [|index].
  - rewrite Nat.add_0_r, Nat.eqb_refl. cbn [negb].
    apply filter_indexed_keeps. lia.
  - destruct (Nat.eqb_spec start (start + S index)) as [E|_]; [lia |].
    cbn [negb]. replace (start + S index)%nat with (S start + index)%nat by lia.
    by rewrite IH.
Qed.

(** X20.  [handleRemoveFile] removes the file at the position given and no
    other: the selection afterwards is the selection before without its
    element at [index], the files before it and after it stay in their order
    (also a file equal to the one removed), and a position past the end
    removes nothing.  Nothing but the selection changes. *)
Theorem handleRemoveFile_removes_that_file (index : nat) (w : World) :
  exists w',
    handleRemoveFile index w = (ok tt, w') /\
    selectedFilesStore (page w') = delete index (selectedFilesStore (page w)) /\
    (forall i, (i < index)%nat ->
       selectedFilesStore (page w') !! i = selectedFilesStore (page w) !! i) /\
    (forall i, (index <= i)%nat ->
       selectedFilesStore (page w') !! i = selectedFilesStore (page w) !! S i) /\
    ((length (selectedFilesStore (page w)) <= index)%nat ->
       selectedFilesStore (page w') = selectedFilesStore (page w)) /\
    ((index < length (selectedFilesStore (page w)))%nat ->
       S (length (selectedFilesStore (page w')))
         = length (selectedFilesStore (page w))) /\
    session w' = session w /\ host w' = host w /\
    ui (page w') = ui (page w) /\
    uploadProgressStore (page w') = uploadProgressStore (page w) /\
    downloads (page w') = downloads (page w).
Proof.
  unfold handleRemoveFile. cbv [mbind Handler_bind world update ok].
  eexists. split; [reflexivity |]. read_world.
  rewrite (filter_indexed_delete index 0).
  split; [reflexivity |].
  split; [intros i Hi; by apply list_lookup_delete_lt |].
  split; [intros i Hi; by apply list_lookup_delete_ge |].
  split.
  { intros Hlen. rewrite delete_take_drop, take_ge, drop_ge by lia.
    by rewrite app_nil_r. }
  split; [| done].
  intros Hlt. rewrite length_delete by (by apply lookup_lt_is_Some_2). lia.
Qed.

(** X21.  [copyShareLink] marks the link as saved only when it was copied.
    It never throws.  When the key manager gives a share URL and the
    clipboard takes it, the clipboard holds that URL, the link is marked as
    saved, one success toast is raised, and the page no longer warns before
    it is left.  Otherwise the clipboard and the mark are as before and the
    error toast "Failed to copy share link" is raised.  The key manager and
    the server are never touched. *)
Theorem copyShareLink_saves_when_copied (w : World) :
  exists w',
    copyShareLink w = (ok tt, w') /\
    session w' = session w /\ host w' = host w /\
    filesStore (ui (page w')) = filesStore (ui (page w)) /\
    match getShareUrl (session w), clipboard_granted (page w) with
    | inr shareUrl, true =>
        clipboard_text (page w') = Some shareUrl /\
        linkSaved (shareLink (page w')) = true /\
        showQR (shareLink (page w')) = showQR (shareLink (page w)) /\
        successes (page w') = "Share link copied"%string :: successes (page w) /\
        toasts (ui (page w')) = toasts (ui (page w)) /\
        warns_before_unload w' = false
    | _, _ =>
        clipboard_text (page w') = clipboard_text (page w) /\
        shareLink (page w') = shareLink (page w) /\
        successes (page w') = successes (page w) /\
        toasts (ui (page w')) =
          "Failed to copy share link"%string :: toasts (ui (page w))
    end.
Proof.
  unfold copyShareLink.
  cbv [try_handler mbind Handler_bind world attempt update raise toast_success
       toast_error_message ok throw].
  destruct (getShareUrl (session w)) as [e|shareUrl].
  - eexists. split; [reflexivity |]. read_world. by repeat split.
  - destruct (clipboard_granted (page w)) eqn:Hc.
    + eexists. split; [reflexivity |]. unfold warns_before_unload. read_world.
      by repeat split.
    + eexists. split; [reflexivity |]. read_world. by repeat split.
Qed.

Lemma run_keeps_external (op : operation) (st : State) :
  keyLoadedFromExternal (stores st) = true ->
  keyLoadedFromExternal (stores (run op st)) = true.
Proof.
  intros Hext. destruct op as [|ks| |]; cbn [run].
  - rewrite initialize_spec.
    destruct (usable (url_key st)) as [[ks k]|]; [done |].
    destruct (usable (session_key st)) as [[ks k]|]; [done |].
    cbn [snd]. unfold adopted_generated.
    by destruct (generateEncryptionKey (random (window st))) as [k r].
  - destruct (importKey ks) as [e|k] eqn:Hk.
    + by rewrite (setKey_fail ks e).
    + by rewrite (setKey_ok ks k).
  - rewrite generateNewKey_spec. cbn [snd]. unfold adopted_generated.
    by destruct (generateEncryptionKey (random (window st))) as [k r].
  - unfold hashChangeListener. rewrite loadFromUrl_spec.
    by destruct (usable (url_key st)) as [[ks k]|].
Qed.

(** X22.  [keyLoadedFromExternal] is never cleared.  Once a key was loaded
    from a share link or from session storage, no operation of the key
    manager and no change of the page sets the atom back to false, also not
    [generateNewKey], which replaces that key by one no link holds.  So the
    page registers no [beforeunload] warning from then on, whatever was
    uploaded and whether the link was saved. *)
Theorem keyLoadedFromExternal_is_never_cleared (op : operation) (st : State) :
  keyLoadedFromExternal (stores st) = true ->
  keyLoadedFromExternal (stores (run op st)) = true /\
  (forall page_window,
     keyLoadedFromExternal (stores (set_window (fun _ => page_window) st)) = true) /\
  (forall h p,
     warns_before_unload {| session := run op st; host := h; page := p |} = false).
Proof.
  intros Hext. pose proof (run_keeps_external op st Hext) as Hrun.
  split; [exact Hrun |]. split; [intros page_window; exact Hext |].
  intros h p. unfold warns_before_unload. cbn [session page]. rewrite Hrun.
  by destruct (linkSaved _).
Qed.

(** X23.  [generateNewKey] of the share panel, whatever callback it was
    given.  When the dialog is declined nothing changes.  When it is
    confirmed the function never throws, and the callback, if there is one,
    is started once, in a page where the key manager already holds a fresh
    key made of the next 32 random bytes, the link is marked as not saved,
    the QR code is hidden and one success toast is raised, with the files
    listed and the server as before.  Without a callback that page is the
    outcome; with one, the outcome is what the callback leaves, and when the
    callback throws the toast [Failed to generate new key] is added to it,
    although the new key is in place.  What the effects of the page do once
    the function has returned is not part of this. *)
Theorem ShareLink_generateNewKey_discards_saved_link (w : World)
    (onKeyChange : option (Handler unit)) :
  ShareLink_generateNewKey false onKeyChange w = (ok tt, w) /\
  exists w1,
    getKey (session w1) = Some (generateEncryptionKey (random (window (session w)))).1 /\
    key_data (generateEncryptionKey (random (window (session w)))).1
      = (getRandomValues 32 (random (window (session w)))).1 /\
    linkSaved (shareLink (page w1)) = false /\
    showQR (shareLink (page w1)) = false /\
    successes (page w1) = "New key generated"%string :: successes (page w) /\
    ui (page w1) = ui (page w) /\ host w1 = host w /\
    ShareLink_generateNewKey true onKeyChange w =
      match onKeyChange with
      | None => (ok tt, w1)
      | Some callback =>
          match callback w1 with
          | (inr _, w2) => (ok tt, w2)
          | (inl _, w2) =>
              (ok tt,
               set_page (set_ui (toast_error "Failed to generate new key")) w2)
          end
      end.
Proof.
  split; [done |].
  unfold ShareLink_generateNewKey. cbn [negb].
  cbv [try_handler mbind Handler_bind mret Handler_ret update toast_success
       toast_error_message ok].
  rewrite generateNewKey_spec.
  eexists. split; [| split; [| split; [| split; [| split; [| split; [| split]]]]]];
    cycle 7.
  - destruct onKeyChange as [callback|]; [| reflexivity].
    destruct (callback _) as [[e|[]] w2]; reflexivity.
  - unfold getKey. read_world. unfold adopted_generated, generateEncryptionKey.
    by destruct (getRandomValues 32 (random (window (session w)))) as [bytes r].
  - unfold generateEncryptionKey.
    by destruct (getRandomValues 32 (random (window (session w)))) as [bytes r].
  - reflexivity.
  - reflexivity.
  - reflexivity.
  - reflexivity.
  - reflexivity.
Qed.

(** ** The further properties at concrete inputs *)

(** The session opened through a share link is one a session reaches, and
    it holds the key of the link. *)
Lemma demo_session_reachable : reachable (session demo_world).
Proof. apply reachable_run, reachable_initial. Qed.

Lemma demo_session_key : getKey (session demo_world) = Some demo_key.
Proof. vm_compute. reflexivity. Qed.

(** The key of a session opened through a share link. *)
Lemma held_key_is_usable_witness :
  reachable (session demo_world) /\
  getKey (session demo_world) = Some demo_key /\
  exportKey demo_key = ok (base64_encode (key_data demo_key)) /\
  exists enc,
    encryptFile (H := StandIn.cipher) [x01; x02; x03] demo_key demo_entropy
      = (ok enc, (getRandomValues 12 demo_entropy).2).
Proof.
  split; [exact demo_session_reachable |]. split; [exact demo_session_key |].
  destruct (held_key_is_usable (G := StandIn.cipher) (session demo_world) demo_key
              demo_session_reachable demo_session_key)
    as (_ & _ & Hexport & _ & Hfile).
  split; [exact Hexport | exact (Hfile [x01; x02; x03] demo_entropy)].
Defined.

(** Before and after [initialize] on a page opened through a share link. *)
Lemma stores_mirror_key_manager_witness :
  reachable (initial_state share_link_window) /\
  keyReadyStore (stores (initial_state share_link_window)) = false /\
  reachable (session demo_world) /\
  keyReadyStore (stores (session demo_world)) = true.
Proof.
  assert (H0 : reachable (initial_state share_link_window)) by apply reachable_initial.
  split; [exact H0 |].
  destruct (stores_mirror_key_manager _ H0) as (_ & _ & _ & Hnot).
  split; [apply Hnot; reflexivity |].
  split; [exact demo_session_reachable |].
  destruct (stores_mirror_key_manager _ demo_session_reachable) as (_ & _ & Hready & _).
  apply Hready. exists demo_key. exact demo_session_key.
Defined.

(** The page opened through a share link is loaded again: the fragment is
    gone from its URL, and session storage gives the key back. *)
Lemma reload_restores_key_witness :
  let st := session demo_world in
  let reloaded := initial_state (window st) in
  usable (url_key st) = None /\
  exists st',
    initialize reloaded = (ok from_session, st') /\
    manager st' = manager st /\
    window st' = window st.
Proof.
  cbv zeta. split; [vm_compute; reflexivity |].
  destruct (reload_restores_key (session demo_world)
              (initial_state (window (session demo_world)))
              (js "AwoRGB8mLTQ7QklQV15lbHN6gYiPlp2kq7K5wMfO1dw=")
              demo_session_reachable)
    as (st' & Hinit & Hm & _ & _ & _ & Hw).
  - vm_compute. reflexivity.
  - vm_compute. reflexivity.
  - vm_compute. reflexivity.
  - reflexivity.
  - exists st'. split; [exact Hinit |]. split; [exact Hm | exact Hw].
Defined.

(** The share link of the demo session, opened on a fresh page. *)
Lemma share_link_opens_same_key_witness :
  exists fragment st',
    getShareUrl (session demo_world)
      = ok (location_base (window (session demo_world)) ++ fragment) /\
    initialize
      (initial_state
         {| location_base := location_base (window (session demo_world));
            location_hash := fragment;
            sessionStorage := None;
            random := demo_entropy |}) = (ok from_url, st') /\
    manager st' = manager (session demo_world) /\
    location_hash (window st') = [].
Proof.
  destruct (share_link_opens_same_key (session demo_world) demo_key
              demo_session_reachable demo_session_key)
    as (fragment & Hurl & Hopen).
  destruct (Hopen
              (initial_state
                 {| location_base := location_base (window (session demo_world));
                    location_hash := fragment;
                    sessionStorage := None;
                    random := demo_entropy |}) eq_refl eq_refl)
    as (st' & Hinit & Hm & _ & _ & _ & _ & Hhash & _).
  exists fragment, st'. split; [exact Hurl |]. split; [exact Hinit |].
  split; [exact Hm | exact Hhash].
Defined.

(** Two rows of one key hash and one of another. *)
Lemma list_action_answers_own_rows_witness :
  let row id hash instant :=
    {| row_id := js id; row_encryptedMetadata := js "bWV0YQ==";
       row_metadataIv := js "aXYx"; row_fileIv := js "aXYy";
       row_encryptionKeyHash := js hash; row_createdAt := instant |} in
  let srv :=
    {| database := Some [row "one" "a9ac0169" 10%Z; row "two" "0badc0de" 20%Z;
                         row "three" "a9ac0169" 30%Z];
       upload_dir := []; unreadable := []; accesses := [] |} in
  exists files,
    (list_action (JObject [(js "keyHash", JString (js "a9ac0169"))]) srv).1
      = inr files /\
    map listed_id files = [js "three"; js "one"] /\
    forall f, In f files ->
      exists r, In r [row "one" "a9ac0169" 10%Z; row "two" "0badc0de" 20%Z;
                      row "three" "a9ac0169" 30%Z] /\
                row_encryptionKeyHash r = js "a9ac0169" /\ f = listed_of_row r.
Proof.
  cbv zeta.
  pose proof (list_action_answers_own_rows
                [(js "keyHash", JString (js "a9ac0169"))] (js "a9ac0169")
                {| database :=
                     Some [ {| row_id := js "one"; row_encryptedMetadata := js "bWV0YQ==";
                               row_metadataIv := js "aXYx"; row_fileIv := js "aXYy";
                               row_encryptionKeyHash := js "a9ac0169";
                               row_createdAt := 10%Z |};
                            {| row_id := js "two"; row_encryptedMetadata := js "bWV0YQ==";
                               row_metadataIv := js "aXYx"; row_fileIv := js "aXYy";
                               row_encryptionKeyHash := js "0badc0de";
                               row_createdAt := 20%Z |};
                            {| row_id := js "three"; row_encryptedMetadata := js "bWV0YQ==";
                               row_metadataIv := js "aXYx"; row_fileIv := js "aXYy";
                               row_encryptionKeyHash := js "a9ac0169";
                               row_createdAt := 30%Z |} ];
                   upload_dir := []; unreadable := []; accesses := [] |} eq_refl)
    as (_ & _ & Hanswer).
  destruct (list_action _ _).1 as [[issue|code message]|files] eqn:Hfiles.
  - vm_compute in Hfiles. discriminate Hfiles.
  - vm_compute in Hfiles. discriminate Hfiles.
  - destruct Hanswer as (_ & rows & Hdb & _ & Hown).
    injection Hdb as <-.
    exists files. split; [reflexivity |]. split; [| exact Hown].
    vm_compute in Hfiles. injection Hfiles as <-. reflexivity.
Defined.

(** [info] of the id [store] gave, on the server [store] left. *)
Lemma info_action_answers_row_witness :
  let srv := server (store_action demo_form demo_host).2 in
  zod_uuid (Zod := StandIn.zod) demo_id = true /\
  exists record,
    (info_action (H := StandIn.zod) (JObject [(js "fileId", JString demo_id)]) srv).1
      = inr record /\
    record_id record = demo_id /\
    record_fileIv record = js "aXYy".
Proof.
  cbv zeta. split; [reflexivity |].
  pose proof (info_action_answers_row (Z0 := StandIn.zod)
                [(js "fileId", JString demo_id)] demo_id
                (server (store_action demo_form demo_host).2) eq_refl eq_refl)
    as [_ Hanswer].
  destruct (info_action _ _).1 as [[issue|code message]|record] eqn:Hinfo.
  - vm_compute in Hinfo. discriminate Hinfo.
  - vm_compute in Hinfo. discriminate Hinfo.
  - destruct Hanswer as (Hid & _).
    exists record. split; [reflexivity |]. split; [exact Hid |].
    vm_compute in Hinfo. injection Hinfo as <-. reflexivity.
Defined.

(** [fetch] of the id [store] gave, on the server [store] left, also when
    the database has gone; and when the file can no longer be read. *)
Lemma fetch_action_answers_file_witness :
  let srv := server (store_action demo_form demo_host).2 in
  (exists blob,
     (fetch_action (H := StandIn.zod) (JObject [(js "fileId", JString demo_id)]) srv).1
       = inr blob /\
     (fetch_action (H := StandIn.zod) (JObject [(js "fileId", JString demo_id)])
        {| database := None; upload_dir := upload_dir srv;
           unreadable := unreadable srv; accesses := accesses srv |}).1 = inr blob /\
     (let* binary := atob (blob_data blob) in ok (charCodes binary))
       = ok [x01; x02; x03]) /\
  (fetch_action (H := StandIn.zod) (JObject [(js "fileId", JString demo_id)])
     (set_unreadable [demo_id ++ js ".bin"] srv)).1
    = inl (ActionError INTERNAL_SERVER_ERROR "File download failed").
Proof.
  cbv zeta. split.
  - pose proof (fetch_action_answers_file (Z0 := StandIn.zod)
                  [(js "fileId", JString demo_id)] demo_id
                  (server (store_action demo_form demo_host).2) eq_refl eq_refl)
      as (_ & _ & _ & Hsame & Hanswer).
    specialize (Hsame None).
    destruct (fetch_action _ (server _)).1 as [[issue|code message]|blob] eqn:Hfetch.
    + vm_compute in Hfetch. discriminate Hfetch.
    + vm_compute in Hfetch. discriminate Hfetch.
    + exists blob. split; [reflexivity |]. split; [exact Hsame |].
      destruct Hanswer as (_ & _ & content & _ & Hread & _ & Hback).
      rewrite Hback. vm_compute in Hread. injection Hread as <-. reflexivity.
  - pose proof (fetch_action_answers_file (Z0 := StandIn.zod)
                  [(js "fileId", JString demo_id)] demo_id
                  (set_unreadable [demo_id ++ js ".bin"]
                     (server (store_action demo_form demo_host).2)) eq_refl eq_refl)
      as (_ & _ & _ & _ & Hanswer).
    destruct (fetch_action _ (set_unreadable _ _)).1
      as [[issue|[| |] message]|blob] eqn:Hfetch.
    + vm_compute in Hfetch. discriminate Hfetch.
    + vm_compute in Hfetch. discriminate Hfetch.
    + vm_compute in Hfetch. discriminate Hfetch.
    + by destruct Hanswer as (-> & _).
    + vm_compute in Hfetch. discriminate Hfetch.
Defined.

(** The metadata of a file whose name begins with U+FEFF. *)
Lemma encryptMetadata_text_survives_witness :
  let name := u16_of_N 0xFEFF :: js "a.txt" in
  exists encrypted,
    encryptMetadata (H := StandIn.cipher) name 14 1699999999000 demo_key demo_entropy
      = (ok encrypted, (getRandomValues 12 demo_entropy).2) /\
    decryptText (H := StandIn.cipher) (metadata_encryptedMetadata encrypted) demo_key
      (metadata_iv encrypted)
      = ok (JSON_stringify_metadata name 14 (Date_toISOString 1699999999000)).
Proof.
  cbv zeta.
  destruct (encryptMetadata_text_survives (G := StandIn.cipher) (GC := standin_correct)
              (u16_of_N 0xFEFF :: js "a.txt") 14 1699999999000 demo_key demo_entropy
              eq_refl eq_refl eq_refl)
    as (encrypted & Henc & _ & Htext & _).
  exists encrypted. split; [exact Henc | exact Htext].
Defined.

(** A form without its file, a form whose file is empty, and a form whose
    key hash is empty. *)
Lemma store_action_refuses_before_writing_witness :
  store_action (tail demo_form) demo_host
    = (inl (ActionInputError "Input not instance of File"), demo_host) /\
  store_action ((js "encryptedFile", FormFile []) :: tail demo_form) demo_host
    = (inl (ActionError BAD_REQUEST "Invalid file provided"), demo_host) /\
  store_action
    [(js "encryptedFile", FormFile [x01]);
     (js "encryptedMetadata", FormString (js "bWV0YQ=="));
     (js "metadataIv", FormString (js "aXYx"));
     (js "keyHash", FormString []);
     (js "fileIv", FormString (js "aXYy"))] demo_host
    = (inl (ActionInputError "Expected string, received null"), demo_host).
Proof.
  split; [| split].
  - destruct (store_action_refuses_before_writing (tail demo_form) demo_host)
      as [Hrejected _].
    destruct Hrejected as (issue & Hissue & Hstore).
    { intros input. vm_compute. discriminate. }
    rewrite Hstore. vm_compute in Hissue. injection Hissue as <-. reflexivity.
  - destruct (store_action_refuses_before_writing
                ((js "encryptedFile", FormFile []) :: tail demo_form) demo_host)
      as (_ & Hempty & _).
    eapply Hempty; [vm_compute; reflexivity | reflexivity].
  - destruct (store_action_refuses_before_writing
                [(js "encryptedFile", FormFile [x01]);
                 (js "encryptedMetadata", FormString (js "bWV0YQ=="));
                 (js "metadataIv", FormString (js "aXYx"));
                 (js "keyHash", FormString []);
                 (js "fileIv", FormString (js "aXYy"))] demo_host)
      as [Hrejected _].
    destruct Hrejected as (issue & Hissue & Hstore).
    { intros input. vm_compute. discriminate. }
    rewrite Hstore. vm_compute in Hissue. injection Hissue as <-. reflexivity.
Defined.

(** The demo form on the demo host. *)
Lemma store_action_files_the_upload_witness :
  store_schema demo_form = inr demo_input /\
  exists data,
    (store_action demo_form demo_host).1 = inr data /\
    store_fileId data = demo_id /\
    read_upload (demo_id ++ js ".bin")
      (upload_dir (server (store_action demo_form demo_host).2))
      = Some [x01; x02; x03].
Proof.
  assert (Hs : store_schema demo_form = inr demo_input) by (vm_compute; reflexivity).
  split; [exact Hs |].
  destruct (store_action_files_the_upload demo_form demo_host demo_input Hs)
    as [Hiff Hfiled].
  destruct (proj2 Hiff) as [data Hdata].
  { split; [vm_compute; discriminate |]. split; [reflexivity |].
    exists []. split; reflexivity. }
  exists data. split; [exact Hdata |].
  destruct (Hfiled data (store_action demo_form demo_host).2) as (-> & _ & _ & Hfile & _).
  { rewrite <- Hdata. by destruct (store_action demo_form demo_host). }
  split; [vm_compute; reflexivity | exact Hfile].
Defined.

(** What [store] filed for the demo form is given back. *)
Lemma stored_file_is_served_witness :
  let h' := (store_action demo_form demo_host).2 in
  (info_action (H := StandIn.zod) (JObject [(js "fileId", JString demo_id)])
     (server h')).1 =
    inr {| record_id := demo_id;
           record_encryptedMetadata := js "bWV0YQ==";
           record_metadataIv := js "aXYx";
           record_fileIv := js "aXYy";
           record_encryptionKeyHash := js "a9ac0169";
           record_uploadedAt := 1700000000000 |} /\
  (fetch_action (H := StandIn.zod) (JObject [(js "fileId", JString demo_id)])
     (server h')).1 =
    inr {| blob_data := base64_encode [x01; x02; x03];
           blob_filename := demo_id ++ js ".bin" |}.
Proof.
  cbv zeta.
  assert (Hstore : store_action demo_form demo_host =
            (inr {| store_success := true;
                    store_message := "File uploaded successfully";
                    store_fileId := demo_id |},
             (store_action demo_form demo_host).2)).
  { assert (Hdata : (store_action demo_form demo_host).1 =
              inr {| store_success := true;
                     store_message := "File uploaded successfully";
                     store_fileId := demo_id |}) by (vm_compute; reflexivity).
    rewrite <- Hdata. by destruct (store_action demo_form demo_host). }
  destruct (stored_file_is_served (Z0 := StandIn.zod) demo_form demo_host _
              demo_input _ eq_refl Hstore eq_refl)
    as (Hinfo & Hfetch & _).
  split; [exact Hinfo | exact Hfetch].
Defined.

(** The demo form when the database cannot be reached. *)
Lemma store_action_insert_failure_leaves_file_witness :
  let h := set_server (set_database None) demo_host in
  exists h',
    store_action demo_form h =
      (inl (ActionError INTERNAL_SERVER_ERROR "Can't reach database server"), h') /\
    database (server h') = None /\
    read_upload (demo_id ++ js ".bin") (upload_dir (server h'))
      = Some [x01; x02; x03].
Proof.
  cbv zeta.
  destruct (store_action_insert_failure_leaves_file demo_form
              (set_server (set_database None) demo_host) demo_input)
    as (h' & Hstore & Hdb & Hfile & _).
  - vm_compute. reflexivity.
  - vm_compute. discriminate.
  - reflexivity.
  - intros rows Hrows. vm_compute in Hrows. discriminate Hrows.
  - exists h'. split; [exact Hstore |]. split; [exact Hdb | exact Hfile].
Defined.

(** The demo page uploads its file. *)
Lemma handleUpload_clears_or_keeps_witness :
  exists w' new,
    handleUpload (H := StandIn.cipher) (H0 := Reader.json) (H1 := demo_messages)
      demo_world = (ok tt, w') /\
    uploadingStore (page w') = false /\
    uploadProgressStore (page w') = [] /\
    manager (session w') = manager (session demo_world) /\
    database (server (host w'))
      = (fun rows => rows ++ new) <$> database (server (host demo_world)).
Proof.
  destruct (handleUpload_clears_or_keeps (G := StandIn.cipher) (J := Reader.json)
              (Msg := demo_messages) demo_world demo_key (js "a9ac0169"))
    as (w' & new & Hup & Hu & Hp & Hm & _ & Hdb & _).
  - discriminate.
  - exact demo_session_key.
  - vm_compute. reflexivity.
  - discriminate.
  - reflexivity.
  - exists w', new. split; [exact Hup |]. split; [exact Hu |]. split; [exact Hp |].
    split; [exact Hm | exact Hdb].
Defined.

(** The demo page uploads its file and downloads it again. *)
Lemma uploaded_file_downloads_intact_witness :
  let fileInfo :=
    {| info_id := demo_id;
       info_fileName := JString (js "notes.txt");
       info_fileSize := JNumber (js "14");
       info_uploadDate := Date_of (JString (js "2023-11-14T22:13:19.000Z"));
       info_uploadedAt := 1700000000000 |} in
  exists w1 w2,
    handleUpload (H := StandIn.cipher) (H0 := Reader.json) (H1 := demo_messages)
      demo_world = (ok tt, w1) /\
    handleDownload (H := StandIn.cipher) (H0 := StandIn.zod) (H1 := demo_messages)
      fileInfo w1 = (ok tt, w2) /\
    downloads (page w2) =
      [{| download_name := JString (js "notes.txt");
          download_content := list_byte_of_string "hello, tinybox" |}] /\
    toasts (ui (page w2)) = [].
Proof.
  cbv zeta.
  destruct (uploaded_file_downloads_intact (G := StandIn.cipher) (GC := standin_correct)
              (GT := standin_tagged) (J := Reader.json) (Z0 := StandIn.zod)
              (Msg := demo_messages) demo_world demo_file demo_key []
              demo_session_reachable demo_session_key eq_refl eq_refl eq_refl)
    as (w1 & Hup & _ & _ & _ & Hdown).
  - reflexivity.
  - vm_compute. reflexivity.
  - destruct (Hdown {| info_id := demo_id;
                       info_fileName := JString (js "notes.txt");
                       info_fileSize := JNumber (js "14");
                       info_uploadDate :=
                         Date_of (JString (js "2023-11-14T22:13:19.000Z"));
                       info_uploadedAt := 1700000000000 |})
      as (w2 & Hdl & Hfiles & Htoasts).
    { vm_compute. reflexivity. }
    exists w1, w2. split; [exact Hup |]. split; [exact Hdl |].
    split; [exact Hfiles | exact Htoasts].
Defined.

(** The demo page uploads its file and lists it. *)
Lemma uploaded_file_is_listed_witness :
  reads_metadata (H := Reader.json) (js "notes.txt") 14 (js "2023-11-14T22:13:19.000Z") /\
  exists w1,
    handleUpload (H := StandIn.cipher) (H0 := Reader.json) (H1 := demo_messages)
      demo_world = (ok tt, w1) /\
    In {| info_id := demo_id;
          info_fileName := JString (js "notes.txt");
          info_fileSize := JNumber (js "14");
          info_uploadDate := Date_of (JString (js "2023-11-14T22:13:19.000Z"));
          info_uploadedAt := 1700000000000 |}
       (filesStore (ui (page w1))).
Proof.
  assert (Hreads : reads_metadata (H := Reader.json) (js "notes.txt") 14
                     (js "2023-11-14T22:13:19.000Z")).
  { vm_compute. reflexivity. }
  split; [exact Hreads |].
  assert (Hdate : Date_toISOString 1699999999000 = js "2023-11-14T22:13:19.000Z").
  { vm_compute. reflexivity. }
  assert (Hid : (uuidv4 (uuid_random demo_host)).1 = demo_id).
  { vm_compute. reflexivity. }
  destruct (uploaded_file_is_listed (G := StandIn.cipher) (GC := standin_correct)
              (GT := standin_tagged) (J := Reader.json) (Msg := demo_messages) demo_world demo_file demo_key []
              demo_session_reachable demo_session_key eq_refl eq_refl eq_refl eq_refl)
    as (w1 & Hup & Hin).
  - reflexivity.
  - change (Date_toISOString _) with (Date_toISOString 1699999999000).
    rewrite Hdate. exact Hreads.
  - exists w1. split; [exact Hup |].
    change (Date_toISOString _) with (Date_toISOString 1699999999000) in Hin.
    change (uuidv4 _).1 with (uuidv4 (uuid_random demo_host)).1 in Hin.
    rewrite Hdate, Hid in Hin. exact Hin.
Defined.

(** A session opened through a share link generates a new key and uploads. *)
Lemma keyLoadedFromExternal_is_never_cleared_witness :
  let st := session demo_world in
  let w := {| session := run GenerateNewKey st; host := demo_host;
              page := set_hasUploadedFilesStore true demo_page |} in
  keyLoadedFromExternal (stores st) = true /\
  keyLoadedFromExternal (stores (run GenerateNewKey st)) = true /\
  linkSaved (shareLink (page w)) = false /\
  hasUploadedFilesStore (page w) = true /\
  warns_before_unload w = false.
Proof.
  cbv zeta.
  assert (Hext : keyLoadedFromExternal (stores (session demo_world)) = true).
  { vm_compute. reflexivity. }
  split; [exact Hext |].
  destruct (keyLoadedFromExternal_is_never_cleared GenerateNewKey (session demo_world)
              Hext)
    as (Hkept & _ & Hquiet).
  split; [exact Hkept |]. split; [reflexivity |]. split; [reflexivity |].
  exact (Hquiet demo_host (set_hasUploadedFilesStore true demo_page)).
Defined.
